(** * ai-podcast: transcript segmentation, speech synthesis, playback, history

    A shallow embedding of [src/app/page.tsx] (the [PodcastGenerator]
    component) and of its earlier revision kept in the same file.

    - JavaScript strings are sequences of UTF-16 code units ([JS.str]).
    - The component's [useState] cells form the record [Component].
    - The asynchronous [generatePodcast] is cut at its [await]s: the part
      that runs up to an [await] is one step of the machine, and the reply
      of the network is the event that starts the next part.  User
      interface events may arrive between two such steps.
    - What the component does to the outside (network requests, commands
      sent to the [<audio>] element, the [podcast_history] entry of
      [localStorage]) is recorded in the state.
    - After the handler of an event has run, the component is rendered
      and the effect on [[currentIdx, segments, playbackSpeed]] runs if
      one of the three changed; [segments] is compared as React does,
      by the identity of the array.
    - [step] is an event handled on a page that is up to date, followed
      by that render.  A click is rendered as soon as it is handled; what
      a reply of the network or a listener of the [<audio>] element sets
      is rendered later, and a click may be handled before that, by the
      handlers of the older render: these are [handle_at].
    - Left out: what is written to the console, the storage entries of
      the two keys, the prompt and the settings of the transcript
      request, and of the page all but which controls exist and are
      enabled. *)

From Stdlib Require Import List NArith ZArith Bool Lia.
From Stdlib Require Import Permutation.
From Stdlib Require String Ascii.
From Stdlib Require Decimal DecimalFacts DecimalN DecimalZ.
Import ListNotations.
Import String.StringSyntax.
Local Open Scope string_scope.
Local Open Scope list_scope.
Local Open Scope nat_scope.

(* ================================================================== *)
(** ** JavaScript strings *)

Module JS.

(** A string is a list of UTF-16 code units. *)
Definition str := list N.

(** An ASCII literal. *)
Definition lit (s : String.string) : str :=
  map Ascii.N_of_ascii (String.list_ascii_of_string s).

Fixpoint eqb (a b : str) : bool :=
  match a, b with
  | [], [] => true
  | x :: a', y :: b' => N.eqb x y && eqb a' b'
  | _, _ => false
  end.

(** A string is truthy when it is not empty. *)
Definition truthy (s : str) : bool :=
  match s with [] => false | _ :: _ => true end.

(** [LineTerminator]: LF, CR, LS, PS.  The regular expression [.]
    matches every code unit but these. *)
Definition is_line_terminator (c : N) : bool :=
  (c =? 10)%N || (c =? 13)%N || (c =? 8232)%N || (c =? 8233)%N.

(** The class [\s]: [WhiteSpace] and [LineTerminator]. *)
Definition is_space (c : N) : bool :=
  (c =? 9)%N || (c =? 10)%N || (c =? 11)%N || (c =? 12)%N || (c =? 13)%N
  || (c =? 32)%N || (c =? 160)%N || (c =? 5760)%N
  || ((8192 <=? c)%N && (c <=? 8202)%N)
  || (c =? 8232)%N || (c =? 8233)%N || (c =? 8239)%N || (c =? 8287)%N
  || (c =? 12288)%N || (c =? 65279)%N.

(** [s.startsWith(p)] *)
Fixpoint startsWith (s p : str) : bool :=
  match p, s with
  | [], _ => true
  | _ :: _, [] => false
  | a :: p', b :: s' => N.eqb a b && startsWith s' p'
  end.

(** [s.includes(p)] *)
Fixpoint includes (s p : str) : bool :=
  startsWith s p ||
  match s with
  | [] => false
  | _ :: s' => includes s' p
  end.

Fixpoint drop_while (f : N -> bool) (s : str) : str :=
  match s with
  | [] => []
  | c :: s' => if f c then drop_while f s' else s
  end.

(** [s.trim()] *)
Definition trim (s : str) : str :=
  rev (drop_while is_space (rev (drop_while is_space s))).

(** [s.split(/\n+/)]: the pieces between the maximal runs of LF.  A run
    at the very start or end leaves an empty piece there; the empty
    string gives one empty piece.  [cur] is the piece being read,
    reversed; [in_run] says that the previous code unit was an LF. *)
Fixpoint split_lf_from (s : str) (cur : str) (in_run : bool) : list str :=
  match s with
  | [] => [rev cur]
  | c :: s' =>
      if (c =? 10)%N then
        if in_run then split_lf_from s' cur true
        else rev cur :: split_lf_from s' [] true
      else split_lf_from s' (c :: cur) false
  end.

Definition split_lf (s : str) : list str := split_lf_from s [] false.

(** The number [n] printed in decimal, as [Number.prototype.toString]
    prints an integer of magnitude below 10^21. *)
Fixpoint digits (d : Decimal.uint) : str :=
  match d with
  | Decimal.Nil => []
  | Decimal.D0 d' => 48%N :: digits d'
  | Decimal.D1 d' => 49%N :: digits d'
  | Decimal.D2 d' => 50%N :: digits d'
  | Decimal.D3 d' => 51%N :: digits d'
  | Decimal.D4 d' => 52%N :: digits d'
  | Decimal.D5 d' => 53%N :: digits d'
  | Decimal.D6 d' => 54%N :: digits d'
  | Decimal.D7 d' => 55%N :: digits d'
  | Decimal.D8 d' => 56%N :: digits d'
  | Decimal.D9 d' => 57%N :: digits d'
  end.

Definition of_N (n : N) : str := digits (N.to_uint n).

Definition of_Z (z : Z) : str :=
  match Z.to_int z with
  | Decimal.Pos d => digits d
  | Decimal.Neg d => 45%N :: digits d
  end.

End JS.

(* ================================================================== *)
(** ** Splitting the transcript by speaker *)

Inductive Speaker := host | guest.

Definition Speaker_eqb (a b : Speaker) : bool :=
  match a, b with
  | host, host | guest, guest => true
  | _, _ => false
  end.

Record Chunk := { speaker : Speaker; text : JS.str }.

Definition Host_label : JS.str := JS.lit "Host:".
Definition Guest_label : JS.str := JS.lit "Guest:".

(** [who] of the current revision: the label may stand anywhere in the
    line. *)
Definition who (l : JS.str) : option Speaker :=
  if JS.includes l Host_label then Some host
  else if JS.includes l Guest_label then Some guest
  else None.

(** [who] of the earlier revision: the label must start the line. *)
Definition who_v1 (l : JS.str) : option Speaker :=
  if JS.startsWith l Host_label then Some host
  else if JS.startsWith l Guest_label then Some guest
  else None.

(** The colon of the class [[:：]]: U+003A or U+FF1A. *)
Definition is_colon (c : N) : bool := (c =? 58)%N || (c =? 65306)%N.

(** Where [/^.*?[:：]\s*/] matches [s], what follows the match.  The lazy
    [.*?] stops at the first colon, and may not cross a line terminator;
    [\s*] then takes all the white space there is. *)
Fixpoint after_label (s : JS.str) : option JS.str :=
  match s with
  | [] => None
  | c :: s' =>
      if is_colon c then Some (JS.drop_while JS.is_space s')
      else if JS.is_line_terminator c then None
      else after_label s'
  end.

(** [line.replace(/^.*?[:：]\s*/, ' ')] *)
Definition strip_label (line : JS.str) : JS.str :=
  match after_label line with
  | Some rest => 32%N :: rest
  | None => line
  end.

(** The variables of the splitting loop. *)
Record Splitter := { chunks : list Chunk; curr : option Speaker; buf : JS.str }.

Section SplitBySpeaker.

(** The two revisions differ in [who], and in what happens to a line
    without a label met before any label: the current revision skips it
    ([else if (curr)]), the earlier one adds it to the buffer
    ([else]). *)
Variable who_policy : JS.str -> option Speaker.
Variable keep_preamble : bool.

(** One turn of [for (const line of lines)]. *)
Definition split_line (st : Splitter) (line : JS.str) : Splitter :=
  match who_policy line with
  | Some s =>
      let st1 :=
        match curr st with
        | Some c =>
            if negb (Speaker_eqb s c)
            then {| chunks := chunks st ++ [{| speaker := c; text := buf st |}];
                    curr := curr st; buf := [] |}
            else st
        | None => st
        end in
      {| chunks := chunks st1; curr := Some s;
         buf := buf st1 ++ strip_label line ++ [32%N] |}
  | None =>
      match curr st with
      | Some _ =>
          {| chunks := chunks st; curr := curr st;
             buf := buf st ++ line ++ [32%N] |}
      | None =>
          if keep_preamble
          then {| chunks := chunks st; curr := curr st;
                  buf := buf st ++ line ++ [32%N] |}
          else st
      end
  end.

(** [if (curr && buf) chunks.push(...)] *)
Definition split_finish (st : Splitter) : list Chunk :=
  match curr st with
  | Some c =>
      if JS.truthy (buf st)
      then chunks st ++ [{| speaker := c; text := buf st |}]
      else chunks st
  | None => chunks st
  end.

Definition split_lines (lines : list JS.str) : list Chunk :=
  split_finish
    (fold_left split_line lines {| chunks := []; curr := None; buf := [] |}).

(** [content.split(/\n+/).filter(Boolean)], then the loop. *)
Definition split_by_speaker (content : JS.str) : list Chunk :=
  split_lines (filter JS.truthy (JS.split_lf content)).

End SplitBySpeaker.

(** Step 2 of [generatePodcast], current revision. *)
Definition splitBySpeaker : JS.str -> list Chunk := split_by_speaker who false.

(** Step 2 of [generatePodcast], earlier revision. *)
Definition splitBySpeaker_v1 : JS.str -> list Chunk := split_by_speaker who_v1 true.

(* ================================================================== *)
(** ** Data of the component *)

Module PodcastSegment.
Record t := { url : JS.str; speaker : Speaker; text : JS.str }.
End PodcastSegment.

(** A JavaScript array has an identity besides its elements: React
    compares the cells of a dependency list with [Object.is].  [ref] is
    the identity, given out by the counter [heap] of the machine. *)
Record Arr (A : Type) := { ref : nat; items : list A }.

Arguments Build_Arr {A} ref items.
Arguments ref {A} a.
Arguments items {A} a.

Module StoredPodcast.
(** [S] is the type of the [segments] field: an array in memory, the
    list of its elements in the JSON text. *)
Record t (S : Type) := {
  id : JS.str;
  topic : JS.str;
  transcript : JS.str;
  segments : S;
  createdAt : Z
}.

Arguments Build_t {S} id topic transcript segments createdAt.
Arguments id {S} t.
Arguments topic {S} t.
Arguments transcript {S} t.
Arguments segments {S} t.
Arguments createdAt {S} t.
End StoredPodcast.

Definition Stored := StoredPodcast.t (Arr PodcastSegment.t).
Definition StoredJson := StoredPodcast.t (list PodcastSegment.t).

(** The playback speeds: those of [speedOptions], the only ones the
    page passes to [changePlaybackSpeed]. *)
Inductive Speed := x0_5 | x0_75 | x1 | x1_25 | x1_5 | x2.

Definition Speed_eqb (a b : Speed) : bool :=
  match a, b with
  | x0_5, x0_5 | x0_75, x0_75 | x1, x1
  | x1_25, x1_25 | x1_5, x1_5 | x2, x2 => true
  | _, _ => false
  end.

(** The cells of [useState], in the order of the source. *)
Record Component := {
  apiKey : JS.str;
  openaiKey : JS.str;
  topic : JS.str;
  transcript : JS.str;
  segments : Arr PodcastSegment.t;
  loading : bool;
  error : JS.str;
  currentIdx : nat;
  playbackSpeed : Speed;
  showHistory : bool;
  podcastHistory : list Stored;
  audioReady : bool
}.

Definition setApiKey (v : JS.str) (c : Component) : Component :=
  {| apiKey := v; openaiKey := openaiKey c; topic := topic c;
     transcript := transcript c; segments := segments c; loading := loading c;
     error := error c; currentIdx := currentIdx c;
     playbackSpeed := playbackSpeed c; showHistory := showHistory c;
     podcastHistory := podcastHistory c; audioReady := audioReady c |}.

Definition setOpenaiKey (v : JS.str) (c : Component) : Component :=
  {| apiKey := apiKey c; openaiKey := v; topic := topic c;
     transcript := transcript c; segments := segments c; loading := loading c;
     error := error c; currentIdx := currentIdx c;
     playbackSpeed := playbackSpeed c; showHistory := showHistory c;
     podcastHistory := podcastHistory c; audioReady := audioReady c |}.

Definition setTopic (v : JS.str) (c : Component) : Component :=
  {| apiKey := apiKey c; openaiKey := openaiKey c; topic := v;
     transcript := transcript c; segments := segments c; loading := loading c;
     error := error c; currentIdx := currentIdx c;
     playbackSpeed := playbackSpeed c; showHistory := showHistory c;
     podcastHistory := podcastHistory c; audioReady := audioReady c |}.

Definition setTranscript (v : JS.str) (c : Component) : Component :=
  {| apiKey := apiKey c; openaiKey := openaiKey c; topic := topic c;
     transcript := v; segments := segments c; loading := loading c;
     error := error c; currentIdx := currentIdx c;
     playbackSpeed := playbackSpeed c; showHistory := showHistory c;
     podcastHistory := podcastHistory c; audioReady := audioReady c |}.

Definition setSegments (v : Arr PodcastSegment.t) (c : Component) : Component :=
  {| apiKey := apiKey c; openaiKey := openaiKey c; topic := topic c;
     transcript := transcript c; segments := v; loading := loading c;
     error := error c; currentIdx := currentIdx c;
     playbackSpeed := playbackSpeed c; showHistory := showHistory c;
     podcastHistory := podcastHistory c; audioReady := audioReady c |}.

Definition setLoading (v : bool) (c : Component) : Component :=
  {| apiKey := apiKey c; openaiKey := openaiKey c; topic := topic c;
     transcript := transcript c; segments := segments c; loading := v;
     error := error c; currentIdx := currentIdx c;
     playbackSpeed := playbackSpeed c; showHistory := showHistory c;
     podcastHistory := podcastHistory c; audioReady := audioReady c |}.

Definition setError (v : JS.str) (c : Component) : Component :=
  {| apiKey := apiKey c; openaiKey := openaiKey c; topic := topic c;
     transcript := transcript c; segments := segments c; loading := loading c;
     error := v; currentIdx := currentIdx c;
     playbackSpeed := playbackSpeed c; showHistory := showHistory c;
     podcastHistory := podcastHistory c; audioReady := audioReady c |}.

Definition setCurrentIdx (v : nat) (c : Component) : Component :=
  {| apiKey := apiKey c; openaiKey := openaiKey c; topic := topic c;
     transcript := transcript c; segments := segments c; loading := loading c;
     error := error c; currentIdx := v;
     playbackSpeed := playbackSpeed c; showHistory := showHistory c;
     podcastHistory := podcastHistory c; audioReady := audioReady c |}.

Definition setPlaybackSpeed (v : Speed) (c : Component) : Component :=
  {| apiKey := apiKey c; openaiKey := openaiKey c; topic := topic c;
     transcript := transcript c; segments := segments c; loading := loading c;
     error := error c; currentIdx := currentIdx c;
     playbackSpeed := v; showHistory := showHistory c;
     podcastHistory := podcastHistory c; audioReady := audioReady c |}.

Definition setShowHistory (v : bool) (c : Component) : Component :=
  {| apiKey := apiKey c; openaiKey := openaiKey c; topic := topic c;
     transcript := transcript c; segments := segments c; loading := loading c;
     error := error c; currentIdx := currentIdx c;
     playbackSpeed := playbackSpeed c; showHistory := v;
     podcastHistory := podcastHistory c; audioReady := audioReady c |}.

Definition setPodcastHistory (v : list Stored) (c : Component) : Component :=
  {| apiKey := apiKey c; openaiKey := openaiKey c; topic := topic c;
     transcript := transcript c; segments := segments c; loading := loading c;
     error := error c; currentIdx := currentIdx c;
     playbackSpeed := playbackSpeed c; showHistory := showHistory c;
     podcastHistory := v; audioReady := audioReady c |}.

Definition setAudioReady (v : bool) (c : Component) : Component :=
  {| apiKey := apiKey c; openaiKey := openaiKey c; topic := topic c;
     transcript := transcript c; segments := segments c; loading := loading c;
     error := error c; currentIdx := currentIdx c;
     playbackSpeed := playbackSpeed c; showHistory := showHistory c;
     podcastHistory := podcastHistory c; audioReady := v |}.

(* ================================================================== *)
(** ** The world around the component *)

(** The entry [podcast_history] of [localStorage].  [JSON.stringify] and
    [JSON.parse] are inverse on the plain data the component stores, so
    the entry holds the data; [Garbage] is any text on which
    [JSON.parse] throws. *)
Inductive Entry :=
| Absent
| Json (h : list StoredJson)
| Garbage.

(** What is sent to the [<audio>] element. *)
Inductive SinkCmd :=
| SetSrc (u : JS.str)
| SetRate (r : Speed)
| Load
| Play
| Pause.

(** The [<audio>] element: its [src] is read back by [playCurrent]. *)
Record Audio := { src : JS.str }.

Inductive Voice := alloy | nova.

(** The network calls.  The fixed prompt and settings of the transcript
    request are left out. *)
Inductive Request :=
| GenerateContent (key topic_ : JS.str)
| Speech (key : JS.str) (voice : Voice) (input : JS.str).

(** Where a suspended [generatePodcast] waits, with its local variables. *)
Inductive Pending :=
| AwaitTranscript (topic_ openaiKey_ : JS.str)
| AwaitSpeech (topic_ openaiKey_ content : JS.str)
    (chunk : Chunk) (rest : list Chunk) (segs : Arr PodcastSegment.t).

(** What [savePodcastToHistory] reads from its surroundings: the two
    readings of [Date.now()], and whether [localStorage.setItem]
    returns (it throws when the quota is exceeded). *)
Record Ambient := { now_id : Z; now_createdAt : Z; setItem_ok : bool }.

Record State := {
  ui : Component;
  inflight : option Pending;
  storage : Entry;
  audio : option Audio;
  sink : list SinkCmd;
  requests : list Request;
  heap : nat;
  play_calls : list nat
}.

Definition upd_ui (f : Component -> Component) (s : State) : State :=
  {| ui := f (ui s); inflight := inflight s; storage := storage s;
     audio := audio s; sink := sink s; requests := requests s;
     heap := heap s; play_calls := play_calls s |}.

Definition set_inflight (v : option Pending) (s : State) : State :=
  {| ui := ui s; inflight := v; storage := storage s;
     audio := audio s; sink := sink s; requests := requests s;
     heap := heap s; play_calls := play_calls s |}.

Definition set_storage (v : Entry) (s : State) : State :=
  {| ui := ui s; inflight := inflight s; storage := v;
     audio := audio s; sink := sink s; requests := requests s;
     heap := heap s; play_calls := play_calls s |}.

Definition set_audio (v : option Audio) (s : State) : State :=
  {| ui := ui s; inflight := inflight s; storage := storage s;
     audio := v; sink := sink s; requests := requests s;
     heap := heap s; play_calls := play_calls s |}.

Definition send (cmds : list SinkCmd) (s : State) : State :=
  {| ui := ui s; inflight := inflight s; storage := storage s;
     audio := audio s; sink := sink s ++ cmds; requests := requests s;
     heap := heap s; play_calls := play_calls s |}.

Definition request (r : Request) (s : State) : State :=
  {| ui := ui s; inflight := inflight s; storage := storage s;
     audio := audio s; sink := sink s; requests := requests s ++ [r];
     heap := heap s; play_calls := play_calls s |}.

Definition set_heap (v : nat) (s : State) : State :=
  {| ui := ui s; inflight := inflight s; storage := storage s;
     audio := audio s; sink := sink s; requests := requests s;
     heap := v; play_calls := play_calls s |}.

Definition note_play (i : nat) (s : State) : State :=
  {| ui := ui s; inflight := inflight s; storage := storage s;
     audio := audio s; sink := sink s; requests := requests s;
     heap := heap s; play_calls := i :: play_calls s |}.

(** A new array with the elements [l]. *)
Definition new_array (l : list PodcastSegment.t) (s : State)
  : Arr PodcastSegment.t * State :=
  ({| ref := heap s; items := l |}, set_heap (S (heap s)) s).

(* ================================================================== *)
(** ** The history store *)

(** [JSON.stringify] of one podcast: the identity of its array is lost. *)
Definition to_json (p : Stored) : StoredJson :=
  {| StoredPodcast.id := StoredPodcast.id p;
     StoredPodcast.topic := StoredPodcast.topic p;
     StoredPodcast.transcript := StoredPodcast.transcript p;
     StoredPodcast.segments := items (StoredPodcast.segments p);
     StoredPodcast.createdAt := StoredPodcast.createdAt p |}.

Definition of_json (r : nat) (p : StoredJson) : Stored :=
  {| StoredPodcast.id := StoredPodcast.id p;
     StoredPodcast.topic := StoredPodcast.topic p;
     StoredPodcast.transcript := StoredPodcast.transcript p;
     StoredPodcast.segments := {| ref := r; items := StoredPodcast.segments p |};
     StoredPodcast.createdAt := StoredPodcast.createdAt p |}.

(** [JSON.parse]: every podcast gets an array of its own. *)
Fixpoint parse_from (r : nat) (h : list StoredJson) : list Stored :=
  match h with
  | [] => []
  | p :: h' => of_json r p :: parse_from (S r) h'
  end.

Definition parse (h : list StoredJson) (s : State) : list Stored * State :=
  (parse_from (heap s) h, set_heap (heap s + length h) s).

(** [history.sort((a, b) => b.createdAt - a.createdAt)]: newest first,
    and stable. *)
Fixpoint insert_desc (x : Stored) (l : list Stored) : list Stored :=
  match l with
  | [] => [x]
  | y :: l' =>
      if (StoredPodcast.createdAt y <=? StoredPodcast.createdAt x)%Z
      then x :: l
      else y :: insert_desc x l'
  end.

Definition sort_desc (l : list Stored) : list Stored :=
  fold_right insert_desc [] l.

(** [loadPodcastHistory] *)
Definition loadPodcastHistory (s : State) : State :=
  match storage s with
  | Absent => s
  | Json h =>
      let (history, s1) := parse h s in
      upd_ui (setPodcastHistory (sort_desc history)) s1
  | Garbage => s
  end.

(** [savePodcastToHistory].  The [catch] only writes to the console. *)
Definition savePodcastToHistory (topic_ transcript_ : JS.str)
    (segs : Arr PodcastSegment.t) (w : Ambient) (s : State) : State :=
  let newPodcast : Stored :=
    {| StoredPodcast.id := JS.of_Z (now_id w);
       StoredPodcast.topic := topic_;
       StoredPodcast.transcript := transcript_;
       StoredPodcast.segments := segs;
       StoredPodcast.createdAt := now_createdAt w |} in
  match storage s with
  | Garbage => s
  | existing =>
      let (history, s1) :=
        match existing with
        | Json h => parse h s
        | _ => ([], s)
        end in
      let trimmed := firstn 10 (newPodcast :: history) in
      if setItem_ok w
      then upd_ui (setPodcastHistory trimmed)
             (set_storage (Json (map to_json trimmed)) s1)
      else s1
  end.

(** [loadPodcastFromHistory] *)
Definition loadPodcastFromHistory (p : Stored) (s : State) : State :=
  upd_ui (fun c =>
    setShowHistory false
      (setAudioReady false
        (setCurrentIdx 0
          (setSegments (StoredPodcast.segments p)
            (setTranscript (StoredPodcast.transcript p)
              (setTopic (StoredPodcast.topic p) c)))))) s.

(** [clearHistory] *)
Definition clearHistory (s : State) : State :=
  upd_ui (setPodcastHistory []) (set_storage Absent s).

(* ================================================================== *)
(** ** [generatePodcast] *)

Definition voice_of (sp : Speaker) : Voice :=
  match sp with host => alloy | guest => nova end.

(** The [finally] block, and the end of the call. *)
Definition finish (s : State) : State :=
  set_inflight None (upd_ui (setLoading false) s).

(** [catch (err) { setError(err.message) }], then [finally]. *)
Definition fail (message : JS.str) (s : State) : State :=
  finish (upd_ui (setError message) s).

(** [for (const chunk of chunks)] from its head, with [chunks] the chunks
    still to do: either the request for the next chunk goes out and the
    call is suspended at [await fetch], or the loop is over and the
    segments are installed and saved. *)
Definition tts_loop (topic_ openaiKey_ content : JS.str)
    (chunks_ : list Chunk) (segs : Arr PodcastSegment.t)
    (w : Ambient) (s : State) : State :=
  match chunks_ with
  | chunk :: rest =>
      set_inflight
        (Some (AwaitSpeech topic_ openaiKey_ content chunk rest segs))
        (request (Speech openaiKey_ (voice_of (speaker chunk)) (text chunk)) s)
  | [] =>
      finish
        (savePodcastToHistory topic_ content segs w
           (upd_ui (setSegments segs) s))
  end.

(** [generatePodcast] up to [await ai.models.generateContent]. *)
Definition generatePodcast (s : State) : State :=
  let s := upd_ui (setError []) s in
  if negb (JS.truthy (apiKey (ui s))) then
    upd_ui (setError (JS.lit "Please provide your Gemini API key.")) s
  else if negb (JS.truthy (openaiKey (ui s))) then
    upd_ui (setError (JS.lit "Please provide your OpenAI API key for TTS.")) s
  else if negb (JS.truthy (topic (ui s))) then
    upd_ui (setError (JS.lit "Please enter a topic.")) s
  else
    let (empty, s) := new_array [] s in
    let s :=
      upd_ui (fun c =>
        setAudioReady false
          (setCurrentIdx 0
            (setSegments empty
              (setTranscript [] (setLoading true c))))) s in
    set_inflight (Some (AwaitTranscript (topic (ui s)) (openaiKey (ui s))))
      (request (GenerateContent (apiKey (ui s)) (topic (ui s))) s).

(** From the reply of the transcript service to the first [await fetch]:
    [response.text || ''], the split, and the head of the loop. *)
Definition on_transcript (topic_ openaiKey_ : JS.str)
    (response_text : option JS.str) (w : Ambient) (s : State) : State :=
  let content := match response_text with Some t => t | None => [] end in
  let s := upd_ui (setTranscript content) s in
  let (segs, s) := new_array [] s in
  tts_loop topic_ openaiKey_ content (splitBySpeaker content) segs w s.

(** The message of [new Error(`TTS API → ${status} ${statusText}`)]. *)
Definition tts_error (status : N) (statusText : JS.str) : JS.str :=
  JS.lit "TTS API " ++ [8594%N; 32%N] ++ JS.of_N status ++ [32%N] ++ statusText.

(** From the reply to a speech request to the next [await fetch].
    [objectUrl] is what [URL.createObjectURL] returns for its body. *)
Definition on_speech (topic_ openaiKey_ content : JS.str)
    (chunk : Chunk) (rest : list Chunk) (segs : Arr PodcastSegment.t)
    (ok : bool) (status : N) (statusText objectUrl : JS.str)
    (w : Ambient) (s : State) : State :=
  if negb ok then fail (tts_error status statusText) s
  else
    let seg := {| PodcastSegment.url := objectUrl;
                  PodcastSegment.speaker := speaker chunk;
                  PodcastSegment.text := text chunk |} in
    tts_loop topic_ openaiKey_ content rest
      {| ref := ref segs; items := items segs ++ [seg] |} w s.

(* ================================================================== *)
(** ** Playback *)

(** [playCurrent]; [readyState] is what the element answers. *)
Definition playCurrent (readyState : N) (s : State) : State :=
  match audio s with
  | None => s
  | Some a =>
      let c := ui s in
      match nth_error (items (segments c)) (currentIdx c) with
      | None => s
      | Some currentSegment =>
          let s :=
            if negb (JS.eqb (src a) (PodcastSegment.url currentSegment))
            then set_audio (Some {| src := PodcastSegment.url currentSegment |})
                   (send [SetSrc (PodcastSegment.url currentSegment);
                          SetRate (playbackSpeed c)] s)
            else s in
          let s :=
            if (currentIdx c =? 0) && (readyState =? 0)%N
            then send [Load] s else s in
          note_play (currentIdx c) (send [Play] s)
      end
  end.

(** [pauseCurrent] *)
Definition pauseCurrent (s : State) : State :=
  match audio s with
  | None => s
  | Some _ => send [Pause] s
  end.

(** [skipNext], and [onEnded] which has the same body, on a page that
    is up to date: the index and the list that the guard reads are those
    of the state. *)
Definition skipNext (s : State) : State :=
  if S (currentIdx (ui s)) <? length (items (segments (ui s)))
  then upd_ui (fun c => setCurrentIdx (S (currentIdx c)) c) s
  else s.

Definition onEnded : State -> State := skipNext.

(** [changePlaybackSpeed] *)
Definition changePlaybackSpeed (speed : Speed) (s : State) : State :=
  let s := upd_ui (setPlaybackSpeed speed) s in
  match audio s with
  | None => s
  | Some _ => send [SetRate speed] s
  end.

(** The message set when the promise of [play()] in [playCurrent] is
    rejected; [i] is the index the call was made at. *)
Definition play_error (i : nat) : JS.str :=
  JS.lit "Failed to play audio segment " ++ JS.of_N (N.of_nat (S i))
  ++ JS.lit ". Try tapping the play button again.".

(** The effect with the dependencies [[currentIdx, segments,
    playbackSpeed]]. *)
Definition playback_effect (s : State) : State :=
  let c := ui s in
  match audio s with
  | None => s
  | Some _ =>
      match nth_error (items (segments c)) (currentIdx c) with
      | None => s
      | Some currentSegment =>
          let s :=
            set_audio (Some {| src := PodcastSegment.url currentSegment |})
              (send [SetSrc (PodcastSegment.url currentSegment);
                     SetRate (playbackSpeed c)] s) in
          if currentIdx c =? 0 then send [Load] s else send [Play] s
      end
  end.

(** Whether a dependency of the effect differs between two renders. *)
Definition deps_changed (before after : Component) : bool :=
  negb ((currentIdx before =? currentIdx after)
        && (ref (segments before) =? ref (segments after))
        && Speed_eqb (playbackSpeed before) (playbackSpeed after)).

(** The render after a handler has run: the [<audio>] element is in the
    tree exactly when there are segments (a new element has no [src]);
    then the effect runs if one of its dependencies changed. *)
Definition render (before : Component) (s : State) : State :=
  let s :=
    match items (segments (ui s)) with
    | [] => set_audio None s
    | _ :: _ =>
        match audio s with
        | None => set_audio (Some {| src := [] |}) s
        | Some _ => s
        end
    end in
  if deps_changed before (ui s) then playback_effect s else s.

(* ================================================================== *)
(** ** The machine *)

Inductive Event :=
| ApiKeyChange (value : JS.str)
| OpenaiKeyChange (value : JS.str)
| TopicChange (value : JS.str)
| ClickGenerate
| TranscriptReturns (response_text : option JS.str) (w : Ambient)
| TranscriptThrows (message : JS.str)
| SpeechResponds (ok : bool) (status : N) (statusText objectUrl : JS.str)
    (w : Ambient)
| SpeechThrows (message : JS.str)
| ClickHistory
| ClickHistoryItem (i : nat)
| ClickClearAll
| ClickPlay (readyState : N)
| ClickPause
| ClickSkip
| ClickSpeed (speed : Speed)
| PlayRejected (i : nat)
| AudioEnded
| AudioCanPlay
| AudioLoadStart
| AudioError.

(** [handleApiKeyChange], [handleOpenaiKeyChange], and the [onChange] of
    the topic field. *)
Definition handleApiKeyChange (value : JS.str) (s : State) : State :=
  upd_ui (setApiKey (JS.trim value)) s.

Definition handleOpenaiKeyChange (value : JS.str) (s : State) : State :=
  upd_ui (setOpenaiKey (JS.trim value)) s.

Definition handleTopicChange (value : JS.str) (s : State) : State :=
  upd_ui (setTopic value) s.

(** The other listeners of the [<audio>] element. *)
Definition onCanPlay (s : State) : State := upd_ui (setAudioReady true) s.

Definition onLoadStart (s : State) : State := upd_ui (setAudioReady false) s.

Definition onError (s : State) : State :=
  upd_ui (setError (JS.lit "Audio playback error occurred")) s.

(** The playback controls are rendered when there are segments. *)
Definition controls_shown (c : Component) : bool :=
  match items (segments c) with [] => false | _ :: _ => true end.

(** What an event runs.  A button that is disabled or not rendered runs
    nothing; the listeners of the [<audio>] element run only while the
    element exists; a reply of the network is taken by the call that
    waits for it. *)
Definition handle (e : Event) (s : State) : State :=
  let c := ui s in
  match e with
  | ApiKeyChange v => handleApiKeyChange v s
  | OpenaiKeyChange v => handleOpenaiKeyChange v s
  | TopicChange v => handleTopicChange v s
  | ClickGenerate => if loading c then s else generatePodcast s
  | TranscriptReturns response_text w =>
      match inflight s with
      | Some (AwaitTranscript t k) => on_transcript t k response_text w s
      | _ => s
      end
  | TranscriptThrows message =>
      match inflight s with
      | Some (AwaitTranscript _ _) => fail message s
      | _ => s
      end
  | SpeechResponds ok status statusText objectUrl w =>
      match inflight s with
      | Some (AwaitSpeech t k content chunk rest segs) =>
          on_speech t k content chunk rest segs ok status statusText objectUrl w s
      | _ => s
      end
  | SpeechThrows message =>
      match inflight s with
      | Some (AwaitSpeech _ _ _ _ _ _) => fail message s
      | _ => s
      end
  | ClickHistory => upd_ui (setShowHistory (negb (showHistory c))) s
  | ClickHistoryItem i =>
      if showHistory c then
        match nth_error (podcastHistory c) i with
        | Some p => loadPodcastFromHistory p s
        | None => s
        end
      else s
  | ClickClearAll =>
      if showHistory c && negb (length (podcastHistory c) =? 0)
      then clearHistory s else s
  | ClickPlay readyState =>
      if controls_shown c && negb (negb (audioReady c) && (currentIdx c =? 0))
      then playCurrent readyState s else s
  | ClickPause => if controls_shown c then pauseCurrent s else s
  | ClickSkip =>
      if controls_shown c
         && negb (length (items (segments c)) <=? S (currentIdx c))
      then skipNext s else s
  | ClickSpeed speed => if controls_shown c then changePlaybackSpeed speed s else s
  | PlayRejected i =>
      if existsb (Nat.eqb i) (play_calls s)
      then upd_ui (setError (play_error i)) s else s
  | AudioEnded =>
      match audio s with Some _ => onEnded s | None => s end
  | AudioCanPlay =>
      match audio s with Some _ => onCanPlay s | None => s end
  | AudioLoadStart =>
      match audio s with Some _ => onLoadStart s | None => s end
  | AudioError =>
      match audio s with Some _ => onError s | None => s end
  end.

(** One event handled on the page as the state has it, and the render
    that follows. *)
Definition step (s : State) (e : Event) : State :=
  render (ui s) (handle e s).

Definition run (es : list Event) (s : State) : State := fold_left step es s.

(** The first render and the effect that loads the history; the keys
    are those found in [localStorage]. *)
Definition mount (geminiKey openaiApiKey : JS.str) (stored : Entry) : State :=
  loadPodcastHistory
    {| ui := {| apiKey := geminiKey; openaiKey := openaiApiKey; topic := [];
                transcript := []; segments := {| ref := 0; items := [] |};
                loading := false; error := []; currentIdx := 0;
                playbackSpeed := x1; showHistory := false;
                podcastHistory := []; audioReady := false |};
       inflight := None; storage := stored; audio := None; sink := [];
       requests := []; heap := 1; play_calls := [] |}.

(* ================================================================== *)
(** ** Definitions used in the statements *)

Definition LF : JS.str := [10%N].

Definition mkChunk (sp : Speaker) (t : JS.str) : Chunk :=
  {| speaker := sp; text := t |}.

(** No two neighbours in the list have the same speaker. *)
Fixpoint alternating (l : list Chunk) : Prop :=
  match l with
  | [] => True
  | a :: l' =>
      match l' with
      | [] => True
      | b :: _ => speaker a <> speaker b
      end /\ alternating l'
  end.

(** The reply to one speech request, and what the surroundings are when
    it arrives. *)
Record Reply := {
  reply_ok : bool;
  reply_status : N;
  reply_statusText : JS.str;
  reply_objectUrl : JS.str;
  reply_ambient : Ambient
}.

Definition reply_event (r : Reply) : Event :=
  SpeechResponds (reply_ok r) (reply_status r) (reply_statusText r)
    (reply_objectUrl r) (reply_ambient r).

(** Step 3 of [generatePodcast] run on the chunk list [chunks_]: the
    array [segs] is created, the loop is entered, and the replies arrive
    one after the other with nothing in between.  [w] is what surrounds
    the call when the loop is entered. *)
Definition synthesize (topic_ openaiKey_ content : JS.str)
    (chunks_ : list Chunk) (replies : list Reply) (w : Ambient) (s : State)
  : State :=
  let (segs, s1) := new_array [] s in
  run (map reply_event replies)
    (render (ui s) (tts_loop topic_ openaiKey_ content chunks_ segs w s1)).

(** The segment pushed for [chunk] when the reply is [r]. *)
Definition segment_of (r : Reply) (chunk : Chunk) : PodcastSegment.t :=
  {| PodcastSegment.url := reply_objectUrl r;
     PodcastSegment.speaker := speaker chunk;
     PodcastSegment.text := text chunk |}.

Fixpoint segments_of (replies : list Reply) (chunks_ : list Chunk)
  : list PodcastSegment.t :=
  match replies, chunks_ with
  | r :: replies', chunk :: chunks' =>
      segment_of r chunk :: segments_of replies' chunks'
  | _, _ => []
  end.

(** The request sent for a chunk. *)
Definition speech_request (openaiKey_ : JS.str) (chunk : Chunk) : Request :=
  Speech openaiKey_ (voice_of (speaker chunk)) (text chunk).

(** The podcasts held by the [podcast_history] entry. *)
Definition stored_history (e : Entry) : list StoredJson :=
  match e with
  | Json h => h
  | _ => []
  end.

(** The podcast that [savePodcastToHistory] creates, as it is stored. *)
Definition new_podcast (topic_ transcript_ : JS.str)
    (segs : Arr PodcastSegment.t) (w : Ambient) : StoredJson :=
  {| StoredPodcast.id := JS.of_Z (now_id w);
     StoredPodcast.topic := topic_;
     StoredPodcast.transcript := transcript_;
     StoredPodcast.segments := items segs;
     StoredPodcast.createdAt := now_createdAt w |}.

(** One call of [savePodcastToHistory]. *)
Record Save := {
  save_topic : JS.str;
  save_transcript : JS.str;
  save_segments : Arr PodcastSegment.t;
  save_ambient : Ambient
}.

Definition save_call (s : State) (c : Save) : State :=
  savePodcastToHistory (save_topic c) (save_transcript c) (save_segments c)
    (save_ambient c) s.

Definition saves (calls : list Save) (s : State) : State :=
  fold_left save_call calls s.

(** The podcast a call stores. *)
Definition saved (c : Save) : StoredJson :=
  new_podcast (save_topic c) (save_transcript c) (save_segments c)
    (save_ambient c).

(** The cap of the history holds in a state. *)
Definition history_capped (s : State) : Prop :=
  length (stored_history (storage s)) <= 10
  /\ length (podcastHistory (ui s)) <= 10.

(** [currentIdx] is an index of the installed list. *)
Definition index_valid (s : State) : Prop :=
  currentIdx (ui s) < length (items (segments (ui s))).

(** [currentIdx] is an index of the installed list, or the list is
    empty. *)
Definition index_ok (s : State) : Prop :=
  items (segments (ui s)) = [] \/ index_valid s.

(** The event is the successful reply to the request for the last chunk
    of the run in flight: the one after which [setSegments(segs)] runs. *)
Definition ends_run (s : State) (e : Event) : bool :=
  match inflight s, e with
  | Some (AwaitSpeech _ _ _ _ [] _), SpeechResponds true _ _ _ _ => true
  | _, _ => false
  end.

(** What an event sends to the [<audio>] element: the commands added to
    the log by the step. *)
Definition sent (s : State) (e : Event) : list SinkCmd :=
  skipn (length (sink s)) (sink (step s e)).

Definition is_ClickPlay (e : Event) : bool :=
  match e with ClickPlay _ => true | _ => false end.

(** Two clock readings and a reply used in the examples. *)
Definition at_time (t : Z) (can_store : bool) : Ambient :=
  {| now_id := t; now_createdAt := t; setItem_ok := can_store |}.

Definition ok_reply (u : String.string) (t : Z) : Reply :=
  {| reply_ok := true; reply_status := 200; reply_statusText := JS.lit "OK";
     reply_objectUrl := JS.lit u; reply_ambient := at_time t true |}.

Definition three_turns : JS.str :=
  JS.lit "Host: a" ++ LF ++ JS.lit "Guest: b" ++ LF ++ JS.lit "Host: c".

Definition two_host_lines : JS.str :=
  JS.lit "Host: a" ++ LF ++ JS.lit "Host: b".

(** A first podcast of three segments is generated and saved. *)
Definition first_run : list Event :=
  [ TopicChange (JS.lit "tea"); ClickGenerate;
    TranscriptReturns (Some three_turns) (at_time 1700000000000 true);
    reply_event (ok_reply "blob:1" 1700000000000);
    reply_event (ok_reply "blob:2" 1700000000000);
    reply_event (ok_reply "blob:3" 1700000000000) ].

(** While a second run waits for its transcript, the user opens the
    history, loads the first podcast and skips [n] times. *)
Definition load_and_skip (n : nat) : list Event :=
  [ TopicChange (JS.lit "jam"); ClickGenerate; ClickHistory;
    ClickHistoryItem 0 ] ++ repeat ClickSkip n.

(** The second run then ends with one segment ... *)
Definition short_second_run : list Event :=
  [ TranscriptReturns (Some (JS.lit "Host: hi")) (at_time 1700000060000 true);
    reply_event (ok_reply "blob:4" 1700000060000) ].

(** ... or with two. *)
Definition second_run : list Event :=
  [ TranscriptReturns (Some (JS.lit "Host: hi" ++ LF ++ JS.lit "Guest: yo"))
      (at_time 1700000060000 true);
    reply_event (ok_reply "blob:4" 1700000060000);
    reply_event (ok_reply "blob:5" 1700000060000) ].

Definition two_turns : JS.str := JS.lit "Host: hi" ++ LF ++ JS.lit "Guest: yo".

(** A successful reply that arrives when the storage is full. *)
Definition full_reply : Reply :=
  {| reply_ok := true; reply_status := 200; reply_statusText := JS.lit "OK";
     reply_objectUrl := JS.lit "blob:2"; reply_ambient := at_time 2 false |}.

(** A save of an empty podcast at the reading [t] of the clock. *)
Definition save_at (t : Z) : Save :=
  {| save_topic := JS.lit "tea"; save_transcript := [];
     save_segments := {| ref := 0; items := [] |};
     save_ambient := at_time t true |}.

Definition eleven_saves : list Save :=
  map save_at [1; 2; 3; 4; 5; 6; 7; 8; 9; 10; 11]%Z.

Definition same_reading_saves : list Save :=
  [save_at 1700000000000; save_at 1700000000000].

(** The second segment of the first podcast. *)
Definition second_segment : PodcastSegment.t :=
  {| PodcastSegment.url := JS.lit "blob:2";
     PodcastSegment.speaker := guest;
     PodcastSegment.text := JS.lit " b " |}.

Definition first_segment : PodcastSegment.t :=
  {| PodcastSegment.url := JS.lit "blob:1";
     PodcastSegment.speaker := host;
     PodcastSegment.text := JS.lit " a " |}.

Definition third_segment : PodcastSegment.t :=
  {| PodcastSegment.url := JS.lit "blob:3";
     PodcastSegment.speaker := host;
     PodcastSegment.text := JS.lit " c " |}.

(** The first podcast as the history holds it after [first_run]. *)
Definition first_podcast : Stored :=
  {| StoredPodcast.id := JS.of_Z 1700000000000;
     StoredPodcast.topic := JS.lit "tea";
     StoredPodcast.transcript := three_turns;
     StoredPodcast.segments :=
       {| ref := 2; items := [first_segment; second_segment; third_segment] |};
     StoredPodcast.createdAt := 1700000000000 |}.

Definition fresh_page : State := mount (JS.lit "g-key") (JS.lit "o-key") Absent.

(** The first podcast was generated, the user skipped once and opened
    the history. *)
Definition after_one_skip : State :=
  run (first_run ++ [ClickSkip; ClickHistory]) fresh_page.

(** The first podcast was generated, and a second run has sent the
    request for its first chunk. *)
Definition busy_page : State :=
  run (first_run
       ++ [TopicChange (JS.lit "jam"); ClickGenerate;
           TranscriptReturns (Some two_turns) (at_time 1700000060000 true)])
    fresh_page.

(** A reply of the network, as opposed to an event of the page. *)
Definition is_reply (e : Event) : bool :=
  match e with
  | TranscriptReturns _ _ | TranscriptThrows _
  | SpeechResponds _ _ _ _ _ | SpeechThrows _ => true
  | _ => false
  end.

(** What the loop keeps true of its variables: the chunks pushed so far
    alternate, and the last of them is not of the current speaker. *)
Definition splitter_inv (st : Splitter) : Prop :=
  alternating (chunks st)
  /\ forall l' a, chunks st = l' ++ [a] ->
       exists c, curr st = Some c /\ speaker a <> c.

(** Every reply is a success. *)
Definition all_ok (replies : list Reply) : Prop :=
  Forall (fun r => reply_ok r = true) replies.

(** A reply that is not a success. *)
Definition too_many_requests : Reply :=
  {| reply_ok := false; reply_status := 429;
     reply_statusText := JS.lit "Too Many Requests"; reply_objectUrl := [];
     reply_ambient := at_time 3 true |}.

(** The ids of the podcasts in the storage. *)
Definition stored_ids (s : State) : list JS.str :=
  map StoredPodcast.id (stored_history (storage s)).

(** The reading of the clock that gives a save its id. *)
Definition reading (c : Save) : Z := now_id (save_ambient c).

(* ================================================================== *)
(** ** More definitions used in the statements *)

(** The lines of a transcript: [content.split(/\n+/).filter(Boolean)]. *)
Definition lines_of (content : JS.str) : list JS.str :=
  filter JS.truthy (JS.split_lf content).

(** The lines put together again, one LF between two of them. *)
Fixpoint join_lf (lines : list JS.str) : JS.str :=
  match lines with
  | [] => []
  | l :: rest =>
      match rest with
      | [] => l
      | _ :: _ => l ++ LF ++ join_lf rest
      end
  end.

(** A text that can be a line: not empty, and without LF. *)
Definition is_line (l : JS.str) : Prop := l <> [] /\ ~ In 10%N l.

Section Turns.

Variable who_policy : JS.str -> option Speaker.

(** The speakers of the labelled lines, in the order of the lines. *)
Definition labels (lines : list JS.str) : list Speaker :=
  flat_map (fun l => match who_policy l with Some s => [s] | None => [] end)
    lines.

(** What a line adds to the buffer. *)
Definition piece (line : JS.str) : JS.str :=
  match who_policy line with
  | Some _ => strip_label line ++ [32%N]
  | None => line ++ [32%N]
  end.

(** Some line is labelled. *)
Definition has_label (lines : list JS.str) : bool :=
  existsb (fun l => match who_policy l with Some _ => true | None => false end)
    lines.

(** The lines from the first labelled one on. *)
Fixpoint from_first_label (lines : list JS.str) : list JS.str :=
  match lines with
  | [] => []
  | l :: rest =>
      match who_policy l with
      | Some _ => lines
      | None => from_first_label rest
      end
  end.

End Turns.

(** A list of speakers in which every speaker that repeats the one
    before is left out; [last] is the speaker before the list. *)
Fixpoint merge_from (last : option Speaker) (l : list Speaker)
  : list Speaker :=
  match l with
  | [] => []
  | a :: l' =>
      match last with
      | Some b =>
          if Speaker_eqb a b then merge_from last l'
          else a :: merge_from (Some a) l'
      | None => a :: merge_from (Some a) l'
      end
  end.

Definition merge_repeats (l : list Speaker) : list Speaker :=
  merge_from None l.

(** While a speaker is set the buffer is not empty. *)
Definition buffer_filled (st : Splitter) : Prop :=
  curr st <> None -> buf st <> [].

(** The podcast that [savePodcastToHistory] creates, as the component
    holds it: its [segments] is the array it was given. *)
Definition stored_podcast (topic_ transcript_ : JS.str)
    (segs : Arr PodcastSegment.t) (w : Ambient) : Stored :=
  {| StoredPodcast.id := JS.of_Z (now_id w);
     StoredPodcast.topic := topic_;
     StoredPodcast.transcript := transcript_;
     StoredPodcast.segments := segs;
     StoredPodcast.createdAt := now_createdAt w |}.

(** A save goes through: the text in the storage can be parsed and the
    write returns. *)
Definition save_succeeds (e : Entry) (w : Ambient) : bool :=
  match e with
  | Garbage => false
  | _ => setItem_ok w
  end.

(** The component at the end of a run that installs [segs]: the list,
    the history when the save went through ([olds] are the podcasts
    parsed from the storage), and the loading flag. *)
Definition component_after_run (c : Component) (topic_ content : JS.str)
    (segs : Arr PodcastSegment.t) (w : Ambient) (saved_ : bool)
    (olds : list Stored) : Component :=
  let c1 := setSegments segs c in
  let c2 :=
    if saved_
    then setPodcastHistory
           (firstn 10 (stored_podcast topic_ content segs w :: olds)) c1
    else c1 in
  setLoading false c2.

(** The storage after a save of [new]. *)
Definition storage_after_save (e : Entry) (new : StoredJson) (w : Ambient)
  : Entry :=
  if save_succeeds e w then Json (firstn 10 (new :: stored_history e)) else e.

(** The events of a run without anything in between: the click, the
    transcript, the replies. *)
Definition whole_run (content : JS.str) (w : Ambient) (replies : list Reply)
  : list Event :=
  ClickGenerate :: TranscriptReturns (Some content) w
  :: map reply_event replies.

(** The message of the first check of [generatePodcast] that fails. *)
Definition missing_input (c : Component) : JS.str :=
  if negb (JS.truthy (apiKey c)) then
    JS.lit "Please provide your Gemini API key."
  else if negb (JS.truthy (openaiKey c)) then
    JS.lit "Please provide your OpenAI API key for TTS."
  else JS.lit "Please enter a topic.".

(** All that is in a string is white space. *)
Definition blank (v : JS.str) : Prop := Forall (fun c => JS.is_space c = true) v.

(** Every number is at least the one after it. *)
Fixpoint descending (l : list Z) : Prop :=
  match l with
  | [] => True
  | a :: l' =>
      match l' with
      | [] => True
      | b :: _ => (b <= a)%Z
      end /\ descending l'
  end.

(** The events that can write the history: Clear All, and the reply
    that ends the run in flight, which is the successful reply to the
    request for the last chunk, or the transcript when it has no chunk. *)
Definition may_write (s : State) (e : Event) : bool :=
  match e with
  | ClickClearAll => true
  | TranscriptReturns response_text _ =>
      match inflight s with
      | Some (AwaitTranscript _ _) =>
          match splitBySpeaker
                  (match response_text with Some t => t | None => [] end)
          with
          | [] => true
          | _ :: _ => false
          end
      | _ => false
      end
  | SpeechResponds _ _ _ _ _ => ends_run s e
  | _ => false
  end.

(** The identities of the arrays of the history shown. *)
Definition history_refs (s : State) : list nat :=
  map (fun p => ref (StoredPodcast.segments p)) (podcastHistory (ui s)).

(** The array [segs] is not the installed one nor one of the history. *)
Definition apart (segs : Arr PodcastSegment.t) (s : State) : Prop :=
  ref segs < heap s
  /\ ref segs <> ref (segments (ui s))
  /\ ~ In (ref segs) (history_refs s).

(** The arrays of a state are told apart by their identities: every
    identity was given out by the counter, the arrays of the history
    have identities of their own, an array of the history that has the
    identity of the installed one has its elements, and the array of a
    run in flight is no other array of the state. *)
Definition coherent (s : State) : Prop :=
  ref (segments (ui s)) < heap s
  /\ Forall (fun r => r < heap s) (history_refs s)
  /\ NoDup (history_refs s)
  /\ (forall p, In p (podcastHistory (ui s)) ->
       ref (StoredPodcast.segments p) = ref (segments (ui s)) ->
       items (StoredPodcast.segments p) = items (segments (ui s)))
  /\ match inflight s with
     | Some (AwaitSpeech _ _ _ _ _ segs) => apart segs s
     | _ => True
     end.

(** The [<audio>] element exists exactly when there are segments, and
    the segment it holds is the current one whenever there is a current
    one. *)
Definition attached (s : State) : Prop :=
  match audio s with
  | Some a =>
      items (segments (ui s)) <> []
      /\ forall seg,
           nth_error (items (segments (ui s))) (currentIdx (ui s)) = Some seg ->
           src a = PodcastSegment.url seg
  | None => items (segments (ui s)) = []
  end.

(** A handler is a closure of the render that made it.  What it reads
    of the component ([currentIdx], [segments], [loading], ...) is what
    that render had, [shown]; what it writes goes to the state as it is,
    and [setCurrentIdx((i) => i + 1)] is the one update that reads the
    state as it is.  [audioRef], the storage and the local variables of a
    call in flight do not belong to a render.  A click is rendered as
    soon as its handler returns; what a reply of the network or a
    listener of the [<audio>] element sets is rendered later, and a
    click may be handled before that. *)

(** [skipNext], and [onEnded], of the render [shown]. *)
Definition skipNext_at (shown : Component) (s : State) : State :=
  if S (currentIdx shown) <? length (items (segments shown))
  then upd_ui (fun c => setCurrentIdx (S (currentIdx c)) c) s
  else s.

(** [playCurrent] of the render [shown]. *)
Definition playCurrent_at (shown : Component) (readyState : N) (s : State)
  : State :=
  match audio s with
  | None => s
  | Some a =>
      match nth_error (items (segments shown)) (currentIdx shown) with
      | None => s
      | Some currentSegment =>
          let s :=
            if negb (JS.eqb (src a) (PodcastSegment.url currentSegment))
            then set_audio (Some {| src := PodcastSegment.url currentSegment |})
                   (send [SetSrc (PodcastSegment.url currentSegment);
                          SetRate (playbackSpeed shown)] s)
            else s in
          let s :=
            if (currentIdx shown =? 0) && (readyState =? 0)%N
            then send [Load] s else s in
          note_play (currentIdx shown) (send [Play] s)
      end
  end.

(** [generatePodcast] of the render [shown], up to
    [await ai.models.generateContent]. *)
Definition generatePodcast_at (shown : Component) (s : State) : State :=
  let s := upd_ui (setError []) s in
  if negb (JS.truthy (apiKey shown)) then
    upd_ui (setError (JS.lit "Please provide your Gemini API key.")) s
  else if negb (JS.truthy (openaiKey shown)) then
    upd_ui (setError (JS.lit "Please provide your OpenAI API key for TTS.")) s
  else if negb (JS.truthy (topic shown)) then
    upd_ui (setError (JS.lit "Please enter a topic.")) s
  else
    let (empty, s) := new_array [] s in
    let s :=
      upd_ui (fun c =>
        setAudioReady false
          (setCurrentIdx 0
            (setSegments empty
              (setTranscript [] (setLoading true c))))) s in
    set_inflight (Some (AwaitTranscript (topic shown) (openaiKey shown)))
      (request (GenerateContent (apiKey shown) (topic shown)) s).

(** What an event runs when the page on the screen is the render
    [shown]: the buttons that exist and are enabled are those of that
    render, and so are the handlers. *)
Definition handle_at (shown : Component) (e : Event) (s : State) : State :=
  match e with
  | ApiKeyChange v => handleApiKeyChange v s
  | OpenaiKeyChange v => handleOpenaiKeyChange v s
  | TopicChange v => handleTopicChange v s
  | ClickGenerate => if loading shown then s else generatePodcast_at shown s
  | TranscriptReturns response_text w =>
      match inflight s with
      | Some (AwaitTranscript t k) => on_transcript t k response_text w s
      | _ => s
      end
  | TranscriptThrows message =>
      match inflight s with
      | Some (AwaitTranscript _ _) => fail message s
      | _ => s
      end
  | SpeechResponds ok status statusText objectUrl w =>
      match inflight s with
      | Some (AwaitSpeech t k content chunk rest segs) =>
          on_speech t k content chunk rest segs ok status statusText objectUrl w s
      | _ => s
      end
  | SpeechThrows message =>
      match inflight s with
      | Some (AwaitSpeech _ _ _ _ _ _) => fail message s
      | _ => s
      end
  | ClickHistory => upd_ui (setShowHistory (negb (showHistory shown))) s
  | ClickHistoryItem i =>
      if showHistory shown then
        match nth_error (podcastHistory shown) i with
        | Some p => loadPodcastFromHistory p s
        | None => s
        end
      else s
  | ClickClearAll =>
      if showHistory shown && negb (length (podcastHistory shown) =? 0)
      then clearHistory s else s
  | ClickPlay readyState =>
      if controls_shown shown
         && negb (negb (audioReady shown) && (currentIdx shown =? 0))
      then playCurrent_at shown readyState s else s
  | ClickPause => if controls_shown shown then pauseCurrent s else s
  | ClickSkip =>
      if controls_shown shown
         && negb (length (items (segments shown)) <=? S (currentIdx shown))
      then skipNext_at shown s else s
  | ClickSpeed speed =>
      if controls_shown shown then changePlaybackSpeed speed s else s
  | PlayRejected i =>
      if existsb (Nat.eqb i) (play_calls s)
      then upd_ui (setError (play_error i)) s else s
  | AudioEnded =>
      match audio s with Some _ => skipNext_at shown s | None => s end
  | AudioCanPlay =>
      match audio s with Some _ => onCanPlay s | None => s end
  | AudioLoadStart =>
      match audio s with Some _ => onLoadStart s | None => s end
  | AudioError =>
      match audio s with Some _ => onError s | None => s end
  end.

(** The first podcast was generated and the user skipped once: the
    second of three segments plays. *)
Definition second_of_three : State := run (first_run ++ [ClickSkip]) fresh_page.

(** The first podcast was loaded from the history while a second run,
    of one chunk, waits for the reply to its speech request. *)
Definition short_run_ending : State :=
  run (first_run ++ load_and_skip 0
       ++ [TranscriptReturns (Some (JS.lit "Host: hi"))
             (at_time 1700000060000 true)])
    fresh_page.

(** The fresh page after the topic was typed. *)
Definition tea_page : State := step fresh_page (TopicChange (JS.lit "tea")).

(** What surrounds the save at the end of a run: what came with the
    last reply, or with the transcript when there is no chunk. *)
Definition final_ambient (replies : list Reply) (w : Ambient) : Ambient :=
  last (map reply_ambient replies) w.

(* ================================================================== *)
(** ** Splitting by speaker: theorems *)

Lemma Speaker_eqb_false (a b : Speaker) : Speaker_eqb a b = false -> a <> b.
Proof. destruct a, b; simpl; congruence. Qed.

Lemma alternating_snoc (l : list Chunk) (x : Chunk) :
  alternating l ->
  (forall l' a, l = l' ++ [a] -> speaker a <> speaker x) ->
  alternating (l ++ [x]).
Proof.
  induction l as [|a l IH]; intros Halt Hlast.
  - simpl. auto.
  - destruct Halt as [Hhead Htail].
    change ((a :: l) ++ [x]) with (a :: (l ++ [x])).
    split.
    + destruct l as [|b l2]; simpl.
      * apply (Hlast [] a). reflexivity.
      * exact Hhead.
    + apply IH; [exact Htail|].
      intros l' a0 E. apply (Hlast (a :: l') a0). rewrite E. reflexivity.
Qed.

Section SplitInvariant.

Variable who_policy : JS.str -> option Speaker.
Variable keep_preamble : bool.

Lemma split_line_inv (st : Splitter) (line : JS.str) :
  splitter_inv st -> splitter_inv (split_line who_policy keep_preamble st line).
Proof.
  intros [Halt Hlast]. unfold split_line, splitter_inv.
  destruct (who_policy line) as [s|].
  - destruct (curr st) as [c|] eqn:Ec.
    + destruct (Speaker_eqb s c) eqn:Es; simpl.
      * assert (s = c) by (destruct s, c; simpl in Es; congruence). subst s.
        split; [exact Halt|]. intros l' a E.
        destruct (Hlast _ _ E) as [c' [Hc' Hne]].
        exists c. split; [reflexivity|]. congruence.
      * apply Speaker_eqb_false in Es. split.
        -- apply alternating_snoc; [exact Halt|].
           intros l' a E. destruct (Hlast _ _ E) as [c' [Hc' Hne]].
           simpl. congruence.
        -- intros l' a E. apply app_inj_tail in E. destruct E as [_ E].
           subst a. simpl. exists s. split; [reflexivity|]. congruence.
    + simpl. split; [exact Halt|]. intros l' a E.
      destruct (Hlast _ _ E) as [c' [Hc' _]]. congruence.
  - destruct (curr st) as [c|] eqn:Ec.
    + simpl. split; [exact Halt|]. intros l' a E.
      destruct (Hlast _ _ E) as [c' [Hc' Hne]]. exists c'. split; congruence.
    + destruct keep_preamble; simpl; [|rewrite Ec; split; assumption].
      split; [exact Halt|]. intros l' a E.
      destruct (Hlast _ _ E) as [c' [Hc' _]]. congruence.
Qed.

Lemma fold_split_line_inv (lines : list JS.str) (st : Splitter) :
  splitter_inv st ->
  splitter_inv (fold_left (split_line who_policy keep_preamble) lines st).
Proof.
  revert st. induction lines as [|line lines IH]; intros st H; simpl.
  - exact H.
  - apply IH. apply split_line_inv. exact H.
Qed.

Lemma split_finish_alternating (st : Splitter) :
  splitter_inv st -> alternating (split_finish st).
Proof.
  intros [Halt Hlast]. unfold split_finish.
  destruct (curr st) as [c|] eqn:Ec; [|exact Halt].
  destruct (JS.truthy (buf st)); [|exact Halt].
  apply alternating_snoc; [exact Halt|].
  intros l' a E. destruct (Hlast _ _ E) as [c' [Hc' Hne]]. simpl. congruence.
Qed.

Lemma split_by_speaker_alternating (content : JS.str) :
  alternating (split_by_speaker who_policy keep_preamble content).
Proof.
  unfold split_by_speaker, split_lines.
  apply split_finish_alternating. apply fold_split_line_inv.
  split; simpl; [exact I|].
  intros l' a E. destruct l'; discriminate E.
Qed.

End SplitInvariant.

Lemma after_label_Host (rest : JS.str) :
  after_label (Host_label ++ rest) = Some (JS.drop_while JS.is_space rest).
Proof. reflexivity. Qed.

Lemma after_label_Guest (rest : JS.str) :
  after_label (Guest_label ++ rest) = Some (JS.drop_while JS.is_space rest).
Proof. reflexivity. Qed.

(** C6: the transcript "Host: a\nGuest: b\nHost: c" is split into the
    three chunks (host, " a "), (guest, " b "), (host, " c "), in the
    order of the lines; and a line that starts with its label loses the
    label, the colon and the white space after it, which a single space
    replaces. *)
Theorem C6_three_turns :
  splitBySpeaker three_turns
  = [ mkChunk host (JS.lit " a "); mkChunk guest (JS.lit " b ");
      mkChunk host (JS.lit " c ") ]
  /\ (forall rest,
        strip_label (Host_label ++ rest)
        = 32%N :: JS.drop_while JS.is_space rest)
  /\ (forall rest,
        strip_label (Guest_label ++ rest)
        = 32%N :: JS.drop_while JS.is_space rest).
Proof.
  split; [reflexivity|].
  split; intro rest; unfold strip_label.
  - rewrite after_label_Host. reflexivity.
  - rewrite after_label_Guest. reflexivity.
Qed.

(** C7, as the claim states it: the two lines would give the one chunk
    (host, " a b ").  They do not. *)
Lemma C7_single_space_refuted :
  splitBySpeaker two_host_lines <> [ mkChunk host (JS.lit " a b ") ].
Proof. vm_compute. discriminate. Qed.

(** C7, amended: the transcript "Host: a\nHost: b" is split into the one
    chunk (host, " a  b "), with two spaces between a and b (each line
    brings the space that replaces its label and the space added after
    it); a labelled line of the current speaker adds to the buffer and
    pushes no chunk; and in every result no two neighbouring chunks have
    the same speaker. *)
Theorem C7_same_speaker_lines_merge :
  splitBySpeaker two_host_lines = [ mkChunk host (JS.lit " a  b ") ]
  /\ (forall st line s,
        who line = Some s -> curr st = Some s ->
        let st' := split_line who false st line in
        chunks st' = chunks st
        /\ curr st' = Some s
        /\ buf st' = buf st ++ strip_label line ++ [32%N])
  /\ (forall content, alternating (splitBySpeaker content)).
Proof.
  split; [reflexivity|]. split.
  - intros st line s Hw Hc. unfold split_line. rewrite Hw, Hc.
    assert (E : Speaker_eqb s s = true) by (destruct s; reflexivity).
    rewrite E. simpl. auto.
  - intro content. apply split_by_speaker_alternating.
Qed.

(** C9: there is a transcript that the two revisions split differently,
    and they do so whatever is done with lines that come before the first
    label: the difference is that of the two [who]. *)
Theorem C9_policies_disagree :
  exists content,
    splitBySpeaker content <> splitBySpeaker_v1 content
    /\ forall k k',
         split_by_speaker who k content <> split_by_speaker who_v1 k' content.
Proof.
  exists (JS.lit "Host: a" ++ LF ++ JS.lit "so Guest: b").
  split.
  - vm_compute. discriminate.
  - intros [|] [|]; vm_compute; discriminate.
Qed.

(* ================================================================== *)
(** ** What a render and a save leave alone *)

Lemma playback_effect_frame (s : State) :
  ui (playback_effect s) = ui s
  /\ inflight (playback_effect s) = inflight s
  /\ storage (playback_effect s) = storage s
  /\ requests (playback_effect s) = requests s
  /\ play_calls (playback_effect s) = play_calls s.
Proof.
  unfold playback_effect.
  destruct (audio s); [|auto].
  destruct (nth_error _ _); [|auto].
  destruct (currentIdx (ui s) =? 0); simpl; auto.
Qed.

Lemma render_frame (before : Component) (s : State) :
  ui (render before s) = ui s
  /\ inflight (render before s) = inflight s
  /\ storage (render before s) = storage s
  /\ requests (render before s) = requests s
  /\ play_calls (render before s) = play_calls s.
Proof.
  unfold render.
  set (s1 := match items (segments (ui s)) with
             | [] => set_audio None s
             | _ :: _ => match audio s with
                         | None => set_audio (Some {| src := [] |}) s
                         | Some _ => s
                         end
             end).
  assert (F : ui s1 = ui s /\ inflight s1 = inflight s /\ storage s1 = storage s
              /\ requests s1 = requests s /\ play_calls s1 = play_calls s).
  { unfold s1. destruct (items (segments (ui s))); [simpl; auto|].
    destruct (audio s); simpl; auto. }
  destruct F as (F1 & F2 & F3 & F4 & F5).
  destruct (deps_changed before (ui s1)).
  - destruct (playback_effect_frame s1) as (E1 & E2 & E3 & E4 & E5).
    repeat split; congruence.
  - repeat split; assumption.
Qed.

Lemma render_ui (before : Component) (s : State) : ui (render before s) = ui s.
Proof. apply render_frame. Qed.

(** [JSON.parse] after [JSON.stringify] gives the stored data back. *)
Lemma to_json_parse_from (h : list StoredJson) (r : nat) :
  map to_json (parse_from r h) = h.
Proof.
  revert r. induction h as [|p h IH]; intro r; simpl.
  - reflexivity.
  - rewrite IH. destruct p. reflexivity.
Qed.

Lemma parse_from_length (h : list StoredJson) (r : nat) :
  length (parse_from r h) = length h.
Proof.
  revert r. induction h as [|p h IH]; intro r; simpl; [reflexivity|].
  rewrite IH. reflexivity.
Qed.

(** A save touches the history, the storage and the counter of arrays,
    and nothing else. *)
Lemma save_frame (tp tr : JS.str) (segs : Arr PodcastSegment.t)
    (w : Ambient) (s : State) :
  let s' := savePodcastToHistory tp tr segs w s in
  segments (ui s') = segments (ui s)
  /\ error (ui s') = error (ui s)
  /\ loading (ui s') = loading (ui s)
  /\ currentIdx (ui s') = currentIdx (ui s)
  /\ transcript (ui s') = transcript (ui s)
  /\ inflight s' = inflight s
  /\ requests s' = requests s
  /\ sink s' = sink s
  /\ audio s' = audio s.
Proof.
  unfold savePodcastToHistory, parse.
  destruct (storage s); destruct (setItem_ok w); simpl; repeat split.
Qed.

(** What a save stores: the new podcast at the head, then the first ten
    entries; nothing when the text in the storage cannot be parsed or the
    write throws. *)
Lemma save_storage (tp tr : JS.str) (segs : Arr PodcastSegment.t)
    (w : Ambient) (s : State) :
  storage (savePodcastToHistory tp tr segs w s)
  = match storage s with
    | Garbage => Garbage
    | e => if setItem_ok w
           then Json (firstn 10 (new_podcast tp tr segs w :: stored_history e))
           else e
    end.
Proof.
  unfold savePodcastToHistory, parse.
  destruct (storage s) as [|h|] eqn:E; destruct (setItem_ok w);
    cbn -[firstn]; try reflexivity; try exact E.
  rewrite <- firstn_map. cbn [map]. rewrite to_json_parse_from. reflexivity.
Qed.

Lemma save_podcastHistory_length (tp tr : JS.str)
    (segs : Arr PodcastSegment.t) (w : Ambient) (s : State) :
  length (podcastHistory (ui s)) <= 10 ->
  length (podcastHistory (ui (savePodcastToHistory tp tr segs w s))) <= 10.
Proof.
  intro H. unfold savePodcastToHistory, parse.
  destruct (storage s) as [|h|]; destruct (setItem_ok w);
    cbn -[firstn]; try exact H; apply firstn_le_length.
Qed.

Lemma save_failed (tp tr : JS.str) (segs : Arr PodcastSegment.t)
    (w : Ambient) (s : State) :
  setItem_ok w = false ->
  ui (savePodcastToHistory tp tr segs w s) = ui s
  /\ storage (savePodcastToHistory tp tr segs w s) = storage s.
Proof.
  intro H. unfold savePodcastToHistory, parse. rewrite H.
  destruct (storage s) eqn:E; cbn; auto.
Qed.

(* ================================================================== *)
(** ** The synthesis loop *)

Lemma run_app (es es' : list Event) (s : State) :
  run (es ++ es') s = run es' (run es s).
Proof. unfold run. apply fold_left_app. Qed.

Lemma segments_of_length (replies : list Reply) (chunks_ : list Chunk) :
  length replies = length chunks_ ->
  length (segments_of replies chunks_) = length chunks_.
Proof.
  revert chunks_. induction replies as [|r replies IH];
    intros [|c chunks_] H; simpl in *; try discriminate; [reflexivity|].
  rewrite IH; [reflexivity|lia].
Qed.

Lemma segments_of_nth (replies : list Reply) (chunks_ : list Chunk)
    (i : nat) (seg : PodcastSegment.t) (chunk : Chunk) :
  nth_error (segments_of replies chunks_) i = Some seg ->
  nth_error chunks_ i = Some chunk ->
  PodcastSegment.speaker seg = speaker chunk
  /\ PodcastSegment.text seg = text chunk.
Proof.
  revert chunks_ i. induction replies as [|r replies IH];
    intros [|c chunks_] [|i] Hs Hc; simpl in *; try discriminate.
  - inversion Hs. inversion Hc. subst. split; reflexivity.
  - eapply IH; eassumption.
Qed.

Lemma segments_of_snoc (replies : list Reply) (chunks_ : list Chunk)
    (r : Reply) (chunk : Chunk) (rest : list Chunk) :
  skipn (length replies) chunks_ = chunk :: rest ->
  segments_of (replies ++ [r]) chunks_
  = segments_of replies chunks_ ++ [segment_of r chunk].
Proof.
  revert chunks_. induction replies as [|r0 replies IH];
    intros [|c chunks_] H; simpl in *; try discriminate.
  - inversion H. subst. destruct rest; reflexivity.
  - rewrite IH; [reflexivity|exact H].
Qed.

(** The state in which the loop is suspended after it was entered. *)
Lemma tts_loop_suspends (tp key content : JS.str) (chunk : Chunk)
    (rest : list Chunk) (segs : Arr PodcastSegment.t) (w : Ambient)
    (s : State) (before : Component) :
  let s' := render before (tts_loop tp key content (chunk :: rest) segs w s) in
  ui s' = ui s
  /\ storage s' = storage s
  /\ requests s' = requests s ++ [speech_request key chunk]
  /\ inflight s' = Some (AwaitSpeech tp key content chunk rest segs).
Proof.
  destruct (render_frame before
              (tts_loop tp key content (chunk :: rest) segs w s))
    as (E1 & E2 & E3 & E4 & _).
  cbv zeta. rewrite E1, E2, E3, E4. simpl. auto.
Qed.

(** A reply that is [ok] while the loop waits for it. *)
Lemma step_speech_ok (tp key content : JS.str) (chunk : Chunk)
    (rest : list Chunk) (segs : Arr PodcastSegment.t) (r : Reply) (s : State) :
  inflight s = Some (AwaitSpeech tp key content chunk rest segs) ->
  reply_ok r = true ->
  step s (reply_event r)
  = render (ui s)
      (tts_loop tp key content rest
         {| ref := ref segs; items := items segs ++ [segment_of r chunk] |}
         (reply_ambient r) s).
Proof.
  intros Hin Hok. unfold step, handle, reply_event. rewrite Hin.
  unfold on_speech. rewrite Hok. reflexivity.
Qed.

(** A reply that is not [ok] while the loop waits for it. *)
Lemma step_speech_not_ok (tp key content : JS.str) (chunk : Chunk)
    (rest : list Chunk) (segs : Arr PodcastSegment.t) (r : Reply) (s : State) :
  inflight s = Some (AwaitSpeech tp key content chunk rest segs) ->
  reply_ok r = false ->
  step s (reply_event r)
  = render (ui s) (fail (tts_error (reply_status r) (reply_statusText r)) s).
Proof.
  intros Hin Hok. unfold step, handle, reply_event. rewrite Hin.
  unfold on_speech. rewrite Hok. reflexivity.
Qed.

(** While fewer replies than chunks have arrived, and all were [ok]:
    the component is as it was when the loop was entered, one request
    went out for each chunk up to the one waited for, and the segments
    made so far are held by the suspended call only. *)
Lemma synthesis_in_progress (tp key content : JS.str) :
  forall (oks : list Reply) (chunks_ : list Chunk)
         (segs : Arr PodcastSegment.t) (w : Ambient) (s : State)
         (before : Component),
    length oks < length chunks_ ->
    all_ok oks ->
    let s' := run (map reply_event oks)
                (render before (tts_loop tp key content chunks_ segs w s)) in
    ui s' = ui s
    /\ storage s' = storage s
    /\ requests s'
       = requests s
         ++ map (speech_request key) (firstn (S (length oks)) chunks_)
    /\ exists chunk rest,
         skipn (length oks) chunks_ = chunk :: rest
         /\ inflight s'
            = Some (AwaitSpeech tp key content chunk rest
                      {| ref := ref segs;
                         items := items segs ++ segments_of oks chunks_ |}).
Proof.
  induction oks as [|r oks IH]; intros chunks_ segs w s before Hlen Hok.
  - destruct chunks_ as [|chunk rest]; [simpl in Hlen; lia|].
    destruct (tts_loop_suspends tp key content chunk rest segs w s before)
      as (E1 & E2 & E3 & E4).
    cbv zeta. change (run (map reply_event []) ?x) with x.
    repeat split; try assumption.
    exists chunk, rest. split; [reflexivity|].
    rewrite E4. simpl. rewrite app_nil_r. destruct segs. reflexivity.
  - destruct chunks_ as [|chunk rest]; [simpl in Hlen; lia|].
    simpl in Hlen. inversion Hok as [|r' oks' Hr Hoks]; subst.
    destruct (tts_loop_suspends tp key content chunk rest segs w s before)
      as (E1 & E2 & E3 & E4).
    cbv zeta. change (map reply_event (r :: oks))
      with (reply_event r :: map reply_event oks).
    change (run (?e :: ?es) ?x) with (run es (step x e)).
    rewrite (step_speech_ok tp key content chunk rest segs r _ E4 Hr).
    destruct (IH rest
                {| ref := ref segs; items := items segs ++ [segment_of r chunk] |}
                (reply_ambient r)
                (render before (tts_loop tp key content (chunk :: rest) segs w s))
                (ui (render before
                       (tts_loop tp key content (chunk :: rest) segs w s))))
      as (I1 & I2 & I3 & chunk' & rest' & I4 & I5); [lia|exact Hoks|].
    split; [congruence|]. split; [congruence|]. split.
    + rewrite I3, E3. rewrite <- app_assoc. reflexivity.
    + exists chunk', rest'. split; [exact I4|].
      rewrite I5. simpl. rewrite <- app_assoc. reflexivity.
Qed.

(** The last reply, [ok]: the segments are installed and saved, and the
    call ends. *)
Lemma step_last_reply (tp key content : JS.str) (chunk : Chunk)
    (segs : Arr PodcastSegment.t) (r : Reply) (s : State) :
  inflight s = Some (AwaitSpeech tp key content chunk [] segs) ->
  reply_ok r = true ->
  let segs' := {| ref := ref segs; items := items segs ++ [segment_of r chunk] |} in
  let s' := step s (reply_event r) in
  segments (ui s') = segs'
  /\ error (ui s') = error (ui s)
  /\ currentIdx (ui s') = currentIdx (ui s)
  /\ loading (ui s') = false
  /\ inflight s' = None
  /\ requests s' = requests s
  /\ storage s'
     = storage (savePodcastToHistory tp content segs' (reply_ambient r) s)
  /\ podcastHistory (ui s')
     = podcastHistory (ui (savePodcastToHistory tp content segs' (reply_ambient r) s)).
Proof.
  intros Hin Hok. cbv zeta.
  rewrite (step_speech_ok tp key content chunk [] segs r s Hin Hok).
  set (segs' := {| ref := ref segs; items := items segs ++ [segment_of r chunk] |}).
  destruct (render_frame (ui s)
              (tts_loop tp key content [] segs' (reply_ambient r) s))
    as (E1 & E2 & E3 & E4 & _).
  rewrite E1, E2, E3, E4. unfold tts_loop, finish.
  unfold savePodcastToHistory, parse.
  destruct (storage s) eqn:Es; destruct (setItem_ok (reply_ambient r)) eqn:Ew;
    repeat (cbn -[firstn]; rewrite ?Es, ?Ew); repeat split; reflexivity.
Qed.

Lemma Arr_eta (a : Arr PodcastSegment.t) :
  {| ref := ref a; items := items a ++ [] |} = a.
Proof. destruct a. simpl. rewrite app_nil_r. reflexivity. Qed.

Lemma all_ok_app (l l' : list Reply) :
  all_ok (l ++ l') -> all_ok l /\ all_ok l'.
Proof. unfold all_ok. apply Forall_app. Qed.

(** The loop run to its end: every reply [ok], one for each chunk. *)
Lemma synthesis_completes (tp key content : JS.str)
    (chunks_ : list Chunk) (replies : list Reply)
    (segs : Arr PodcastSegment.t) (w : Ambient) (s : State)
    (before : Component) :
  length replies = length chunks_ ->
  all_ok replies ->
  let s' := run (map reply_event replies)
              (render before (tts_loop tp key content chunks_ segs w s)) in
  segments (ui s')
  = {| ref := ref segs; items := items segs ++ segments_of replies chunks_ |}
  /\ error (ui s') = error (ui s)
  /\ currentIdx (ui s') = currentIdx (ui s)
  /\ loading (ui s') = false
  /\ inflight s' = None
  /\ requests s' = requests s ++ map (speech_request key) chunks_
  /\ (setItem_ok (last (map reply_ambient replies) w) = false ->
      storage s' = storage s
      /\ podcastHistory (ui s') = podcastHistory (ui s)).
Proof.
  intros Hlen Hok. cbv zeta.
  destruct replies as [|r oks _] using rev_ind.
  - (* no chunk: the loop ends at once *)
    destruct chunks_; [|discriminate Hlen].
    change (run (map reply_event []) ?x) with x.
    destruct (render_frame before (tts_loop tp key content [] segs w s))
      as (E1 & E2 & E3 & E4 & _).
    rewrite E1, E2, E3, E4. unfold tts_loop, finish.
    cbn [segments_of map last]. rewrite Arr_eta, !app_nil_r.
    unfold savePodcastToHistory, parse.
    destruct (storage s) eqn:Es; destruct (setItem_ok w) eqn:Ew;
      repeat (cbn -[firstn]; rewrite ?Es, ?Ew);
      repeat split; try reflexivity; try discriminate; intros _; reflexivity.
  - (* the replies before the last leave the loop suspended *)
    apply all_ok_app in Hok. destruct Hok as [Hoks Hr].
    inversion Hr as [|r' l' Hr' _]; subst.
    rewrite length_app in Hlen. simpl in Hlen.
    destruct (synthesis_in_progress tp key content oks chunks_ segs w s before)
      as (I1 & I2 & I3 & chunk & rest & I4 & I5); [lia|exact Hoks|].
    assert (rest = []).
    { assert (L : length (skipn (length oks) chunks_) = 1)
        by (rewrite length_skipn; lia).
      rewrite I4 in L. destruct rest; [reflexivity|discriminate L]. }
    subst rest.
    revert I1 I2 I3 I5.
    rewrite map_app, run_app. cbn [map].
    change (run [?e] ?x) with (step x e).
    set (Y := run (map reply_event oks)
                (render before (tts_loop tp key content chunks_ segs w s))).
    intros I1 I2 I3 I5.
    destruct (step_last_reply tp key content chunk _ r Y I5 Hr')
      as (S1 & S2 & S3 & S4 & S5 & S6 & S7 & S8).
    cbn [ref items] in S1, S7, S8.
    assert (F : firstn (S (length oks)) chunks_ = chunks_)
      by (apply firstn_all2; lia).
    rewrite F in I3.
    rewrite map_app. cbn [map]. rewrite last_last.
    split.
    { rewrite S1, (segments_of_snoc oks chunks_ r chunk [] I4), <- app_assoc.
      reflexivity. }
    split; [congruence|]. split; [congruence|]. split; [exact S4|].
    split; [exact S5|]. split; [congruence|].
    intro Hw.
    destruct (save_failed tp content
                {| ref := ref segs;
                   items := (items segs ++ segments_of oks chunks_)
                            ++ [segment_of r chunk] |}
                (reply_ambient r) Y Hw) as [F1 F2].
    split; congruence.
Qed.

Lemma synthesize_unfold (tp key content : JS.str) (chunks_ : list Chunk)
    (replies : list Reply) (w : Ambient) (s : State) :
  synthesize tp key content chunks_ replies w s
  = run (map reply_event replies)
      (render (ui s)
         (tts_loop tp key content chunks_ {| ref := heap s; items := [] |} w
            (set_heap (S (heap s)) s))).
Proof. reflexivity. Qed.

(** C1: when every reply of the speech service is a success, and there
    is one for each chunk, the run ends with a segment list installed
    that has the length of the chunk list and, at every index, the
    speaker and the text of the chunk at that index. *)
Theorem C1_one_segment_per_chunk :
  forall (tp key content : JS.str) (chunks_ : list Chunk)
         (replies : list Reply) (w : Ambient) (s : State),
    length replies = length chunks_ ->
    all_ok replies ->
    let s' := synthesize tp key content chunks_ replies w s in
    let segs := items (segments (ui s')) in
    length segs = length chunks_
    /\ (forall i seg chunk,
          nth_error segs i = Some seg ->
          nth_error chunks_ i = Some chunk ->
          PodcastSegment.speaker seg = speaker chunk
          /\ PodcastSegment.text seg = text chunk)
    /\ segs = segments_of replies chunks_
    /\ inflight s' = None
    /\ loading (ui s') = false.
Proof.
  intros tp key content chunks_ replies w s Hlen Hok. cbv zeta.
  rewrite synthesize_unfold.
  destruct (synthesis_completes tp key content chunks_ replies
              {| ref := heap s; items := [] |} w (set_heap (S (heap s)) s)
              (ui s) Hlen Hok)
    as (E1 & _ & _ & E4 & E5 & _).
  rewrite E1, E4, E5. cbn [items app].
  split; [apply segments_of_length; exact Hlen|].
  split; [|auto].
  intros i seg chunk. apply segments_of_nth.
Qed.

Lemma C1_witness :
  (length [ok_reply "blob:1" 1; ok_reply "blob:2" 2]
   = length [mkChunk host (JS.lit " a "); mkChunk guest (JS.lit " b ")]
   /\ all_ok [ok_reply "blob:1" 1; ok_reply "blob:2" 2])
  /\ items (segments (ui (synthesize (JS.lit "tea") (JS.lit "o-key") []
              [mkChunk host (JS.lit " a "); mkChunk guest (JS.lit " b ")]
              [ok_reply "blob:1" 1; ok_reply "blob:2" 2]
              (at_time 0 true) fresh_page)))
     = [ {| PodcastSegment.url := JS.lit "blob:1";
            PodcastSegment.speaker := host;
            PodcastSegment.text := JS.lit " a " |};
         {| PodcastSegment.url := JS.lit "blob:2";
            PodcastSegment.speaker := guest;
            PodcastSegment.text := JS.lit " b " |} ].
Proof.
  split.
  - split; [reflexivity|repeat constructor].
  - apply (C1_one_segment_per_chunk (JS.lit "tea") (JS.lit "o-key") []
             [mkChunk host (JS.lit " a "); mkChunk guest (JS.lit " b ")]
             [ok_reply "blob:1" 1; ok_reply "blob:2" 2]
             (at_time 0 true) fresh_page);
      [reflexivity|repeat constructor].
Defined.

Lemma digits_inj (d d' : Decimal.uint) : JS.digits d = JS.digits d' -> d = d'.
Proof.
  revert d'. induction d; destruct d'; simpl; intro H;
    try discriminate H; try reflexivity;
    inversion H as [H']; f_equal; apply IHd; exact H'.
Qed.

Lemma digits_no_space (d : Decimal.uint) : ~ In 32%N (JS.digits d).
Proof.
  induction d; simpl; intro H; try exact H;
    destruct H as [H|H]; try discriminate H; exact (IHd H).
Qed.

(** Where the first space of a text is tells its two parts. *)
Lemma split_at_space (l1 l2 t1 t2 : JS.str) :
  ~ In 32%N l1 -> ~ In 32%N l2 ->
  l1 ++ 32%N :: t1 = l2 ++ 32%N :: t2 -> l1 = l2 /\ t1 = t2.
Proof.
  revert l2. induction l1 as [|a l1 IH]; intros [|b l2] N1 N2 E; cbn in E.
  - inversion E. split; reflexivity.
  - inversion E as [[Eb Et]]. exfalso. apply N2. left. symmetry. exact Eb.
  - inversion E as [[Ea Et]]. exfalso. apply N1. left. exact Ea.
  - inversion E as [[Ea Et]].
    destruct (IH l2) as (E1 & E2);
      [intro K; apply N1; right; exact K
      |intro K; apply N2; right; exact K
      |exact Et|].
    subst. split; reflexivity.
Qed.

(** The message of a failed speech request tells its status and its
    status text. *)
Lemma tts_error_inj (a b : N) (t t' : JS.str) :
  tts_error a t = tts_error b t' -> a = b /\ t = t'.
Proof.
  unfold tts_error. intro E.
  apply app_inv_head in E. apply app_inv_head in E.
  apply split_at_space in E;
    [|apply digits_no_space|apply digits_no_space].
  destruct E as (E1 & E2). split; [|exact E2].
  apply DecimalN.Unsigned.to_uint_inj. apply digits_inj. exact E1.
Qed.

(** C2: when the reply to one speech request is not a success, after
    replies that were, the run ends at that reply: the error is "TTS API",
    an arrow, the status of the reply in decimal and its status text, so
    that the status and the text of the reply can be read off the
    message; the loading flag is off, nothing was installed (at that
    reply or at any reply before it), nothing was saved, and the requests
    that went out are one for each chunk up to that of the failed reply,
    which is asked for once. *)
Theorem C2_failure_aborts_synthesis :
  forall (tp key content : JS.str) (chunks_ : list Chunk)
         (oks : list Reply) (bad : Reply) (w : Ambient) (s : State),
    length oks < length chunks_ ->
    all_ok oks ->
    reply_ok bad = false ->
    let s' := synthesize tp key content chunks_ (oks ++ [bad]) w s in
    error (ui s')
    = JS.lit "TTS API " ++ [8594%N; 32%N] ++ JS.of_N (reply_status bad)
      ++ [32%N] ++ reply_statusText bad
    /\ (forall bad' : Reply,
          reply_ok bad' = false ->
          error (ui (synthesize tp key content chunks_ (oks ++ [bad']) w s))
          = error (ui s') ->
          reply_status bad' = reply_status bad
          /\ reply_statusText bad' = reply_statusText bad)
    /\ loading (ui s') = false
    /\ inflight s' = None
    /\ (forall n,
          segments (ui (synthesize tp key content chunks_
                          (firstn n (oks ++ [bad])) w s))
          = segments (ui s))
    /\ storage s' = storage s
    /\ podcastHistory (ui s') = podcastHistory (ui s)
    /\ requests s'
       = requests s
         ++ map (speech_request key) (firstn (S (length oks)) chunks_).
Proof.
  intros tp key content chunks_ oks bad w s Hlen Hok Hbad. cbv zeta.
  assert (P : forall l, length l < length chunks_ -> all_ok l ->
            ui (synthesize tp key content chunks_ l w s) = ui s).
  { intros l Hl Hokl. rewrite synthesize_unfold.
    destruct (synthesis_in_progress tp key content l chunks_
                {| ref := heap s; items := [] |} w (set_heap (S (heap s)) s)
                (ui s) Hl Hokl) as (I1 & _).
    rewrite I1. reflexivity. }
  assert (Err : forall b : Reply,
            reply_ok b = false ->
            error (ui (synthesize tp key content chunks_ (oks ++ [b]) w s))
            = tts_error (reply_status b) (reply_statusText b)).
  { intros b Hb. rewrite synthesize_unfold, map_app, run_app. cbn [map].
    change (run [?e] ?x) with (step x e).
    destruct (synthesis_in_progress tp key content oks chunks_
                {| ref := heap s; items := [] |} w (set_heap (S (heap s)) s)
                (ui s) Hlen Hok)
      as (_ & _ & _ & chunk & rest & _ & I5).
    rewrite (step_speech_not_ok _ _ _ _ _ _ b _ I5 Hb).
    rewrite render_ui. reflexivity. }
  split; [rewrite (Err bad Hbad); reflexivity|].
  split.
  { intros bad' Hb' E. rewrite (Err bad' Hb'), (Err bad Hbad) in E.
    apply tts_error_inj in E. exact E. }
  rewrite !synthesize_unfold, map_app, run_app. cbn [map].
  change (run [?e] ?x) with (step x e).
  destruct (synthesis_in_progress tp key content oks chunks_
              {| ref := heap s; items := [] |} w (set_heap (S (heap s)) s)
              (ui s) Hlen Hok)
    as (I1 & I2 & I3 & chunk & rest & I4 & I5).
  set (Y := run (map reply_event oks) _) in *.
  assert (F : step Y (reply_event bad)
              = render (ui Y)
                  (fail (tts_error (reply_status bad) (reply_statusText bad)) Y))
    by (eapply step_speech_not_ok; eassumption).
  destruct (render_frame (ui Y)
              (fail (tts_error (reply_status bad) (reply_statusText bad)) Y))
    as (E1 & E2 & E3 & E4 & _).
  assert (Q : segments (ui (step Y (reply_event bad))) = segments (ui s)).
  { rewrite F, E1. cbn. rewrite I1. reflexivity. }
  rewrite F, E1, E2, E3, E4. cbn.
  repeat split; try reflexivity; try (rewrite ?I1, ?I2, ?I3; reflexivity).
  intro n. destruct (le_lt_dec n (length oks)) as [Hn|Hn].
  - rewrite firstn_app.
    replace (n - length oks) with 0 by lia. cbn [firstn]. rewrite app_nil_r.
    rewrite <- synthesize_unfold, P; [reflexivity| |].
    + assert (L := firstn_le_length n oks). lia.
    + rewrite <- (firstn_skipn n oks) in Hok. apply all_ok_app in Hok.
      apply Hok.
  - rewrite firstn_all2 by (rewrite length_app; simpl; lia).
    rewrite map_app, run_app. cbn [map].
    change (run [?e] ?x) with (step x e). exact Q.
Qed.

Lemma C2_witness :
  (1 < length (splitBySpeaker three_turns)
   /\ all_ok [ok_reply "blob:1" 1]
   /\ reply_ok too_many_requests = false)
  /\ error (ui (synthesize (JS.lit "tea") (JS.lit "o-key") three_turns
                  (splitBySpeaker three_turns)
                  ([ok_reply "blob:1" 1] ++ [too_many_requests])
                  (at_time 0 true) fresh_page))
     = JS.lit "TTS API " ++ [8594%N] ++ JS.lit " 429 Too Many Requests".
Proof.
  split.
  - split; [vm_compute; lia|]. split; [repeat constructor|reflexivity].
  - apply (C2_failure_aborts_synthesis (JS.lit "tea") (JS.lit "o-key")
             three_turns (splitBySpeaker three_turns)
             [ok_reply "blob:1" 1] too_many_requests (at_time 0 true)
             fresh_page);
      [vm_compute; lia|repeat constructor|reflexivity].
Defined.

(** C10: when the write to the storage throws at the end of a run whose
    replies were all successes, the segments are installed all the same,
    the error message of the component is the one it had, the loading
    flag is off and the call has ended; the storage and the history shown
    are as before. *)
Theorem C10_failed_save_is_suppressed :
  forall (tp key content : JS.str) (chunks_ : list Chunk)
         (replies : list Reply) (w : Ambient) (s : State),
    length replies = length chunks_ ->
    all_ok replies ->
    setItem_ok (last (map reply_ambient replies) w) = false ->
    let s' := synthesize tp key content chunks_ replies w s in
    items (segments (ui s')) = segments_of replies chunks_
    /\ error (ui s') = error (ui s)
    /\ loading (ui s') = false
    /\ inflight s' = None
    /\ storage s' = storage s
    /\ podcastHistory (ui s') = podcastHistory (ui s).
Proof.
  intros tp key content chunks_ replies w s Hlen Hok Hw. cbv zeta.
  rewrite synthesize_unfold.
  destruct (synthesis_completes tp key content chunks_ replies
              {| ref := heap s; items := [] |} w (set_heap (S (heap s)) s)
              (ui s) Hlen Hok)
    as (E1 & E2 & _ & E4 & E5 & _ & E7).
  destruct (E7 Hw) as [E8 E9].
  rewrite E1, E2, E4, E5, E8, E9. cbn. repeat split; reflexivity.
Qed.

Lemma C10_witness :
  (length [ok_reply "blob:1" 1; full_reply] = length (splitBySpeaker two_turns)
   /\ all_ok [ok_reply "blob:1" 1; full_reply]
   /\ setItem_ok (last (map reply_ambient [ok_reply "blob:1" 1; full_reply])
                    (at_time 0 true)) = false)
  /\ items (segments (ui (synthesize (JS.lit "tea") (JS.lit "o-key") two_turns
                            (splitBySpeaker two_turns)
                            [ok_reply "blob:1" 1; full_reply]
                            (at_time 0 true) fresh_page)))
     = [ {| PodcastSegment.url := JS.lit "blob:1";
            PodcastSegment.speaker := host;
            PodcastSegment.text := JS.lit " hi " |};
         {| PodcastSegment.url := JS.lit "blob:2";
            PodcastSegment.speaker := guest;
            PodcastSegment.text := JS.lit " yo " |} ].
Proof.
  split.
  - split; [reflexivity|]. split; [repeat constructor|reflexivity].
  - apply (C10_failed_save_is_suppressed (JS.lit "tea") (JS.lit "o-key")
             two_turns (splitBySpeaker two_turns)
             [ok_reply "blob:1" 1; full_reply] (at_time 0 true) fresh_page);
      [reflexivity|repeat constructor|reflexivity].
Defined.

(* ================================================================== *)
(** ** The history store: theorems *)

Lemma insert_desc_length (x : Stored) (l : list Stored) :
  length (insert_desc x l) = S (length l).
Proof.
  induction l as [|y l IH]; simpl; [reflexivity|].
  destruct (StoredPodcast.createdAt y <=? StoredPodcast.createdAt x)%Z;
    simpl; [reflexivity|]. rewrite IH. reflexivity.
Qed.

Lemma sort_desc_length (l : list Stored) : length (sort_desc l) = length l.
Proof.
  induction l as [|x l IH]; simpl; [reflexivity|].
  rewrite insert_desc_length, IH. reflexivity.
Qed.

Lemma save_capped (tp tr : JS.str) (segs : Arr PodcastSegment.t)
    (w : Ambient) (s : State) :
  history_capped s -> history_capped (savePodcastToHistory tp tr segs w s).
Proof.
  intros [H1 H2]. split.
  - rewrite save_storage.
    destruct (storage s); destruct (setItem_ok w);
      cbn -[firstn]; try exact H1; try apply firstn_le_length; lia.
  - apply save_podcastHistory_length. exact H2.
Qed.

Lemma tts_loop_capped (tp key content : JS.str) (chunks_ : list Chunk)
    (segs : Arr PodcastSegment.t) (w : Ambient) (s : State) :
  history_capped s -> history_capped (tts_loop tp key content chunks_ segs w s).
Proof.
  intro H. destruct chunks_ as [|chunk rest]; cbn [tts_loop].
  - assert (C : history_capped
                  (savePodcastToHistory tp content segs w
                     (upd_ui (setSegments segs) s)))
      by (apply save_capped; exact H).
    exact C.
  - exact H.
Qed.

Lemma generatePodcast_history (s : State) :
  storage (generatePodcast s) = storage s
  /\ podcastHistory (ui (generatePodcast s)) = podcastHistory (ui s).
Proof.
  unfold generatePodcast. cbn.
  destruct (JS.truthy (apiKey (ui s))); cbn; [|auto].
  destruct (JS.truthy (openaiKey (ui s))); cbn; [|auto].
  destruct (JS.truthy (topic (ui s))); cbn; auto.
Qed.

Lemma playCurrent_history (readyState : N) (s : State) :
  storage (playCurrent readyState s) = storage s
  /\ podcastHistory (ui (playCurrent readyState s)) = podcastHistory (ui s).
Proof.
  unfold playCurrent.
  destruct (audio s); [|auto].
  destruct (nth_error _ _); [|auto].
  destruct (negb _); destruct (_ && _); cbn; auto.
Qed.

(** Every step keeps the cap. *)
Lemma step_capped (s : State) (e : Event) :
  history_capped s -> history_capped (step s e).
Proof.
  intro H. unfold step.
  assert (K : history_capped (handle e s)).
  { destruct e; cbn [handle]; try exact H.
    - destruct (loading (ui s)); [exact H|].
      destruct (generatePodcast_history s) as [E1 E2].
      destruct H as [H1 H2]. split; congruence.
    - destruct (inflight s) as [[t k|]|]; try exact H.
      unfold on_transcript, new_array. apply tts_loop_capped. exact H.
    - destruct (inflight s) as [[t k|]|]; exact H.
    - destruct (inflight s) as [[|t k c chunk rest segs]|]; try exact H.
      unfold on_speech. destruct (negb ok); [exact H|].
      apply tts_loop_capped. exact H.
    - destruct (inflight s) as [[|]|]; exact H.
    - destruct (showHistory (ui s)); [|exact H].
      destruct (nth_error _ _); exact H.
    - destruct (_ && _); [|exact H]. split; cbn; lia.
    - destruct (_ && _); [|exact H].
      destruct (playCurrent_history readyState s) as [E1 E2].
      destruct H as [H1 H2]. split; congruence.
    - destruct (controls_shown (ui s)); [|exact H].
      unfold pauseCurrent. destruct (audio s); exact H.
    - destruct (_ && _); [|exact H].
      unfold skipNext. destruct (_ <? _); exact H.
    - destruct (controls_shown (ui s)); [|exact H].
      unfold changePlaybackSpeed. cbn. destruct (audio s); exact H.
    - destruct (existsb _ _); exact H.
    - destruct (audio s); [|exact H].
      unfold onEnded, skipNext. destruct (_ <? _); exact H.
    - destruct (audio s); exact H.
    - destruct (audio s); exact H.
    - destruct (audio s); exact H. }
  destruct (render_frame (ui s) (handle e s)) as (E1 & _ & E3 & _).
  destruct K as [K1 K2]. split; congruence.
Qed.

Lemma run_capped (es : list Event) (s : State) :
  history_capped s -> history_capped (run es s).
Proof.
  revert s. induction es as [|e es IH]; intros s H; [exact H|].
  apply IH. apply step_capped. exact H.
Qed.

Lemma mount_capped (k1 k2 : JS.str) (stored : Entry) :
  length (stored_history stored) <= 10 -> history_capped (mount k1 k2 stored).
Proof.
  intro H. unfold mount, loadPodcastHistory, parse.
  destruct stored as [|h|]; cbn; split; cbn; try lia.
  - exact H.
  - rewrite sort_desc_length, parse_from_length. exact H.
Qed.

Lemma firstn_app_firstn {A : Type} (n : nat) (l l' : list A) :
  firstn n (l ++ firstn n l') = firstn n (l ++ l').
Proof.
  rewrite !firstn_app, firstn_firstn.
  replace (Nat.min (n - length l) n) with (n - length l) by lia.
  reflexivity.
Qed.

(** From a storage that can be parsed, saves that all succeed leave the
    first ten of: the podcasts saved, the last one first, then what was
    stored. *)
Lemma saves_stored (calls : list Save) :
  forall s,
    storage s <> Garbage ->
    Forall (fun c => setItem_ok (save_ambient c) = true) calls ->
    storage (saves calls s)
    = match calls with
      | [] => storage s
      | _ :: _ =>
          Json (firstn 10 (rev (map saved calls) ++ stored_history (storage s)))
      end.
Proof.
  induction calls as [|c calls IH]; intros s Hs Hok; [reflexivity|].
  inversion Hok as [|c' l' Hc Hcalls]; subst.
  change (saves (c :: calls) s) with (saves calls (save_call s c)).
  assert (E : storage (save_call s c)
              = Json (firstn 10 (saved c :: stored_history (storage s)))).
  { unfold save_call. rewrite save_storage, Hc.
    destruct (storage s); [reflexivity|reflexivity|contradiction]. }
  rewrite IH; [|rewrite E; discriminate|exact Hcalls].
  rewrite E. cbn [map rev stored_history].
  destruct calls as [|c2 calls]; [reflexivity|].
  rewrite firstn_app_firstn, <- app_assoc. reflexivity.
Qed.

(** C3: the stored history and the history shown never hold more than
    ten podcasts, in any state the page reaches from a storage that
    holds at most ten; a save that succeeds stores the new podcast at
    the head of what was stored and keeps the first ten, so that on a
    full history of ten the result is the new podcast followed by the
    former list without its last entry, ten in all; and after any
    number of successful saves from an empty storage the storage holds
    the last ten podcasts saved, the newest first. *)
Theorem C3_history_keeps_ten_newest :
  (forall es k1 k2 stored,
      length (stored_history stored) <= 10 ->
      history_capped (run es (mount k1 k2 stored)))
  /\ (forall tp tr segs w s,
        storage s <> Garbage ->
        setItem_ok w = true ->
        let h := stored_history (storage s) in
        let s' := savePodcastToHistory tp tr segs w s in
        let h' := stored_history (storage s') in
        h' = firstn 10 (new_podcast tp tr segs w :: h)
        /\ map to_json (podcastHistory (ui s')) = h'
        /\ (length h = 10 ->
            h' = new_podcast tp tr segs w :: removelast h
            /\ length h' = 10))
  /\ (forall calls s,
        storage s = Absent ->
        Forall (fun c => setItem_ok (save_ambient c) = true) calls ->
        stored_history (storage (saves calls s))
        = firstn 10 (rev (map saved calls))).
Proof.
  split; [|split].
  - intros es k1 k2 stored H. apply run_capped, mount_capped. exact H.
  - intros tp tr segs w s Hs Hw. cbv zeta.
    assert (E : stored_history (storage (savePodcastToHistory tp tr segs w s))
                = firstn 10 (new_podcast tp tr segs w
                             :: stored_history (storage s))).
    { rewrite save_storage, Hw.
      destruct (storage s); [reflexivity|reflexivity|contradiction]. }
    split; [exact E|]. split.
    + rewrite E. unfold savePodcastToHistory, parse. rewrite Hw.
      destruct (storage s) as [|h|]; [| |contradiction];
        cbn -[firstn]; rewrite <- firstn_map; cbn [map];
        rewrite ?to_json_parse_from; reflexivity.
    + intro L. rewrite E, firstn_cons, removelast_firstn_len, L.
      change (Nat.pred 10) with 9.
      split; [reflexivity|].
      cbn [length]. rewrite length_firstn, L. reflexivity.
  - intros calls s Hs Hok.
    rewrite saves_stored; [|rewrite Hs; discriminate|exact Hok].
    rewrite Hs. destruct calls as [|c calls]; [reflexivity|].
    cbn [stored_history]. rewrite app_nil_r. reflexivity.
Qed.

Lemma C3_witness :
  Forall (fun c => setItem_ok (save_ambient c) = true) eleven_saves
  /\ map StoredPodcast.id (stored_history (storage (saves eleven_saves fresh_page)))
     = map JS.of_Z [11; 10; 9; 8; 7; 6; 5; 4; 3; 2]%Z.
Proof.
  split; [repeat constructor|].
  rewrite (proj2 (proj2 C3_history_keeps_ten_newest) eleven_saves fresh_page
             eq_refl);
    [reflexivity|repeat constructor].
Defined.

Lemma digits_no_minus (d : Decimal.uint) (l : JS.str) :
  JS.digits d <> 45%N :: l.
Proof. destruct d; simpl; discriminate. Qed.

(** Two integers that print alike are the same. *)
Lemma of_Z_inj (a b : Z) : JS.of_Z a = JS.of_Z b -> a = b.
Proof.
  unfold JS.of_Z. intro H. apply DecimalZ.to_int_inj.
  destruct (Z.to_int a) as [d|d], (Z.to_int b) as [d'|d'].
  - f_equal. apply digits_inj. exact H.
  - exfalso. exact (digits_no_minus _ _ H).
  - exfalso. symmetry in H. exact (digits_no_minus _ _ H).
  - f_equal. apply digits_inj. inversion H. reflexivity.
Qed.

Lemma NoDup_firstn {A : Type} (n : nat) (l : list A) :
  NoDup l -> NoDup (firstn n l).
Proof.
  revert n. induction l as [|x l IH]; intros [|n] H; simpl;
    try constructor.
  - inversion H as [|x' l' Hx Hl]; subst. intro Hin. apply Hx.
    rewrite <- (firstn_skipn n l). apply in_or_app. left. exact Hin.
  - inversion H; subst. apply IH. assumption.
Qed.

(** After a save the stored ids are the former ones, or the first ten of
    the new id followed by the former ones. *)
Lemma save_call_ids (s : State) (c : Save) :
  stored_ids (save_call s c) = stored_ids s
  \/ stored_ids (save_call s c)
     = firstn 10 (JS.of_Z (reading c) :: stored_ids s).
Proof.
  unfold stored_ids, save_call. rewrite save_storage.
  destruct (storage s); destruct (setItem_ok (save_ambient c));
    try (left; reflexivity); right;
    cbn [stored_history]; rewrite <- firstn_map; reflexivity.
Qed.

Lemma saves_ids_distinct (calls : list Save) :
  forall s,
    NoDup (stored_ids s) ->
    (forall c, In c calls -> ~ In (JS.of_Z (reading c)) (stored_ids s)) ->
    NoDup (map reading calls) ->
    NoDup (stored_ids (saves calls s)).
Proof.
  induction calls as [|c calls IH]; intros s Hs Hnew Hclock; [exact Hs|].
  change (saves (c :: calls) s) with (saves calls (save_call s c)).
  inversion Hclock as [|t l Ht Hl]; subst.
  assert (Hc : ~ In (JS.of_Z (reading c)) (stored_ids s))
    by (apply Hnew; left; reflexivity).
  apply IH; [| |exact Hl].
  - destruct (save_call_ids s c) as [E|E]; rewrite E; [exact Hs|].
    apply NoDup_firstn. constructor; assumption.
  - intros c' Hc' Hin.
    assert (Hin' : In (JS.of_Z (reading c'))
                     (JS.of_Z (reading c) :: stored_ids s)).
    { destruct (save_call_ids s c) as [E|E]; rewrite E in Hin.
      - right. exact Hin.
      - rewrite <- (firstn_skipn 10 (JS.of_Z (reading c) :: stored_ids s)).
        apply in_or_app. left. exact Hin. }
    destruct Hin' as [E|Hold].
    + apply of_Z_inj in E. apply Ht. rewrite E.
      apply in_map. exact Hc'.
    + apply (Hnew c'); [right; exact Hc'|exact Hold].
Qed.

(** C8, as the claim states it: after any sequence of saves the ids in
    the history are pairwise distinct.  Two saves made at the same
    reading of the clock get the same id. *)
Lemma C8_same_reading_same_id :
  ~ NoDup (stored_ids (saves same_reading_saves fresh_page)).
Proof.
  intro H. vm_compute in H. inversion H as [|x l Hx Hl]; subst.
  apply Hx. left. reflexivity.
Qed.

(** C8, amended: the id of a saved podcast is the reading of the clock
    at the save, printed in decimal; when the readings of the saves are
    pairwise distinct, the ids in the history, from an empty storage,
    are pairwise distinct. *)
Theorem C8_ids_distinct_for_distinct_readings :
  forall (calls : list Save) (s : State),
    storage s = Absent ->
    NoDup (map reading calls) ->
    NoDup (stored_ids (saves calls s))
    /\ forall c, StoredPodcast.id (saved c) = JS.of_Z (reading c).
Proof.
  intros calls s Hs Hclock. split; [|reflexivity].
  apply saves_ids_distinct; [| |exact Hclock].
  - unfold stored_ids. rewrite Hs. constructor.
  - intros c _. unfold stored_ids. rewrite Hs. simpl. tauto.
Qed.

Lemma C8_witness :
  (storage fresh_page = Absent /\ NoDup (map reading eleven_saves))
  /\ NoDup (stored_ids (saves eleven_saves fresh_page)).
Proof.
  assert (H : NoDup (map reading eleven_saves)).
  { vm_compute. repeat (constructor; [simpl; intuition discriminate|]).
    constructor. }
  split; [split; [reflexivity|exact H]|].
  apply (C8_ids_distinct_for_distinct_readings eleven_saves fresh_page
           eq_refl H).
Defined.

(* ================================================================== *)
(** ** Playback: the index and the first segment *)

(** C4, on a run of the page: a first podcast of three segments is
    generated; a second run is started, and while it waits for its
    transcript the user loads the first podcast from the history and
    skips twice; the second run then ends with one segment.  Before its
    last reply the index is 2 in a list of three; after it the list has
    one segment and the index is still 2, which is no index of the
    list. *)
Theorem C4_index_outlives_its_list :
  let before := run (first_run ++ load_and_skip 2
                     ++ removelast short_second_run) fresh_page in
  let after := run (first_run ++ load_and_skip 2 ++ short_second_run)
                 fresh_page in
  (currentIdx (ui before) = 2
   /\ length (items (segments (ui before))) = 3
   /\ index_valid before)
  /\ (currentIdx (ui after) = 2
      /\ length (items (segments (ui after))) = 1
      /\ ~ index_valid after).
Proof.
  cbv zeta. unfold index_valid. vm_compute.
  repeat split; lia.
Qed.

(** C5, on a run of the page: as above, with one skip, and a second run
    that ends with two segments.  The last reply installs the new list
    while the index is 1: the second segment is attached and [play()] is
    called, with no click on the play button, and the first segment of
    the new list is never attached. *)
Theorem C5_new_list_starts_at_stale_index :
  let before := run (first_run ++ load_and_skip 1 ++ removelast second_run)
                  fresh_page in
  let reply := reply_event (ok_reply "blob:5" 1700000060000) in
  let after := step before reply in
  after = run (first_run ++ load_and_skip 1 ++ second_run) fresh_page
  /\ map PodcastSegment.url (items (segments (ui before)))
     = [JS.lit "blob:1"; JS.lit "blob:2"; JS.lit "blob:3"]
  /\ map PodcastSegment.url (items (segments (ui after)))
     = [JS.lit "blob:4"; JS.lit "blob:5"]
  /\ currentIdx (ui after) = 1
  /\ sent before reply = [SetSrc (JS.lit "blob:5"); SetRate x1; Play]
  /\ ~ In (SetSrc (JS.lit "blob:4")) (sink after).
Proof.
  cbv zeta. vm_compute.
  repeat split; try reflexivity. intuition discriminate.
Qed.

(* ================================================================== *)
(** ** What holds of the index, and of the first segment, in every state *)

Lemma render_sink (before : Component) (s : State) :
  exists l,
    sink (render before s) = sink s ++ l
    /\ (In Play l -> currentIdx (ui s) <> 0).
Proof.
  unfold render.
  set (s1 := match items (segments (ui s)) with
             | [] => set_audio None s
             | _ :: _ => match audio s with
                         | None => set_audio (Some {| src := [] |}) s
                         | Some _ => s
                         end
             end).
  assert (F : ui s1 = ui s /\ sink s1 = sink s).
  { unfold s1. destruct (items (segments (ui s))); [simpl; auto|].
    destruct (audio s); simpl; auto. }
  destruct F as [F1 F2].
  destruct (deps_changed before (ui s1)).
  - unfold playback_effect. rewrite F1.
    destruct (audio s1).
    + destruct (nth_error _ _) as [seg|].
      * destruct (currentIdx (ui s) =? 0) eqn:E0; cbn; rewrite F2.
        -- eexists. split; [rewrite <- app_assoc; reflexivity|].
           cbn. intuition discriminate.
        -- eexists. split; [rewrite <- app_assoc; reflexivity|].
           intros _. apply Nat.eqb_neq. exact E0.
      * exists []. rewrite app_nil_r. split; [exact F2|]. intros [].
    + exists []. rewrite app_nil_r. split; [exact F2|]. intros [].
  - exists []. rewrite app_nil_r. split; [exact F2|]. intros [].
Qed.

Lemma tts_loop_sink (tp key content : JS.str) (chunks_ : list Chunk)
    (segs : Arr PodcastSegment.t) (w : Ambient) (s : State) :
  sink (tts_loop tp key content chunks_ segs w s) = sink s.
Proof.
  destruct chunks_ as [|chunk rest]; cbn [tts_loop]; [|reflexivity].
  unfold finish. cbn [sink set_inflight upd_ui].
  destruct (save_frame tp content segs w (upd_ui (setSegments segs) s))
    as (_ & _ & _ & _ & _ & _ & _ & E & _).
  exact E.
Qed.

(** No handler but that of the play button sends [Play]. *)
Lemma handle_sink (e : Event) (s : State) :
  is_ClickPlay e = false ->
  exists l, sink (handle e s) = sink s ++ l /\ ~ In Play l.
Proof.
  intro He.
  assert (Z : exists l, sink s = sink s ++ l /\ ~ In Play l)
    by (exists []; rewrite app_nil_r; split; [reflexivity|intros []]).
  destruct e; cbn [handle]; try exact Z; try discriminate He.
  - destruct (loading (ui s)); [exact Z|].
    unfold generatePodcast. cbn.
    destruct (JS.truthy (apiKey (ui s))); cbn; [|exact Z].
    destruct (JS.truthy (openaiKey (ui s))); cbn; [|exact Z].
    destruct (JS.truthy (topic (ui s))); cbn; exact Z.
  - destruct (inflight s) as [[t k|]|]; try exact Z.
    unfold on_transcript, new_array. rewrite tts_loop_sink. exact Z.
  - destruct (inflight s) as [[t k|]|]; exact Z.
  - destruct (inflight s) as [[|t k c chunk rest segs]|]; try exact Z.
    unfold on_speech. destruct (negb ok); [exact Z|].
    rewrite tts_loop_sink. exact Z.
  - destruct (inflight s) as [[|]|]; exact Z.
  - destruct (showHistory (ui s)); [|exact Z].
    destruct (nth_error _ _); exact Z.
  - destruct (_ && _); exact Z.
  - destruct (controls_shown (ui s)); [|exact Z].
    unfold pauseCurrent. destruct (audio s); [|exact Z].
    exists [Pause]. split; [reflexivity|]. cbn. intuition discriminate.
  - destruct (_ && _); [|exact Z].
    unfold skipNext. destruct (_ <? _); exact Z.
  - destruct (controls_shown (ui s)); [|exact Z].
    unfold changePlaybackSpeed. cbn. destruct (audio s); [|exact Z].
    exists [SetRate speed]. split; [reflexivity|]. cbn. intuition discriminate.
  - destruct (existsb _ _); exact Z.
  - destruct (audio s); [|exact Z].
    unfold onEnded, skipNext. destruct (_ <? _); exact Z.
  - destruct (audio s); exact Z.
  - destruct (audio s); exact Z.
  - destruct (audio s); exact Z.
Qed.

Lemma skipn_length_app {A : Type} (l l' : list A) :
  skipn (length l) (l ++ l') = l'.
Proof. induction l as [|x l IH]; simpl; [reflexivity|exact IH]. Qed.

(** X2: whatever the state, an event that is not a click on the play button
    makes the component call [play()] only when the index it ends at is
    not 0: the segment at index 0 starts on a click and in no other
    way. *)
Theorem first_segment_waits_for_click :
  forall (s : State) (e : Event),
    is_ClickPlay e = false ->
    In Play (sent s e) ->
    currentIdx (ui (step s e)) <> 0.
Proof.
  intros s e He Hin. unfold sent, step in *.
  destruct (handle_sink e s He) as [l1 [E1 N1]].
  destruct (render_sink (ui s) (handle e s)) as [l2 [E2 N2]].
  rewrite render_ui. apply N2.
  rewrite E2, E1, <- app_assoc, skipn_length_app in Hin.
  apply in_app_or in Hin. destruct Hin as [H|H]; [contradiction|exact H].
Qed.

Lemma first_segment_waits_witness :
  (is_ClickPlay AudioEnded = false
   /\ In Play (sent (run first_run fresh_page) AudioEnded))
  /\ currentIdx (ui (step (run first_run fresh_page) AudioEnded)) <> 0.
Proof.
  assert (H : In Play (sent (run first_run fresh_page) AudioEnded))
    by (vm_compute; tauto).
  split; [split; [reflexivity|exact H]|].
  exact (first_segment_waits_for_click (run first_run fresh_page) AudioEnded
           eq_refl H).
Defined.

(** [skipNext] (and [onEnded], which is the same function) moves the
    index by one when the next index exists and does nothing otherwise:
    it never leaves the list, and at the last index it is the identity. *)
Lemma skipNext_spec (s : State) :
  segments (ui (skipNext s)) = segments (ui s)
  /\ (S (currentIdx (ui s)) < length (items (segments (ui s))) ->
      currentIdx (ui (skipNext s)) = S (currentIdx (ui s)))
  /\ (length (items (segments (ui s))) <= S (currentIdx (ui s)) ->
      skipNext s = s).
Proof.
  unfold skipNext.
  destruct (S (currentIdx (ui s)) <? length (items (segments (ui s)))) eqn:E.
  - apply Nat.ltb_lt in E. cbn. repeat split; try reflexivity. lia.
  - apply Nat.ltb_ge in E. repeat split; try reflexivity. lia.
Qed.

(** The render of a state whose index is no index of its list sends
    nothing to the [<audio>] element. *)
Lemma render_out_of_list (prev : Component) (x : State) :
  nth_error (items (segments (ui x))) (currentIdx (ui x)) = None ->
  sink (render prev x) = sink x.
Proof.
  intro H. unfold render.
  set (x1 := match items (segments (ui x)) with
             | [] => set_audio None x
             | _ :: _ => match audio x with
                         | None => set_audio (Some {| src := [] |}) x
                         | Some _ => x
                         end
             end).
  assert (F : ui x1 = ui x /\ sink x1 = sink x).
  { unfold x1. destruct (items (segments (ui x))); [split; reflexivity|].
    destruct (audio x); split; reflexivity. }
  destruct F as (F1 & F2).
  destruct (deps_changed prev (ui x1)); [|exact F2].
  unfold playback_effect. rewrite F1, H.
  destruct (audio x1); exact F2.
Qed.

(** Handled on the render of the state, an event runs what [handle]
    runs: [step] is an event handled on a page that is up to date,
    followed by the render. *)
Lemma handle_at_current (e : Event) (s : State) :
  handle_at (ui s) e s = handle e s.
Proof. destruct e; reflexivity. Qed.

(** X1: a click on skip and the end of the current segment, handled on
    the render [shown].  The list stays; the state does not change, or
    the index moves by one, and then the index of the render was not its
    last.  When the render is not behind the state (its index is not
    below the index of the state and its list is not longer), a valid
    index stays valid; at the last index of the render nothing changes.
    But when the segment ends and skip is clicked before the page has
    rendered again, both read the index of the same render: the index
    moves by two, and from the last index but one it leaves the list. *)
Theorem skip_and_ended_read_their_render :
  (forall (shown : Component) (s : State) (e : Event),
      e = ClickSkip \/ e = AudioEnded ->
      let s' := handle_at shown e s in
      segments (ui s') = segments (ui s)
      /\ (s' = s
          \/ (currentIdx (ui s') = S (currentIdx (ui s))
              /\ S (currentIdx shown) < length (items (segments shown))))
      /\ (currentIdx (ui s) <= currentIdx shown ->
          length (items (segments shown))
          <= length (items (segments (ui s))) ->
          index_valid s -> index_valid s')
      /\ (length (items (segments shown)) <= S (currentIdx shown) ->
          s' = s))
  /\ (forall (s : State),
        audio s <> None ->
        S (currentIdx (ui s)) < length (items (segments (ui s))) ->
        let s' := handle_at (ui s) ClickSkip (handle_at (ui s) AudioEnded s) in
        segments (ui s') = segments (ui s)
        /\ currentIdx (ui s') = S (S (currentIdx (ui s)))
        /\ (S (S (currentIdx (ui s))) = length (items (segments (ui s))) ->
            ~ index_valid s'
            /\ forall before, sink (render before s') = sink s')).
Proof.
  split.
  - intros shown s e He. cbv zeta. unfold index_valid.
    assert (K : handle_at shown e s = s
                \/ handle_at shown e s = skipNext_at shown s).
    { destruct He; subst e; cbn [handle_at].
      - destruct (_ && _); auto.
      - destruct (audio s); auto. }
    destruct K as [K|K]; rewrite K.
    + repeat split; auto.
    + unfold skipNext_at.
      destruct (S (currentIdx shown) <? length (items (segments shown)))
        eqn:E.
      * apply Nat.ltb_lt in E. cbn. split; [reflexivity|].
        split; [right; split; [reflexivity|exact E]|].
        split; [intros; lia|intro; lia].
      * repeat split; auto.
  - intros s Ha Hn. cbv zeta. cbn [handle_at].
    destruct (audio s) as [a|] eqn:Ea; [|contradiction].
    assert (G : (S (currentIdx (ui s)) <? length (items (segments (ui s))))
                = true) by (apply Nat.ltb_lt; exact Hn).
    assert (B : (length (items (segments (ui s))) <=? S (currentIdx (ui s)))
                = false) by (apply Nat.leb_gt; exact Hn).
    assert (C : controls_shown (ui s) = true).
    { unfold controls_shown. destruct (items (segments (ui s)));
        [cbn in Hn; lia|reflexivity]. }
    rewrite C, B. cbn [andb negb]. unfold skipNext_at. rewrite G. cbn.
    split; [reflexivity|]. split; [reflexivity|].
    intro L. split.
    + unfold index_valid. cbn. lia.
    + intros prev. rewrite render_out_of_list; [reflexivity|].
      cbn [ui upd_ui segments currentIdx setCurrentIdx].
      apply nth_error_None. lia.
Qed.

Lemma skip_and_ended_witness :
  (audio second_of_three <> None
   /\ S (currentIdx (ui second_of_three))
      < length (items (segments (ui second_of_three))))
  /\ currentIdx (ui (handle_at (ui second_of_three) ClickSkip
                       (handle_at (ui second_of_three) AudioEnded
                          second_of_three)))
     = 3
  /\ length (items (segments (ui second_of_three))) = 3.
Proof.
  assert (Ha : audio second_of_three <> None) by (vm_compute; discriminate).
  assert (Hn : S (currentIdx (ui second_of_three))
               < length (items (segments (ui second_of_three))))
    by (vm_compute; lia).
  split; [split; assumption|].
  split; [|vm_compute; reflexivity].
  exact (proj1 (proj2 (proj2 skip_and_ended_read_their_render
                         second_of_three Ha Hn))).
Defined.



Lemma tts_loop_list (tp key content : JS.str) (chunk : Chunk)
    (rest : list Chunk) (segs : Arr PodcastSegment.t) (w : Ambient)
    (s : State) :
  ui (tts_loop tp key content (chunk :: rest) segs w s) = ui s.
Proof. reflexivity. Qed.

Lemma tts_loop_installs (tp key content : JS.str)
    (segs : Arr PodcastSegment.t) (w : Ambient) (s : State) :
  segments (ui (tts_loop tp key content [] segs w s)) = segs
  /\ currentIdx (ui (tts_loop tp key content [] segs w s)) = currentIdx (ui s).
Proof.
  cbn [tts_loop]. unfold finish.
  cbn [ui upd_ui set_inflight segments currentIdx setLoading].
  destruct (save_frame tp content segs w (upd_ui (setSegments segs) s))
    as (E1 & _ & _ & E4 & _).
  rewrite E1, E4. split; reflexivity.
Qed.

(** X4: every handler, on whatever render, keeps the index an index of
    the installed list (or the list empty), but for two: the reply that
    ends a run, when it arrives while the index is not 0; and a click on
    skip or the end of a segment handled on a render that is behind the
    state, with an index below the index of the state or a list longer
    than the list of the state.  A render does not change the index or
    the list. *)
Theorem index_kept_but_at_run_end_and_stale_skip :
  forall (shown : Component) (s : State) (e : Event),
    index_ok s ->
    currentIdx (ui s) = 0 \/ ends_run s e = false ->
    (e = ClickSkip \/ e = AudioEnded ->
     currentIdx (ui s) <= currentIdx shown
     /\ length (items (segments shown))
        <= length (items (segments (ui s)))) ->
    index_ok (handle_at shown e s)
    /\ (forall prev, index_ok (render prev (handle_at shown e s))).
Proof.
  intros shown s e Hok Hend Hskip.
  assert (Main : index_ok (handle_at shown e s)).
  { unfold index_ok, index_valid in *.
    assert (Keep : forall x,
              segments (ui x) = segments (ui s) ->
              currentIdx (ui x) = currentIdx (ui s) ->
              items (segments (ui x)) = []
              \/ currentIdx (ui x) < length (items (segments (ui x)))).
    { intros x E1 E2. rewrite E1, E2. exact Hok. }
    assert (Same : items (segments (ui s)) = []
                   \/ currentIdx (ui s) < length (items (segments (ui s))))
      by exact Hok.
    assert (Skip : e = ClickSkip \/ e = AudioEnded ->
              items (segments (ui (skipNext_at shown s))) = []
              \/ currentIdx (ui (skipNext_at shown s))
                 < length (items (segments (ui (skipNext_at shown s))))).
    { intro He. destruct (Hskip He) as (H1 & H2). unfold skipNext_at.
      destruct (S (currentIdx shown) <? length (items (segments shown)))
        eqn:E; [|exact Same].
      apply Nat.ltb_lt in E. right. cbn. lia. }
    destruct e; cbn [handle_at]; try exact Same;
      try (apply Keep; reflexivity).
    - destruct (loading shown); [exact Same|].
      unfold generatePodcast_at. cbn.
      destruct (JS.truthy (apiKey shown)); cbn;
        [|apply Keep; reflexivity].
      destruct (JS.truthy (openaiKey shown)); cbn;
        [|apply Keep; reflexivity].
      destruct (JS.truthy (topic shown)); cbn;
        [|apply Keep; reflexivity].
      left. reflexivity.
    - destruct (inflight s) as [[t k|]|]; try exact Same.
      unfold on_transcript, new_array.
      destruct (splitBySpeaker _) as [|chunk rest].
      + left.
        match goal with
        | |- items (segments (ui (tts_loop ?a ?b ?c [] ?d ?w0 ?x))) = [] =>
            destruct (tts_loop_installs a b c d w0 x) as [E _]; rewrite E
        end.
        reflexivity.
      + rewrite tts_loop_list. apply Keep; reflexivity.
    - destruct (inflight s) as [[t k|]|]; exact Same.
    - destruct (inflight s) as [[|t k c chunk rest segs]|] eqn:Ein;
        try exact Same.
      unfold on_speech. destruct ok; cbn [negb];
        [|apply Keep; reflexivity].
      destruct rest as [|chunk' rest].
      + match goal with
        | |- context [tts_loop ?a ?b ?c [] ?d ?w0 ?x] =>
            destruct (tts_loop_installs a b c d w0 x) as [E1 E2];
            rewrite E1, E2
        end.
        right. cbn [items]. rewrite length_app. cbn [length].
        destruct Hend as [H0|Hend].
        * rewrite H0. lia.
        * unfold ends_run in Hend. rewrite Ein in Hend. discriminate Hend.
      + rewrite tts_loop_list. exact Same.
    - destruct (inflight s) as [[|]|]; exact Same.
    - destruct (showHistory shown); [|exact Same].
      destruct (nth_error _ _) as [p|]; [|exact Same].
      cbn. destruct (items (StoredPodcast.segments p)); [left; reflexivity|].
      right. cbn. lia.
    - destruct (_ && _); [|exact Same]. apply Keep; reflexivity.
    - destruct (_ && _); [|exact Same].
      unfold playCurrent_at. destruct (audio s); [|exact Same].
      destruct (nth_error _ _); [|exact Same].
      destruct (negb _); destruct (_ && _); apply Keep; reflexivity.
    - destruct (controls_shown shown); [|exact Same].
      unfold pauseCurrent. destruct (audio s); apply Keep; reflexivity.
    - destruct (_ && _); [|exact Same]. apply Skip. left. reflexivity.
    - destruct (controls_shown shown); [|exact Same].
      unfold changePlaybackSpeed. cbn.
      destruct (audio s); apply Keep; reflexivity.
    - destruct (existsb _ _); [|exact Same]. apply Keep; reflexivity.
    - destruct (audio s); [|exact Same]. apply Skip. right. reflexivity.
    - destruct (audio s); [|exact Same]. apply Keep; reflexivity.
    - destruct (audio s); [|exact Same]. apply Keep; reflexivity.
    - destruct (audio s); [|exact Same]. apply Keep; reflexivity. }
  split; [exact Main|].
  intros prev. unfold index_ok, index_valid in *. rewrite render_ui.
  exact Main.
Qed.

Lemma index_kept_witness :
  (index_ok second_of_three
   /\ (currentIdx (ui second_of_three) = 0
       \/ ends_run second_of_three AudioEnded = false)
   /\ (AudioEnded = ClickSkip \/ AudioEnded = AudioEnded ->
       currentIdx (ui second_of_three) <= currentIdx (ui second_of_three)
       /\ length (items (segments (ui second_of_three)))
          <= length (items (segments (ui second_of_three)))))
  /\ index_ok (handle_at (ui second_of_three) AudioEnded second_of_three).
Proof.
  assert (H : index_ok second_of_three)
    by (right; unfold index_valid; vm_compute; lia).
  assert (E : currentIdx (ui second_of_three) = 0
              \/ ends_run second_of_three AudioEnded = false)
    by (right; vm_compute; reflexivity).
  assert (K : AudioEnded = ClickSkip \/ AudioEnded = AudioEnded ->
              currentIdx (ui second_of_three)
              <= currentIdx (ui second_of_three)
              /\ length (items (segments (ui second_of_three)))
                 <= length (items (segments (ui second_of_three))))
    by (intros _; split; apply Nat.le_refl).
  split; [split; [exact H|split; [exact E|exact K]]|].
  exact (proj1 (index_kept_but_at_run_end_and_stale_skip
                  (ui second_of_three) second_of_three AudioEnded H E K)).
Defined.

(** The render of a state at index 0 whose list has changed: the first
    segment is attached and loaded, and [play()] is not called. *)
Lemma render_loads_first (before : Component) (x : State)
    (first : PodcastSegment.t) (rest : list PodcastSegment.t) :
  items (segments (ui x)) = first :: rest ->
  currentIdx (ui x) = 0 ->
  deps_changed before (ui x) = true ->
  sink (render before x)
  = sink x ++ [SetSrc (PodcastSegment.url first);
               SetRate (playbackSpeed (ui x)); Load].
Proof.
  intros Hi H0 Hd. unfold render. rewrite Hi.
  destruct (audio x) eqn:Ea; cbn [ui set_audio]; rewrite Hd;
    unfold playback_effect; cbn [audio ui set_audio]; rewrite ?Ea, Hi, H0;
    cbn; rewrite <- app_assoc; reflexivity.
Qed.

(** X5: a list installed while the index is 0, or together with a reset of
    the index, is only attached and loaded, when the page is up to date
    at the event and is rendered before any other event.  From the
    history: the index is set to 0 with the list; the list is not the
    array that is installed already with the index at 0, for then no
    dependency of the effect changes and nothing is sent.  At the end of
    a run: the index is as the run finds it, and the array is a new one.
    When the last reply of a run of one chunk is followed by a click on
    skip before the page has rendered again, the page showing a longer
    list at index 0, the index is 1 on a list of one segment, and the
    render of that state attaches nothing. *)
Theorem install_at_first_index_only_loads :
  (forall (s : State) (i : nat) (p : Stored)
          (first : PodcastSegment.t) (rest : list PodcastSegment.t),
      showHistory (ui s) = true ->
      nth_error (podcastHistory (ui s)) i = Some p ->
      items (StoredPodcast.segments p) = first :: rest ->
      ref (StoredPodcast.segments p) <> ref (segments (ui s))
      \/ currentIdx (ui s) <> 0 ->
      let s' := step s (ClickHistoryItem i) in
      segments (ui s') = StoredPodcast.segments p
      /\ currentIdx (ui s') = 0
      /\ sent s (ClickHistoryItem i)
         = [SetSrc (PodcastSegment.url first);
            SetRate (playbackSpeed (ui s)); Load])
  /\ (forall (s : State) (tp key content : JS.str) (chunk : Chunk)
             (segs : Arr PodcastSegment.t) (r : Reply),
        inflight s = Some (AwaitSpeech tp key content chunk [] segs) ->
        reply_ok r = true ->
        currentIdx (ui s) = 0 ->
        ref segs <> ref (segments (ui s)) ->
        sent s (reply_event r)
        = [SetSrc (PodcastSegment.url
                     (hd (segment_of r chunk) (items segs)));
           SetRate (playbackSpeed (ui s)); Load])
  /\ (forall (s : State) (tp key content : JS.str) (chunk : Chunk)
             (segs : Arr PodcastSegment.t) (r : Reply),
        inflight s = Some (AwaitSpeech tp key content chunk [] segs) ->
        reply_ok r = true ->
        items segs = [] ->
        currentIdx (ui s) = 0 ->
        1 < length (items (segments (ui s))) ->
        let s' := handle_at (ui s) ClickSkip
                    (handle_at (ui s) (reply_event r) s) in
        items (segments (ui s')) = [segment_of r chunk]
        /\ currentIdx (ui s') = 1
        /\ (forall prev, sink (render prev s') = sink s')).
Proof.
  split; [|split].
  3: {
    intros s tp key content chunk segs r Hin Hok Hs H0 Hl. cbv zeta.
    assert (C : controls_shown (ui s) = true).
    { unfold controls_shown. destruct (items (segments (ui s)));
        [cbn in Hl; lia|reflexivity]. }
    assert (B : (length (items (segments (ui s))) <=? S (currentIdx (ui s)))
                = false) by (apply Nat.leb_gt; lia).
    assert (G : (S (currentIdx (ui s)) <? length (items (segments (ui s))))
                = true) by (apply Nat.ltb_lt; lia).
    unfold reply_event. cbn [handle_at]. rewrite Hin, C, B. cbn [andb negb].
    unfold on_speech, skipNext_at. rewrite Hok, G. cbn [negb].
    set (segs' := {| ref := ref segs;
                     items := items segs
                              ++ [{| PodcastSegment.url := reply_objectUrl r;
                                     PodcastSegment.speaker := speaker chunk;
                                     PodcastSegment.text := text chunk |}] |}).
    destruct (tts_loop_installs tp key content segs' (reply_ambient r) s)
      as [E1 E2].
    assert (I1 : items (segments (ui (upd_ui
                   (fun c => setCurrentIdx (S (currentIdx c)) c)
                   (tts_loop tp key content [] segs' (reply_ambient r) s))))
                 = [segment_of r chunk]).
    { cbn [ui upd_ui segments setCurrentIdx]. rewrite E1. unfold segs'.
      cbn [items]. rewrite Hs. reflexivity. }
    assert (I2 : currentIdx (ui (upd_ui
                   (fun c => setCurrentIdx (S (currentIdx c)) c)
                   (tts_loop tp key content [] segs' (reply_ambient r) s)))
                 = 1).
    { cbn [ui upd_ui currentIdx setCurrentIdx]. rewrite E2, H0.
      reflexivity. }
    split; [exact I1|]. split; [exact I2|].
    intros prev. apply render_out_of_list. rewrite I1, I2. reflexivity. }
  - intros s i p first rest Hshow Hp Hi Hd. cbv zeta. unfold sent, step.
    cbn [handle]. rewrite Hshow, Hp, render_ui.
    split; [reflexivity|]. split; [reflexivity|].
    rewrite (render_loads_first (ui s) (loadPodcastFromHistory p s)
               first rest Hi eq_refl).
    + apply skipn_length_app.
    + unfold deps_changed. cbn.
      destruct Hd as [Hd|Hd].
      * apply Nat.eqb_neq in Hd. rewrite Nat.eqb_sym in Hd. rewrite Hd.
        rewrite andb_false_r. reflexivity.
      * apply Nat.eqb_neq in Hd. rewrite Hd. reflexivity.
  - intros s tp key content chunk segs r Hin Hok H0 Hd. unfold sent.
    rewrite (step_speech_ok tp key content chunk [] segs r s Hin Hok).
    set (segs' := {| ref := ref segs;
                     items := items segs ++ [segment_of r chunk] |}).
    destruct (tts_loop_installs tp key content segs' (reply_ambient r) s)
      as [E1 E2].
    assert (Hi : items (segments (ui (tts_loop tp key content [] segs'
                                        (reply_ambient r) s)))
                 = hd (segment_of r chunk) (items segs)
                   :: tl (items segs ++ [segment_of r chunk])).
    { rewrite E1. unfold segs'. cbn [items].
      destruct (items segs); reflexivity. }
    rewrite (render_loads_first (ui s) _ _ _ Hi).
    + rewrite tts_loop_sink.
      assert (P : playbackSpeed (ui (tts_loop tp key content [] segs'
                                       (reply_ambient r) s))
                  = playbackSpeed (ui s)).
      { cbn [tts_loop]. unfold finish, savePodcastToHistory, parse.
        destruct (storage s) eqn:Es;
          destruct (setItem_ok (reply_ambient r)) eqn:Ew;
          repeat (cbn -[firstn]; rewrite ?Es, ?Ew); reflexivity. }
      rewrite P. apply skipn_length_app.
    + rewrite E2. exact H0.
    + unfold deps_changed. rewrite E1, E2. unfold segs'. cbn [ref].
      apply Nat.eqb_neq in Hd. rewrite Nat.eqb_sym in Hd. rewrite Hd.
      rewrite andb_false_r. reflexivity.
Qed.

Lemma install_at_first_index_witness :
  (showHistory (ui after_one_skip) = true
   /\ nth_error (podcastHistory (ui after_one_skip)) 0 = Some first_podcast
   /\ items (StoredPodcast.segments first_podcast)
      = first_segment :: [second_segment; third_segment]
   /\ (ref (StoredPodcast.segments first_podcast)
       <> ref (segments (ui after_one_skip))
       \/ currentIdx (ui after_one_skip) <> 0))
  /\ sent after_one_skip (ClickHistoryItem 0)
     = [SetSrc (PodcastSegment.url first_segment);
        SetRate (playbackSpeed (ui after_one_skip)); Load]
  /\ (inflight short_run_ending
      = Some (AwaitSpeech (JS.lit "jam") (JS.lit "o-key") (JS.lit "Host: hi")
                (mkChunk host (JS.lit " hi ")) []
                {| ref := 4; items := [] |})
      /\ currentIdx (ui short_run_ending) = 0
      /\ 1 < length (items (segments (ui short_run_ending))))
  /\ currentIdx
       (ui (handle_at (ui short_run_ending) ClickSkip
              (handle_at (ui short_run_ending)
                 (reply_event (ok_reply "blob:4" 1700000060000))
                 short_run_ending)))
     = 1.
Proof.
  assert (Hs : showHistory (ui after_one_skip) = true)
    by (vm_compute; reflexivity).
  assert (Hp : nth_error (podcastHistory (ui after_one_skip)) 0
               = Some first_podcast) by (vm_compute; reflexivity).
  assert (Hi : items (StoredPodcast.segments first_podcast)
               = first_segment :: [second_segment; third_segment])
    by reflexivity.
  assert (Hd : ref (StoredPodcast.segments first_podcast)
               <> ref (segments (ui after_one_skip))
               \/ currentIdx (ui after_one_skip) <> 0)
    by (right; vm_compute; discriminate).
  assert (Hin : inflight short_run_ending
                = Some (AwaitSpeech (JS.lit "jam") (JS.lit "o-key")
                          (JS.lit "Host: hi") (mkChunk host (JS.lit " hi "))
                          [] {| ref := 4; items := [] |}))
    by (vm_compute; reflexivity).
  assert (H0 : currentIdx (ui short_run_ending) = 0)
    by (vm_compute; reflexivity).
  assert (Hl : 1 < length (items (segments (ui short_run_ending))))
    by (vm_compute; lia).
  split; [repeat split; assumption|].
  split.
  - exact (proj2 (proj2 (proj1 install_at_first_index_only_loads
                           after_one_skip 0 first_podcast first_segment
                           [second_segment; third_segment] Hs Hp Hi Hd))).
  - split; [repeat split; assumption|].
    exact (proj1 (proj2 (proj2 (proj2 install_at_first_index_only_loads)
                           short_run_ending (JS.lit "jam") (JS.lit "o-key")
                           (JS.lit "Host: hi") (mkChunk host (JS.lit " hi "))
                           {| ref := 4; items := [] |}
                           (ok_reply "blob:4" 1700000060000)
                           Hin eq_refl eq_refl H0 Hl))).
Defined.

(** While a run is in flight, what the user and the [<audio>] element do
    leaves the run alone: the suspended call and its local variables
    stay, the loading flag stays on, and no request goes out. *)
Lemma page_event_keeps_run :
  forall (s : State) (e : Event),
    is_reply e = false ->
    loading (ui s) = true ->
    inflight (step s e) = inflight s
    /\ loading (ui (step s e)) = true
    /\ requests (step s e) = requests s.
Proof.
  intros s e He Hl. unfold step.
  destruct (render_frame (ui s) (handle e s)) as (E1 & E2 & _ & E4 & _).
  rewrite E1, E2, E4.
  assert (Same : inflight s = inflight s /\ loading (ui s) = true
                 /\ requests s = requests s) by auto.
  destruct e; cbn [handle]; try discriminate He; try exact Same.
  - rewrite Hl. exact Same.
  - destruct (showHistory (ui s)); [|exact Same].
    destruct (nth_error _ _); exact Same.
  - destruct (_ && _); exact Same.
  - destruct (_ && _); [|exact Same].
    unfold playCurrent. destruct (audio s); [|exact Same].
    destruct (nth_error _ _); [|exact Same].
    destruct (negb _); destruct (_ && _); exact Same.
  - destruct (controls_shown (ui s)); [|exact Same].
    unfold pauseCurrent. destruct (audio s); exact Same.
  - destruct (_ && _); [|exact Same].
    unfold skipNext. destruct (_ <? _); exact Same.
  - destruct (controls_shown (ui s)); [|exact Same].
    unfold changePlaybackSpeed. cbn. destruct (audio s); exact Same.
  - destruct (existsb _ _); exact Same.
  - destruct (audio s); [|exact Same].
    unfold onEnded, skipNext. destruct (_ <? _); exact Same.
  - destruct (audio s); exact Same.
  - destruct (audio s); exact Same.
  - destruct (audio s); exact Same.
Qed.

(** The loop with events of the page between the replies: as long as
    replies are missing, the call stays suspended with the segments made
    so far. *)
Lemma synthesis_in_progress_among_events (tp key content : JS.str) :
  forall (es : list Event) (replies : list Reply) (chunk : Chunk)
         (rest : list Chunk) (segs : Arr PodcastSegment.t) (s : State),
    inflight s = Some (AwaitSpeech tp key content chunk rest segs) ->
    loading (ui s) = true ->
    filter is_reply es = map reply_event replies ->
    all_ok replies ->
    length replies <= length rest ->
    loading (ui (run es s)) = true
    /\ exists chunk' rest',
         skipn (length replies) (chunk :: rest) = chunk' :: rest'
         /\ inflight (run es s)
            = Some (AwaitSpeech tp key content chunk' rest'
                      {| ref := ref segs;
                         items := items segs
                                  ++ segments_of replies (chunk :: rest) |}).
Proof.
  induction es as [|e es IH];
    intros replies chunk rest segs s Hin Hl Hf Hok Hlen.
  - destruct replies; [|discriminate Hf].
    split; [exact Hl|]. exists chunk, rest. split; [reflexivity|].
    cbn [run fold_left segments_of]. rewrite Hin, Arr_eta. reflexivity.
  - change (run (e :: es) s) with (run es (step s e)).
    cbn [filter] in Hf. destruct (is_reply e) eqn:He.
    + destruct replies as [|r replies]; [discriminate Hf|].
      cbn [map] in Hf. inversion Hf as [[He' Hf']]. clear Hf.
      inversion Hok as [|r' l' Hr Hoks]; subst.
      cbn [length] in Hlen.
      destruct rest as [|chunk2 rest2]; [cbn in Hlen; lia|].
      cbn [length] in Hlen.
      rewrite (step_speech_ok tp key content chunk (chunk2 :: rest2) segs
                 r s Hin Hr).
      destruct (tts_loop_suspends tp key content chunk2 rest2
                  {| ref := ref segs;
                     items := items segs ++ [segment_of r chunk] |}
                  (reply_ambient r) s (ui s)) as (E1 & _ & _ & E4).
      destruct (IH replies chunk2 rest2
                  {| ref := ref segs;
                     items := items segs ++ [segment_of r chunk] |}
                  _ E4) as (L & chunk' & rest' & K1 & K2);
        [rewrite E1; exact Hl|exact Hf'|exact Hoks|lia|].
      split; [exact L|]. exists chunk', rest'. split; [exact K1|].
      rewrite K2. cbn [ref items segments_of]. rewrite <- app_assoc.
      reflexivity.
    + destruct (page_event_keeps_run s e He Hl) as (U1 & U2 & _).
      apply IH; [rewrite U1; exact Hin|exact U2|exact Hf|exact Hok|exact Hlen].
Qed.

(** X6: a run is not disturbed by the page: whatever the user and the
    [<audio>] element do between the replies, when every reply is a
    success and the last event is the last reply, the list installed is
    that of the chunks, in their order. *)
Theorem synthesis_among_page_events :
  forall (tp key content : JS.str) (chunk : Chunk) (rest : list Chunk)
         (segs : Arr PodcastSegment.t) (s : State)
         (es : list Event) (replies : list Reply) (r : Reply),
    inflight s = Some (AwaitSpeech tp key content chunk rest segs) ->
    loading (ui s) = true ->
    filter is_reply (es ++ [reply_event r])
    = map reply_event (replies ++ [r]) ->
    all_ok (replies ++ [r]) ->
    length replies = length rest ->
    let s' := run (es ++ [reply_event r]) s in
    items (segments (ui s'))
    = items segs ++ segments_of (replies ++ [r]) (chunk :: rest)
    /\ inflight s' = None
    /\ loading (ui s') = false.
Proof.
  intros tp key content chunk rest segs s es replies r Hin Hl Hf Hok Hlen.
  cbv zeta. rewrite filter_app, map_app in Hf. cbn in Hf.
  apply app_inj_tail in Hf. destruct Hf as [Hf _].
  apply all_ok_app in Hok. destruct Hok as [Hoks Hr].
  inversion Hr as [|r' l' Hr' _]; subst.
  destruct (synthesis_in_progress_among_events tp key content es replies
              chunk rest segs s Hin Hl Hf Hoks)
    as (_ & chunk' & rest' & K1 & K2); [lia|].
  assert (rest' = []).
  { assert (L : length (skipn (length replies) (chunk :: rest)) = 1)
      by (rewrite length_skipn; cbn [length]; lia).
    rewrite K1 in L. destruct rest'; [reflexivity|discriminate L]. }
  subst rest'.
  rewrite run_app. change (run [?e] ?x) with (step x e).
  destruct (step_last_reply tp key content chunk' _ r (run es s) K2 Hr')
    as (S1 & _ & _ & S4 & S5 & _).
  rewrite S1, S4, S5. cbn [items].
  rewrite (segments_of_snoc replies (chunk :: rest) r chunk' [] K1),
    <- app_assoc.
  auto.
Qed.

Lemma synthesis_among_page_events_witness :
  (inflight busy_page
   = Some (AwaitSpeech (JS.lit "jam") (JS.lit "o-key") two_turns
             (mkChunk host (JS.lit " hi ")) [mkChunk guest (JS.lit " yo ")]
             {| ref := 4; items := [] |})
   /\ loading (ui busy_page) = true
   /\ filter is_reply
        ([ClickHistory; reply_event (ok_reply "blob:4" 4); ClickHistoryItem 0;
          ClickSkip] ++ [reply_event (ok_reply "blob:5" 5)])
      = map reply_event ([ok_reply "blob:4" 4] ++ [ok_reply "blob:5" 5])
   /\ all_ok ([ok_reply "blob:4" 4] ++ [ok_reply "blob:5" 5])
   /\ length [ok_reply "blob:4" 4] = length [mkChunk guest (JS.lit " yo ")])
  /\ inflight
       (run ([ClickHistory; reply_event (ok_reply "blob:4" 4);
              ClickHistoryItem 0; ClickSkip]
             ++ [reply_event (ok_reply "blob:5" 5)]) busy_page)
     = None.
Proof.
  assert (Hin : inflight busy_page
                = Some (AwaitSpeech (JS.lit "jam") (JS.lit "o-key") two_turns
                          (mkChunk host (JS.lit " hi "))
                          [mkChunk guest (JS.lit " yo ")]
                          {| ref := 4; items := [] |}))
    by (vm_compute; reflexivity).
  assert (Hl : loading (ui busy_page) = true) by (vm_compute; reflexivity).
  assert (Hok : all_ok ([ok_reply "blob:4" 4] ++ [ok_reply "blob:5" 5]))
    by (repeat constructor).
  split; [repeat split; try assumption; reflexivity|].
  exact (proj1 (proj2 (synthesis_among_page_events
                         (JS.lit "jam") (JS.lit "o-key") two_turns
                         (mkChunk host (JS.lit " hi "))
                         [mkChunk guest (JS.lit " yo ")]
                         {| ref := 4; items := [] |} busy_page
                         [ClickHistory; reply_event (ok_reply "blob:4" 4);
                          ClickHistoryItem 0; ClickSkip]
                         [ok_reply "blob:4" 4] (ok_reply "blob:5" 5)
                         Hin Hl eq_refl Hok eq_refl))).
Defined.

(* ================================================================== *)
(** ** The lines of a transcript *)

Lemma split_lf_from_run (s : JS.str) :
  filter JS.truthy (JS.split_lf_from s [] true)
  = filter JS.truthy (JS.split_lf_from s [] false).
Proof.
  destruct s as [|c s]; [reflexivity|].
  cbn [JS.split_lf_from]. destruct (c =? 10)%N; reflexivity.
Qed.

Lemma split_lf_from_app (a b : JS.str) :
  forall (cur : JS.str) (in_run : bool),
    (in_run = true -> cur = []) ->
    filter JS.truthy (JS.split_lf_from (a ++ 10%N :: b) cur in_run)
    = filter JS.truthy (JS.split_lf_from a cur in_run)
      ++ filter JS.truthy (JS.split_lf_from b [] false).
Proof.
  induction a as [|c a IH]; intros cur in_run H.
  - cbn [app JS.split_lf_from N.eqb Pos.eqb].
    destruct in_run.
    + rewrite (H eq_refl). cbn. apply split_lf_from_run.
    + cbn [filter rev]. rewrite split_lf_from_run.
      destruct (JS.truthy (rev cur)); reflexivity.
  - change ((c :: a) ++ 10%N :: b) with (c :: (a ++ 10%N :: b)).
    cbn [JS.split_lf_from]. destruct (c =? 10)%N.
    + destruct in_run.
      * apply IH. exact H.
      * cbn [filter]. rewrite IH by reflexivity.
        destruct (JS.truthy (rev cur)); reflexivity.
    + apply IH. discriminate.
Qed.

Lemma split_lf_from_line (l : JS.str) :
  forall cur, ~ In 10%N l ->
    JS.split_lf_from l cur false = [rev cur ++ l].
Proof.
  induction l as [|c l IH]; intros cur H.
  - cbn. rewrite app_nil_r. reflexivity.
  - cbn [JS.split_lf_from].
    destruct (N.eqb_spec c 10) as [E|E].
    + exfalso. apply H. left. exact E.
    + rewrite IH by (intro K; apply H; right; exact K).
      cbn [rev]. rewrite <- app_assoc. reflexivity.
Qed.

Lemma split_lf_from_pieces (s : JS.str) :
  forall cur in_run,
    ~ In 10%N cur ->
    Forall (fun l => ~ In 10%N l) (JS.split_lf_from s cur in_run).
Proof.
  induction s as [|c s IH]; intros cur in_run H.
  - cbn. constructor; [|constructor]. rewrite <- in_rev. exact H.
  - cbn [JS.split_lf_from]. destruct (N.eqb_spec c 10) as [E|E].
    + destruct in_run.
      * apply IH. exact H.
      * constructor; [rewrite <- in_rev; exact H|].
        apply IH. intros [].
    + apply IH. intros [K|K]; [congruence|exact (H K)].
Qed.

Lemma lines_of_app (a b : JS.str) :
  lines_of (a ++ LF ++ b) = lines_of a ++ lines_of b.
Proof.
  unfold lines_of, JS.split_lf, LF. cbn [app].
  apply split_lf_from_app. discriminate.
Qed.

Lemma lines_of_line (l : JS.str) : is_line l -> lines_of l = [l].
Proof.
  intros [Hne Hlf]. unfold lines_of, JS.split_lf.
  rewrite split_lf_from_line by exact Hlf. cbn.
  destruct l; [contradiction|reflexivity].
Qed.

(** X7: the lines of a transcript are not empty and hold no LF; the
    lines of two texts put together with an LF between them are the
    lines of the first followed by the lines of the second, so that
    empty lines and repeated LF change nothing; and lines joined with LF
    are found again. *)
Theorem lines_of_transcript :
  (forall content, Forall is_line (lines_of content))
  /\ (forall a b, lines_of (a ++ LF ++ b) = lines_of a ++ lines_of b)
  /\ lines_of [] = []
  /\ (forall lines, Forall is_line lines -> lines_of (join_lf lines) = lines).
Proof.
  split; [|split; [exact lines_of_app|split; [reflexivity|]]].
  - intro content. unfold lines_of, JS.split_lf.
    assert (P := split_lf_from_pieces content [] false (fun K => K)).
    induction (JS.split_lf_from content [] false) as [|l ls IH];
      [constructor|].
    inversion P as [|l' ls' Hl Hls]; subst. cbn [filter].
    destruct l as [|c l]; cbn [JS.truthy]; [apply IH; exact Hls|].
    constructor; [split; [discriminate|exact Hl]|apply IH; exact Hls].
  - intros lines H. induction H as [|l rest Hl Hrest IH]; [reflexivity|].
    cbn [join_lf]. destruct rest as [|l2 rest].
    + apply lines_of_line. exact Hl.
    + rewrite lines_of_app, (lines_of_line l Hl), IH. reflexivity.
Qed.

Lemma lines_of_transcript_witness :
  Forall is_line [JS.lit "Host: a"; JS.lit "Guest: b"]
  /\ lines_of (join_lf [JS.lit "Host: a"; JS.lit "Guest: b"])
     = [JS.lit "Host: a"; JS.lit "Guest: b"].
Proof.
  assert (H : Forall is_line [JS.lit "Host: a"; JS.lit "Guest: b"]).
  { repeat constructor; try discriminate; cbn; intuition discriminate. }
  split; [exact H|].
  exact (proj2 (proj2 (proj2 lines_of_transcript)) _ H).
Defined.

(* ================================================================== *)
(** ** The chunks of a transcript *)

Section ChunkStructure.

Variable who_policy : JS.str -> option Speaker.
Variable keep_preamble : bool.

Let line_step := split_line who_policy keep_preamble.

Lemma snoc_not_nil {A : Type} (l : list A) (x : A) : l ++ [x] <> [].
Proof. destruct l; discriminate. Qed.

Lemma split_line_filled (st : Splitter) (line : JS.str) :
  buffer_filled st -> buffer_filled (line_step st line).
Proof.
  unfold buffer_filled, line_step, split_line. intro H.
  destruct (who_policy line) as [s|].
  - intros _. cbn [buf]. rewrite app_assoc. apply snoc_not_nil.
  - destruct (curr st) as [c|] eqn:Ec.
    + intros _. cbn [buf]. rewrite app_assoc. apply snoc_not_nil.
    + destruct keep_preamble; cbn [curr]; rewrite ?Ec; intro K;
        contradiction.
Qed.

Lemma Speaker_eqb_refl (a : Speaker) : Speaker_eqb a a = true.
Proof. destruct a; reflexivity. Qed.

Lemma split_speakers (lines : list JS.str) :
  forall st,
    buffer_filled st ->
    map speaker (split_finish (fold_left line_step lines st))
    = map speaker (chunks st)
      ++ match curr st with Some c => [c] | None => [] end
      ++ merge_from (curr st) (labels who_policy lines).
Proof.
  induction lines as [|line lines IH]; intros st Hf.
  - cbn [fold_left labels flat_map merge_from]. rewrite app_nil_r.
    unfold split_finish. destruct (curr st) as [c|] eqn:Ec.
    + assert (B : buf st <> []) by (apply Hf; rewrite Ec; discriminate).
      destruct (buf st); [contradiction|].
      cbn [JS.truthy]. rewrite map_app. reflexivity.
    + rewrite app_nil_r. reflexivity.
  - cbn [fold_left]. rewrite IH by (apply split_line_filled; exact Hf).
    unfold line_step, split_line, labels. cbn [flat_map].
    destruct (who_policy line) as [s|].
    + destruct (curr st) as [c|].
      * cbn [app merge_from]. destruct (Speaker_eqb s c) eqn:Es.
        -- assert (s = c) by (destruct s, c; simpl in Es; congruence).
           subst s. cbn [negb chunks curr]. reflexivity.
        -- cbn [negb chunks curr]. rewrite map_app, <- app_assoc.
           reflexivity.
      * cbn [chunks curr app merge_from]. reflexivity.
    + cbn [app]. destruct (curr st) as [c|] eqn:Ec; [reflexivity|].
      destruct keep_preamble; cbn [chunks curr buf]; rewrite ?Ec;
        reflexivity.
Qed.

(** Once a speaker is set, every line adds its piece to the texts. *)
Lemma split_texts_in_turn (lines : list JS.str) :
  forall st,
    curr st <> None ->
    buf st <> [] ->
    concat (map text (split_finish (fold_left line_step lines st)))
    = concat (map text (chunks st)) ++ buf st
      ++ concat (map (piece who_policy) lines).
Proof.
  induction lines as [|line lines IH]; intros st Hc Hb.
  - cbn [fold_left map concat]. rewrite app_nil_r. unfold split_finish.
    destruct (curr st) as [c|]; [|contradiction].
    destruct (buf st) as [|x b]; [contradiction|].
    cbn [JS.truthy]. rewrite map_app, concat_app. cbn. rewrite app_nil_r.
    reflexivity.
  - cbn [fold_left map concat]. unfold line_step at 2, split_line, piece.
    destruct (curr st) as [c|] eqn:Ec; [|contradiction].
    destruct (who_policy line) as [s|].
    + destruct (Speaker_eqb s c); cbn [negb].
      * rewrite IH; cbn [chunks curr buf];
          [|discriminate|rewrite app_assoc; apply snoc_not_nil].
        rewrite <- !app_assoc. reflexivity.
      * rewrite IH; cbn [chunks curr buf];
          [|discriminate|rewrite app_assoc; apply snoc_not_nil].
        rewrite map_app, concat_app. cbn. rewrite app_nil_r, <- !app_assoc.
        reflexivity.
    + rewrite IH; cbn [chunks curr buf];
        [|first [discriminate|rewrite Ec; discriminate]
         |rewrite app_assoc; apply snoc_not_nil].
      rewrite <- !app_assoc. reflexivity.
Qed.

(** Before the first label: the lines are skipped or kept in the buffer,
    and lost if no label follows. *)
Lemma split_texts_before_label (lines : list JS.str) :
  forall st,
    curr st = None ->
    chunks st = [] ->
    concat (map text (split_finish (fold_left line_step lines st)))
    = if has_label who_policy lines
      then buf st
           ++ concat (map (piece who_policy)
                        (if keep_preamble then lines
                         else from_first_label who_policy lines))
      else [].
Proof.
  induction lines as [|line lines IH]; intros st Hc Hk.
  - cbn. unfold split_finish. rewrite Hc, Hk. reflexivity.
  - cbn [fold_left from_first_label].
    change (has_label who_policy (line :: lines))
      with (match who_policy line with Some _ => true | None => false end
            || has_label who_policy lines).
    destruct (who_policy line) as [s|] eqn:Ew.
    + assert (P : piece who_policy line = strip_label line ++ [32%N])
        by (unfold piece; rewrite Ew; reflexivity).
      assert (S : line_step st line
                  = {| chunks := chunks st; curr := Some s;
                       buf := buf st ++ strip_label line ++ [32%N] |})
        by (unfold line_step, split_line; rewrite Ew, Hc; reflexivity).
      rewrite S, split_texts_in_turn; cbn [chunks curr buf];
        [|discriminate|rewrite app_assoc; apply snoc_not_nil].
      rewrite Hk. cbn [orb map concat app].
      destruct keep_preamble; cbn [map concat]; rewrite P, <- !app_assoc;
        reflexivity.
    + assert (P : piece who_policy line = line ++ [32%N])
        by (unfold piece; rewrite Ew; reflexivity).
      cbn [orb]. unfold line_step at 2, split_line. rewrite Ew, Hc.
      destruct keep_preamble.
      * rewrite IH by (cbn; first [reflexivity|assumption]).
        cbn [buf map concat].
        destruct (has_label who_policy lines); [|reflexivity].
        rewrite P, <- !app_assoc. reflexivity.
      * rewrite IH by assumption. reflexivity.
Qed.

Lemma split_texts_filled (lines : list JS.str) :
  forall st,
    buffer_filled st ->
    Forall (fun c => text c <> []) (chunks st) ->
    Forall (fun c => text c <> [])
      (split_finish (fold_left line_step lines st)).
Proof.
  induction lines as [|line lines IH]; intros st Hf Hk.
  - cbn [fold_left]. unfold split_finish.
    destruct (curr st) as [c|]; [|exact Hk].
    destruct (buf st) as [|x b] eqn:Eb; cbn [JS.truthy]; [exact Hk|].
    apply Forall_app. split; [exact Hk|]. repeat constructor.
    cbn. discriminate.
  - cbn [fold_left]. apply IH; [apply split_line_filled; exact Hf|].
    unfold line_step, split_line.
    destruct (who_policy line) as [s|].
    + destruct (curr st) as [c|] eqn:Ec; [|exact Hk].
      destruct (Speaker_eqb s c); cbn [negb chunks]; [exact Hk|].
      apply Forall_app. split; [exact Hk|]. repeat constructor.
      cbn. apply Hf. rewrite Ec. discriminate.
    + destruct (curr st); [exact Hk|]. destruct keep_preamble; exact Hk.
Qed.

End ChunkStructure.

Lemma initial_splitter_filled :
  buffer_filled {| chunks := []; curr := None; buf := [] |}.
Proof. intro H. cbn in H. contradiction. Qed.

Lemma labels_none (who_policy : JS.str -> option Speaker)
    (lines : list JS.str) :
  (forall l, In l lines -> who_policy l = None) ->
  labels who_policy lines = [].
Proof.
  induction lines as [|l lines IH]; intro H; [reflexivity|].
  unfold labels. cbn [flat_map]. rewrite (H l (or_introl eq_refl)).
  apply IH. intros l' Hl'. apply H. right. exact Hl'.
Qed.

Lemma labels_some (who_policy : JS.str -> option Speaker)
    (lines : list JS.str) (l : JS.str) :
  In l lines -> who_policy l <> None -> labels who_policy lines <> [].
Proof.
  induction lines as [|l' lines IH]; intros Hin Hl; [contradiction|].
  unfold labels. cbn [flat_map].
  destruct Hin as [E|Hin].
  - subst l'. destruct (who_policy l); [discriminate|contradiction].
  - destruct (who_policy l'); [discriminate|]. apply IH; assumption.
Qed.

(** X8: in both revisions the speakers of the chunks are the speakers of
    the labelled lines, in order, with every label that repeats the one
    before left out; so a transcript without a labelled line gives no
    chunk, and one with a labelled line gives at least one. *)
Theorem chunk_speakers_follow_labels :
  forall (who_policy : JS.str -> option Speaker) (keep_preamble : bool)
         (content : JS.str),
    let result := split_by_speaker who_policy keep_preamble content in
    map speaker result
    = merge_repeats (labels who_policy (lines_of content))
    /\ ((forall l, In l (lines_of content) -> who_policy l = None) ->
        result = [])
    /\ (forall l, In l (lines_of content) -> who_policy l <> None ->
        result <> []).
Proof.
  intros who_policy keep_preamble content. cbv zeta.
  assert (E : map speaker (split_by_speaker who_policy keep_preamble content)
              = merge_repeats (labels who_policy (lines_of content))).
  { unfold split_by_speaker, split_lines.
    rewrite split_speakers by exact initial_splitter_filled.
    reflexivity. }
  split; [exact E|]. split.
  - intro H. rewrite (labels_none who_policy _ H) in E.
    apply map_eq_nil in E. exact E.
  - intros l Hin Hl K. rewrite K in E. cbn in E.
    assert (N := labels_some who_policy _ l Hin Hl).
    destruct (labels who_policy (lines_of content)); [contradiction|].
    discriminate E.
Qed.

Lemma after_label_at_colon (before rest : JS.str) (c : N) :
  is_colon c = true ->
  (forall x, In x before ->
             is_colon x = false /\ JS.is_line_terminator x = false) ->
  after_label (before ++ c :: rest) = Some (JS.drop_while JS.is_space rest).
Proof.
  intros Hc. induction before as [|x before IH]; intro H.
  - cbn [app after_label]. rewrite Hc. reflexivity.
  - cbn [app after_label].
    destruct (H x (or_introl eq_refl)) as (H1 & H2). rewrite H1, H2.
    apply IH. intros y Hy. apply H. right. exact Hy.
Qed.

Lemma after_label_at_terminator (before rest : JS.str) (t : N) :
  JS.is_line_terminator t = true ->
  (forall x, In x (before ++ [t]) -> is_colon x = false) ->
  after_label (before ++ t :: rest) = None.
Proof.
  intros Ht. induction before as [|x before IH]; intro H.
  - cbn [app after_label]. rewrite (H t (or_introl eq_refl)), Ht. reflexivity.
  - cbn [app after_label]. rewrite (H x (or_introl eq_refl)).
    destruct (JS.is_line_terminator x); [reflexivity|].
    apply IH. intros y Hy. apply H. right. exact Hy.
Qed.

(** X9: in both revisions no chunk has an empty text, and the texts of
    the chunks, one after the other, are the pieces of the lines in
    order.  The piece of a line without a label is the line and a space.
    The piece of a labelled line is a space, what follows the first colon
    of the line and the white space after it, and a space: what stands
    before the first colon is lost, be it the label or not, and a label
    that comes after an earlier colon stays in the text; when a line
    terminator other than LF stands before every colon the whole line is
    kept.  The current revision leaves out the lines before the first
    label; the earlier one keeps them, in the first chunk; with no label
    at all there is no text. *)
Theorem chunk_texts_keep_the_lines :
  forall (who_policy : JS.str -> option Speaker) (keep_preamble : bool)
         (content : JS.str),
    let result := split_by_speaker who_policy keep_preamble content in
    Forall (fun c => text c <> []) result
    /\ concat (map text result)
       = (if has_label who_policy (lines_of content)
          then concat (map (piece who_policy)
                         (if keep_preamble then lines_of content
                          else from_first_label who_policy (lines_of content)))
          else [])
    /\ (forall line,
          who_policy line = None -> piece who_policy line = line ++ [32%N])
    /\ (forall (before rest : JS.str) (c : N),
          who_policy (before ++ c :: rest) <> None ->
          is_colon c = true ->
          (forall x, In x before ->
                     is_colon x = false /\ JS.is_line_terminator x = false) ->
          piece who_policy (before ++ c :: rest)
          = 32%N :: JS.drop_while JS.is_space rest ++ [32%N])
    /\ (forall (before rest : JS.str) (t : N),
          who_policy (before ++ t :: rest) <> None ->
          JS.is_line_terminator t = true ->
          (forall x, In x (before ++ [t]) -> is_colon x = false) ->
          piece who_policy (before ++ t :: rest)
          = (before ++ t :: rest) ++ [32%N]).
Proof.
  intros who_policy keep_preamble content. cbv zeta.
  unfold split_by_speaker, split_lines. split; [|split; [|split; [|split]]].
  - apply split_texts_filled; [exact initial_splitter_filled|constructor].
  - rewrite split_texts_before_label by reflexivity. reflexivity.
  - intros line H. unfold piece. rewrite H. reflexivity.
  - intros before rest c Hw Hc Hb. unfold piece, strip_label.
    destruct (who_policy (before ++ c :: rest)); [|contradiction].
    rewrite (after_label_at_colon before rest c Hc Hb). reflexivity.
  - intros before rest t Hw Ht Hb. unfold piece, strip_label.
    destruct (who_policy (before ++ t :: rest)); [|contradiction].
    rewrite (after_label_at_terminator before rest t Ht Hb). reflexivity.
Qed.

Lemma chunk_texts_witness :
  piece who (JS.lit "12:30 Guest: b") = JS.lit " 30 Guest: b "
  /\ piece who (JS.lit "so Guest: b") = JS.lit " b ".
Proof.
  assert (C : forall x, In x (JS.lit "12") ->
              is_colon x = false /\ JS.is_line_terminator x = false).
  { intros x [H|[H|[]]]; subst x; split; reflexivity. }
  assert (D : forall x, In x (JS.lit "so Guest") ->
              is_colon x = false /\ JS.is_line_terminator x = false).
  { intros x [H|[H|[H|[H|[H|[H|[H|[H|[]]]]]]]]]; subst x; split; reflexivity. }
  split.
  - exact (proj1 (proj2 (proj2 (proj2
             (chunk_texts_keep_the_lines who false []))))
             (JS.lit "12") (JS.lit "30 Guest: b") 58%N
             ltac:(vm_compute; discriminate) eq_refl C).
  - exact (proj1 (proj2 (proj2 (proj2
             (chunk_texts_keep_the_lines who false []))))
             (JS.lit "so Guest") (JS.lit " b") 58%N
             ltac:(vm_compute; discriminate) eq_refl D).
Defined.

Lemma split_line_agree (w1 w2 : JS.str -> option Speaker) (k1 k2 : bool)
    (st : Splitter) (line : JS.str) :
  curr st <> None ->
  w1 line = w2 line ->
  split_line w1 k1 st line = split_line w2 k2 st line
  /\ curr (split_line w1 k1 st line) <> None.
Proof.
  intros Hc Hw. unfold split_line. rewrite <- Hw.
  destruct (w1 line) as [s|].
  - split; [reflexivity|discriminate].
  - destruct (curr st) as [c|] eqn:Ec; [|contradiction].
    split; [reflexivity|]. cbn. discriminate.
Qed.

Lemma fold_split_line_agree (w1 w2 : JS.str -> option Speaker)
    (k1 k2 : bool) (lines : list JS.str) :
  forall st,
    curr st <> None ->
    (forall l, In l lines -> w1 l = w2 l) ->
    fold_left (split_line w1 k1) lines st
    = fold_left (split_line w2 k2) lines st.
Proof.
  induction lines as [|line lines IH]; intros st Hc Hw; [reflexivity|].
  cbn [fold_left].
  destruct (split_line_agree w1 w2 k1 k2 st line Hc
              (Hw line (or_introl eq_refl))) as [E N].
  rewrite <- E. apply IH; [exact N|].
  intros l Hl. apply Hw. right. exact Hl.
Qed.

(** X10: the two revisions split a transcript alike when both [who]
    give the same answer on each of its lines and no line stands before
    the first labelled one. *)
Theorem revisions_agree_on_labelled_transcripts :
  forall (content : JS.str),
    (forall l, In l (lines_of content) -> who l = who_v1 l) ->
    from_first_label who (lines_of content) = lines_of content ->
    splitBySpeaker content = splitBySpeaker_v1 content.
Proof.
  intros content Hw Hp.
  unfold splitBySpeaker, splitBySpeaker_v1, split_by_speaker, split_lines.
  fold (lines_of content).
  destruct (lines_of content) as [|line lines]; [reflexivity|].
  cbn [fold_left]. f_equal.
  assert (L : who line <> None).
  { cbn [from_first_label] in Hp. destruct (who line) eqn:E;
      [discriminate|].
    exfalso.
    assert (K : forall ls, length (from_first_label who ls) <= length ls).
    { induction ls as [|x ls IHls]; cbn; [lia|].
      destruct (who x); cbn; lia. }
    specialize (K lines). rewrite Hp in K. cbn in K. lia. }
  assert (E0 : split_line who false
                 {| chunks := []; curr := None; buf := [] |} line
               = split_line who_v1 true
                   {| chunks := []; curr := None; buf := [] |} line).
  { unfold split_line. rewrite <- (Hw line (or_introl eq_refl)).
    destruct (who line); [reflexivity|contradiction]. }
  rewrite <- E0. apply fold_split_line_agree.
  - unfold split_line. destruct (who line); [discriminate|contradiction].
  - intros l Hl. apply Hw. right. exact Hl.
Qed.

Lemma revisions_agree_witness :
  ((forall l, In l (lines_of three_turns) -> who l = who_v1 l)
   /\ from_first_label who (lines_of three_turns) = lines_of three_turns)
  /\ splitBySpeaker three_turns = splitBySpeaker_v1 three_turns.
Proof.
  assert (H : forall l, In l (lines_of three_turns) -> who l = who_v1 l).
  { intros l Hl. vm_compute in Hl.
    destruct Hl as [E|[E|[E|[]]]]; subst l; reflexivity. }
  split; [split; [exact H|reflexivity]|].
  exact (revisions_agree_on_labelled_transcripts three_turns H eq_refl).
Defined.

(* ================================================================== *)
(** ** A whole run *)

Lemma save_outcome (tp tr : JS.str) (segs : Arr PodcastSegment.t)
    (w : Ambient) (x : State) :
  exists olds,
    map to_json olds = stored_history (storage x)
    /\ ui (savePodcastToHistory tp tr segs w x)
       = (if save_succeeds (storage x) w
          then setPodcastHistory
                 (firstn 10 (stored_podcast tp tr segs w :: olds)) (ui x)
          else ui x)
    /\ storage (savePodcastToHistory tp tr segs w x)
       = storage_after_save (storage x) (new_podcast tp tr segs w) w.
Proof.
  unfold storage_after_save. rewrite save_storage.
  unfold savePodcastToHistory, parse, save_succeeds.
  destruct (storage x) as [|h|] eqn:Es.
  - exists []. destruct (setItem_ok w); cbn -[firstn]; auto.
  - exists (parse_from (heap x) h). rewrite to_json_parse_from.
    destruct (setItem_ok w); cbn -[firstn]; auto.
  - exists []. auto.
Qed.

(** The end of the loop: the list is installed, the save is tried, the
    loading flag goes off. *)
Lemma tts_loop_end (tp key content : JS.str) (segs : Arr PodcastSegment.t)
    (w : Ambient) (x : State) (before : Component) :
  let s' := render before (tts_loop tp key content [] segs w x) in
  exists olds,
    map to_json olds = stored_history (storage x)
    /\ ui s' = component_after_run (ui x) tp content segs w
                 (save_succeeds (storage x) w) olds
    /\ storage s'
       = storage_after_save (storage x) (new_podcast tp content segs w) w
    /\ inflight s' = None
    /\ requests s' = requests x.
Proof.
  cbv zeta.
  destruct (render_frame before (tts_loop tp key content [] segs w x))
    as (E1 & E2 & E3 & E4 & _).
  rewrite E1, E2, E3, E4. cbn [tts_loop]. unfold finish.
  cbn [ui inflight storage requests set_inflight upd_ui].
  destruct (save_outcome tp content segs w (upd_ui (setSegments segs) x))
    as (olds & O1 & O2 & O3).
  destruct (save_frame tp content segs w (upd_ui (setSegments segs) x))
    as (_ & _ & _ & _ & _ & _ & F7 & _).
  exists olds. cbn [storage ui upd_ui] in O1, O2, O3.
  rewrite O2, O3, F7. unfold component_after_run.
  repeat split; try assumption; reflexivity.
Qed.

(** The loop run to its end, in full: the component, the storage and
    the requests. *)
Lemma synthesis_outcome (tp key content : JS.str)
    (chunks_ : list Chunk) (replies : list Reply)
    (segs : Arr PodcastSegment.t) (w : Ambient) (s : State)
    (before : Component) :
  length replies = length chunks_ ->
  all_ok replies ->
  let s' := run (map reply_event replies)
              (render before (tts_loop tp key content chunks_ segs w s)) in
  let final := {| ref := ref segs;
                  items := items segs ++ segments_of replies chunks_ |} in
  let wl := final_ambient replies w in
  exists olds,
    map to_json olds = stored_history (storage s)
    /\ ui s' = component_after_run (ui s) tp content final wl
                 (save_succeeds (storage s) wl) olds
    /\ storage s'
       = storage_after_save (storage s) (new_podcast tp content final wl) wl
    /\ inflight s' = None
    /\ requests s' = requests s ++ map (speech_request key) chunks_.
Proof.
  intros Hlen Hok. cbv zeta. unfold final_ambient.
  destruct replies as [|r oks _] using rev_ind.
  - destruct chunks_; [|discriminate Hlen].
    change (run (map reply_event []) ?x) with x.
    cbn [segments_of map last]. rewrite Arr_eta, app_nil_r.
    apply tts_loop_end.
  - apply all_ok_app in Hok. destruct Hok as [Hoks Hr].
    inversion Hr as [|r' l' Hr' _]; subst.
    rewrite length_app in Hlen. simpl in Hlen.
    destruct (synthesis_in_progress tp key content oks chunks_ segs w s before)
      as (I1 & I2 & I3 & chunk & rest & I4 & I5); [lia|exact Hoks|].
    assert (rest = []).
    { assert (L : length (skipn (length oks) chunks_) = 1)
        by (rewrite length_skipn; lia).
      rewrite I4 in L. destruct rest; [reflexivity|discriminate L]. }
    subst rest.
    revert I1 I2 I3 I5.
    rewrite map_app, run_app. cbn [map].
    change (run [?e] ?x) with (step x e).
    set (Y := run (map reply_event oks)
                (render before (tts_loop tp key content chunks_ segs w s))).
    intros I1 I2 I3 I5.
    rewrite (step_speech_ok tp key content chunk [] _ r Y I5 Hr').
    cbn [ref items].
    rewrite map_app. cbn [map]. rewrite last_last.
    rewrite (segments_of_snoc oks chunks_ r chunk [] I4), app_assoc.
    destruct (tts_loop_end tp key content
                {| ref := ref segs;
                   items := (items segs ++ segments_of oks chunks_)
                            ++ [segment_of r chunk] |}
                (reply_ambient r) Y (ui Y))
      as (olds & O1 & O2 & O3 & O4 & O5).
    exists olds. rewrite O2, O3, O4, O5, I1, I2, I3 in *.
    assert (F : firstn (S (length oks)) chunks_ = chunks_)
      by (apply firstn_all2; lia).
    rewrite F. auto.
Qed.

Lemma truthy_true (v : JS.str) : v <> [] -> JS.truthy v = true.
Proof. destruct v; [contradiction|reflexivity]. Qed.

(** A click on Generate that passes the three checks. *)
Lemma generate_starts (s : State) :
  loading (ui s) = false ->
  apiKey (ui s) <> [] ->
  openaiKey (ui s) <> [] ->
  topic (ui s) <> [] ->
  let s1 := step s ClickGenerate in
  ui s1
  = setAudioReady false
      (setCurrentIdx 0
         (setSegments {| ref := heap s; items := [] |}
            (setTranscript [] (setLoading true (setError [] (ui s))))))
  /\ inflight s1 = Some (AwaitTranscript (topic (ui s)) (openaiKey (ui s)))
  /\ requests s1
     = requests s ++ [GenerateContent (apiKey (ui s)) (topic (ui s))]
  /\ storage s1 = storage s.
Proof.
  intros Hl Ha Ho Ht. cbv zeta. unfold step.
  destruct (render_frame (ui s) (handle ClickGenerate s))
    as (E1 & E2 & E3 & E4 & _).
  rewrite E1, E2, E3, E4. cbn [handle]. rewrite Hl.
  unfold generatePodcast, new_array.
  cbn [ui upd_ui apiKey openaiKey topic setError].
  rewrite (truthy_true _ Ha), (truthy_true _ Ho), (truthy_true _ Ht).
  cbn. auto.
Qed.

(** X12: a run from the click to the last reply, with nothing in
    between and every reply a success.  At its end the transcript is the
    text returned, the list installed holds one segment for each chunk of
    that text, the index is 0, there is no error and the loading flag is
    off; the requests sent are the one for the transcript, with the key
    and the topic of the click, and one for each chunk in order; and the
    podcast saved holds the topic of the click, the text and the array
    that was installed: it is the first podcast of the history when the
    save goes through, and the history is left as it was when it does
    not. *)
Theorem whole_run_outcome :
  forall (s : State) (content : JS.str) (replies : list Reply) (w : Ambient),
    loading (ui s) = false ->
    apiKey (ui s) <> [] ->
    openaiKey (ui s) <> [] ->
    topic (ui s) <> [] ->
    length replies = length (splitBySpeaker content) ->
    all_ok replies ->
    let s' := run (whole_run content w replies) s in
    let wl := final_ambient replies w in
    transcript (ui s') = content
    /\ items (segments (ui s')) = segments_of replies (splitBySpeaker content)
    /\ currentIdx (ui s') = 0
    /\ error (ui s') = []
    /\ loading (ui s') = false
    /\ inflight s' = None
    /\ requests s'
       = requests s
         ++ GenerateContent (apiKey (ui s)) (topic (ui s))
            :: map (speech_request (openaiKey (ui s))) (splitBySpeaker content)
    /\ storage s'
       = storage_after_save (storage s)
           (new_podcast (topic (ui s)) content (segments (ui s')) wl) wl
    /\ (save_succeeds (storage s) wl = true ->
        hd_error (podcastHistory (ui s'))
        = Some (stored_podcast (topic (ui s)) content (segments (ui s')) wl)
        /\ map to_json (podcastHistory (ui s'))
           = stored_history (storage s'))
    /\ (save_succeeds (storage s) wl = false ->
        podcastHistory (ui s') = podcastHistory (ui s)).
Proof.
  intros s content replies w Hl Ha Ho Ht Hlen Hok. cbv zeta.
  destruct (generate_starts s Hl Ha Ho Ht) as (G1 & G2 & G3 & G4).
  unfold whole_run.
  change (run (?a :: ?b :: ?es) s) with (run es (step (step s a) b)).
  set (s1 := step s ClickGenerate) in *.
  assert (T : step s1 (TranscriptReturns (Some content) w)
              = render (ui s1)
                  (tts_loop (topic (ui s)) (openaiKey (ui s)) content
                     (splitBySpeaker content)
                     {| ref := heap s1; items := [] |} w
                     (set_heap (S (heap s1))
                        (upd_ui (setTranscript content) s1)))).
  { unfold step at 1. cbn [handle]. rewrite G2. reflexivity. }
  rewrite T.
  destruct (synthesis_outcome (topic (ui s)) (openaiKey (ui s)) content
              (splitBySpeaker content) replies
              {| ref := heap s1; items := [] |} w
              (set_heap (S (heap s1)) (upd_ui (setTranscript content) s1))
              (ui s1) Hlen Hok)
    as (olds & O1 & O2 & O3 & O4 & O5).
  cbn [ref items app ui storage requests set_heap upd_ui] in O1, O2, O3, O5.
  rewrite O2, O3, O4, O5. rewrite G4 in O1. rewrite G1, G3, G4.
  unfold component_after_run.
  set (final := {| ref := heap s1;
                   items := segments_of replies (splitBySpeaker content) |}).
  set (wl := final_ambient replies w).
  destruct (save_succeeds (storage s) wl) eqn:Ev.
  - split; [reflexivity|]. split; [reflexivity|]. split; [reflexivity|].
    split; [reflexivity|]. split; [reflexivity|]. split; [reflexivity|].
    split; [rewrite <- app_assoc; reflexivity|].
    split; [reflexivity|]. split; [|discriminate].
    intros _. cbn -[firstn]. split; [rewrite firstn_cons; reflexivity|].
    unfold storage_after_save. rewrite Ev.
    cbn [stored_history]. rewrite <- firstn_map. cbn [map].
    rewrite O1. reflexivity.
  - split; [reflexivity|]. split; [reflexivity|]. split; [reflexivity|].
    split; [reflexivity|]. split; [reflexivity|]. split; [reflexivity|].
    split; [rewrite <- app_assoc; reflexivity|].
    split; [reflexivity|]. split; [discriminate|].
    intros _. reflexivity.
Qed.

Lemma whole_run_witness :
  (loading (ui tea_page) = false
   /\ apiKey (ui tea_page) <> []
   /\ openaiKey (ui tea_page) <> []
   /\ topic (ui tea_page) <> []
   /\ length [ok_reply "blob:1" 1; ok_reply "blob:2" 2]
      = length (splitBySpeaker two_turns)
   /\ all_ok [ok_reply "blob:1" 1; ok_reply "blob:2" 2])
  /\ transcript
       (ui (run (whole_run two_turns (at_time 0 true)
                   [ok_reply "blob:1" 1; ok_reply "blob:2" 2]) tea_page))
     = two_turns.
Proof.
  assert (Ha : apiKey (ui tea_page) <> []) by (vm_compute; discriminate).
  assert (Ho : openaiKey (ui tea_page) <> []) by (vm_compute; discriminate).
  assert (Ht : topic (ui tea_page) <> []) by (vm_compute; discriminate).
  assert (Hok : all_ok [ok_reply "blob:1" 1; ok_reply "blob:2" 2])
    by (repeat constructor).
  split; [repeat split; try assumption; reflexivity|].
  exact (proj1 (whole_run_outcome tea_page two_turns
                  [ok_reply "blob:1" 1; ok_reply "blob:2" 2] (at_time 0 true)
                  eq_refl Ha Ho Ht eq_refl Hok)).
Defined.

(* ================================================================== *)
(** ** The checks of [generatePodcast] *)

Lemma render_same_deps (before : Component) (x : State) :
  deps_changed before (ui x) = false ->
  sink (render before x) = sink x.
Proof.
  intro H. unfold render.
  destruct (items (segments (ui x))).
  - cbn [ui set_audio]. rewrite H. reflexivity.
  - destruct (audio x); cbn [ui set_audio]; rewrite H; reflexivity.
Qed.

Lemma deps_changed_same (c : Component) : deps_changed c c = false.
Proof.
  unfold deps_changed. rewrite !Nat.eqb_refl.
  destruct (playbackSpeed c); reflexivity.
Qed.

Lemma trim_blank (v : JS.str) : blank v -> JS.trim v = [].
Proof.
  intro H. unfold JS.trim.
  assert (E : JS.drop_while JS.is_space v = []).
  { induction H as [|c v Hc Hv IH]; [reflexivity|].
    cbn [JS.drop_while]. rewrite Hc. exact IH. }
  rewrite E. reflexivity.
Qed.

(** X11: a click on Generate while a key or the topic is missing sets
    the message of the first check that fails, and does nothing else: no
    request is sent, no run starts, and the podcast on the page, its
    index, the storage and the [<audio>] element are left alone.  A key
    typed as white space only is a missing key. *)
Theorem generate_rejects_missing_input :
  (forall (s : State),
      loading (ui s) = false ->
      apiKey (ui s) = [] \/ openaiKey (ui s) = [] \/ topic (ui s) = [] ->
      let s' := step s ClickGenerate in
      ui s' = setError (missing_input (ui s)) (ui s)
      /\ requests s' = requests s
      /\ inflight s' = inflight s
      /\ storage s' = storage s
      /\ sink s' = sink s)
  /\ (forall (s : State) (v : JS.str),
        blank v ->
        loading (ui s) = false ->
        let s' := run [ApiKeyChange v; ClickGenerate] s in
        error (ui s') = JS.lit "Please provide your Gemini API key."
        /\ requests s' = requests s
        /\ inflight s' = inflight s).
Proof.
  assert (P : forall s,
            loading (ui s) = false ->
            apiKey (ui s) = [] \/ openaiKey (ui s) = [] \/ topic (ui s) = [] ->
            ui (step s ClickGenerate) = setError (missing_input (ui s)) (ui s)
            /\ requests (step s ClickGenerate) = requests s
            /\ inflight (step s ClickGenerate) = inflight s
            /\ storage (step s ClickGenerate) = storage s
            /\ sink (step s ClickGenerate) = sink s).
  { intros s Hl Hm. unfold step.
    destruct (render_frame (ui s) (handle ClickGenerate s))
      as (E1 & E2 & E3 & E4 & _).
    rewrite E1, E2, E3, E4.
    assert (G : handle ClickGenerate s
                = upd_ui (setError (missing_input (ui s)))
                    (upd_ui (setError []) s)).
    { cbn [handle]. rewrite Hl. unfold generatePodcast, missing_input.
      cbn [ui upd_ui apiKey openaiKey topic setError].
      destruct (JS.truthy (apiKey (ui s))) eqn:Ta; [|reflexivity].
      destruct (JS.truthy (openaiKey (ui s))) eqn:To; [|reflexivity].
      destruct (JS.truthy (topic (ui s))) eqn:Tt; [|reflexivity].
      exfalso. destruct Hm as [H|[H|H]]; rewrite H in *; discriminate. }
    rewrite G. cbn [ui upd_ui requests inflight storage].
    repeat split; try reflexivity.
    rewrite render_same_deps; [reflexivity|].
    unfold deps_changed. cbn. rewrite !Nat.eqb_refl.
    destruct (playbackSpeed (ui s)); reflexivity. }
  split; [exact P|].
  intros s v Hv Hl. cbv zeta.
  change (run [?a; ?b] s) with (step (step s a) b).
  set (s1 := step s (ApiKeyChange v)).
  assert (U : ui s1 = setApiKey [] (ui s)).
  { unfold s1, step. rewrite render_ui. cbn [handle].
    unfold handleApiKeyChange. rewrite (trim_blank v Hv). reflexivity. }
  assert (F : requests s1 = requests s /\ inflight s1 = inflight s).
  { unfold s1, step.
    destruct (render_frame (ui s) (handle (ApiKeyChange v) s))
      as (_ & E2 & _ & E4 & _).
    rewrite E2, E4. split; reflexivity. }
  destruct F as [F1 F2].
  destruct (P s1) as (Q1 & Q2 & Q3 & _).
  - rewrite U. exact Hl.
  - left. rewrite U. reflexivity.
  - rewrite Q1, Q2, Q3, F1, F2. unfold missing_input. rewrite U.
    repeat split; reflexivity.
Qed.

Lemma generate_rejects_witness :
  (loading (ui fresh_page) = false
   /\ (apiKey (ui fresh_page) = [] \/ openaiKey (ui fresh_page) = []
       \/ topic (ui fresh_page) = []))
  /\ requests (step fresh_page ClickGenerate) = requests fresh_page.
Proof.
  split; [split; [reflexivity|right; right; reflexivity]|].
  exact (proj1 (proj2 (proj1 generate_rejects_missing_input fresh_page
                         eq_refl (or_intror (or_intror eq_refl))))).
Defined.

(** X13: the speech requests go out one at a time, in the order of the
    chunks: once [k] replies have come, all successes, and chunks are
    left, the requests sent are those for the first [k + 1] chunks, each
    with the text of its chunk and the voice of its speaker; when a
    reply has come for every chunk, they are those for all the chunks. *)
Theorem speech_requests_in_order :
  forall (tp key content : JS.str) (chunks_ : list Chunk)
         (replies : list Reply) (w : Ambient) (s : State),
    length replies <= length chunks_ ->
    all_ok replies ->
    requests (synthesize tp key content chunks_ replies w s)
    = requests s
      ++ map (fun chunk =>
                Speech key
                  (match speaker chunk with host => alloy | guest => nova end)
                  (text chunk))
           (firstn (S (length replies)) chunks_).
Proof.
  intros tp key content chunks_ replies w s Hlen Hok.
  rewrite synthesize_unfold.
  assert (E : forall l,
            map (fun chunk =>
                   Speech key
                     (match speaker chunk with host => alloy | guest => nova end)
                     (text chunk)) l
            = map (speech_request key) l) by reflexivity.
  rewrite E.
  destruct (Nat.eq_dec (length replies) (length chunks_)) as [Heq|Hne].
  - destruct (synthesis_completes tp key content chunks_ replies
                {| ref := heap s; items := [] |} w (set_heap (S (heap s)) s)
                (ui s) Heq Hok) as (_ & _ & _ & _ & _ & R & _).
    rewrite R, firstn_all2 by lia. reflexivity.
  - destruct (synthesis_in_progress tp key content replies chunks_
                {| ref := heap s; items := [] |} w (set_heap (S (heap s)) s)
                (ui s)) as (_ & _ & R & _); [lia|exact Hok|].
    exact R.
Qed.

Lemma speech_requests_witness :
  (length [ok_reply "blob:1" 1] <= length (splitBySpeaker three_turns)
   /\ all_ok [ok_reply "blob:1" 1])
  /\ requests (synthesize (JS.lit "tea") (JS.lit "o-key") three_turns
                 (splitBySpeaker three_turns) [ok_reply "blob:1" 1]
                 (at_time 0 true) fresh_page)
     = [Speech (JS.lit "o-key") alloy (JS.lit " a ");
        Speech (JS.lit "o-key") nova (JS.lit " b ")].
Proof.
  assert (Hok : all_ok [ok_reply "blob:1" 1]) by (repeat constructor).
  assert (Hl : length [ok_reply "blob:1" 1]
               <= length (splitBySpeaker three_turns))
    by (vm_compute; lia).
  split; [split; assumption|].
  exact (speech_requests_in_order (JS.lit "tea") (JS.lit "o-key") three_turns
           (splitBySpeaker three_turns) [ok_reply "blob:1" 1]
           (at_time 0 true) fresh_page Hl Hok).
Defined.

Lemma split_without_label (who_policy : JS.str -> option Speaker)
    (keep_preamble : bool) (content : JS.str) :
  (forall l, In l (lines_of content) -> who_policy l = None) ->
  split_by_speaker who_policy keep_preamble content = [].
Proof.
  intro H. apply (map_eq_nil speaker).
  unfold split_by_speaker, split_lines.
  rewrite split_speakers by exact initial_splitter_filled.
  fold (lines_of content). rewrite (labels_none who_policy _ H). reflexivity.
Qed.

(** X14: when the text returned for the transcript has no labelled
    line, or when there is no text, the run ends at once without an
    error: the text is shown, the list installed is empty, no speech
    request is sent, and a podcast without segments is saved to the
    history like any other.  When the call for the transcript throws,
    its message is shown, the run ends and nothing is sent, installed or
    saved. *)
Theorem transcript_without_chunks :
  (forall (s : State) (tp key : JS.str) (response_text : option JS.str)
          (w : Ambient),
      inflight s = Some (AwaitTranscript tp key) ->
      (forall l,
          In l (lines_of (match response_text with Some t => t | None => [] end)) ->
          who l = None) ->
      let content := match response_text with Some t => t | None => [] end in
      let s' := step s (TranscriptReturns response_text w) in
      transcript (ui s') = content
      /\ items (segments (ui s')) = []
      /\ requests s' = requests s
      /\ error (ui s') = error (ui s)
      /\ loading (ui s') = false
      /\ inflight s' = None
      /\ storage s'
         = storage_after_save (storage s)
             {| StoredPodcast.id := JS.of_Z (now_id w);
                StoredPodcast.topic := tp;
                StoredPodcast.transcript := content;
                StoredPodcast.segments := [];
                StoredPodcast.createdAt := now_createdAt w |} w)
  /\ (forall (s : State) (tp key message : JS.str),
        inflight s = Some (AwaitTranscript tp key) ->
        let s' := step s (TranscriptThrows message) in
        error (ui s') = message
        /\ loading (ui s') = false
        /\ inflight s' = None
        /\ requests s' = requests s
        /\ segments (ui s') = segments (ui s)
        /\ transcript (ui s') = transcript (ui s)
        /\ storage s' = storage s
        /\ podcastHistory (ui s') = podcastHistory (ui s)).
Proof.
  split.
  - intros s tp key response_text w Hin Hno. cbv zeta.
    set (content := match response_text with Some t => t | None => [] end) in *.
    assert (T : step s (TranscriptReturns response_text w)
                = render (ui s)
                    (tts_loop tp key content []
                       {| ref := heap s; items := [] |} w
                       (set_heap (S (heap s))
                          (upd_ui (setTranscript content) s)))).
    { unfold step. cbn [handle]. rewrite Hin.
      unfold on_transcript, new_array. fold content.
      unfold splitBySpeaker.
      rewrite (split_without_label who false content Hno). reflexivity. }
    rewrite T.
    destruct (tts_loop_end tp key content {| ref := heap s; items := [] |} w
                (set_heap (S (heap s)) (upd_ui (setTranscript content) s))
                (ui s)) as (olds & _ & O2 & O3 & O4 & O5).
    rewrite O2, O3, O4, O5. unfold component_after_run.
    cbn [ui storage requests set_heap upd_ui].
    destruct (save_succeeds (storage s) w); repeat split; reflexivity.
  - intros s tp key message Hin. cbv zeta. unfold step.
    destruct (render_frame (ui s) (handle (TranscriptThrows message) s))
      as (E1 & E2 & E3 & E4 & _).
    rewrite E1, E2, E3, E4. cbn [handle]. rewrite Hin.
    repeat split; reflexivity.
Qed.

Lemma transcript_without_chunks_witness :
  (inflight (step tea_page ClickGenerate)
   = Some (AwaitTranscript (JS.lit "tea") (JS.lit "o-key"))
   /\ (forall l,
         In l (lines_of (match Some (JS.lit "no label here") with
                         | Some t => t
                         | None => []
                         end)) ->
         who l = None))
  /\ items (segments (ui (step (step tea_page ClickGenerate)
                            (TranscriptReturns (Some (JS.lit "no label here"))
                               (at_time 5 true)))))
     = [].
Proof.
  assert (Hin : inflight (step tea_page ClickGenerate)
                = Some (AwaitTranscript (JS.lit "tea") (JS.lit "o-key")))
    by (vm_compute; reflexivity).
  assert (Hno : forall l,
            In l (lines_of (match Some (JS.lit "no label here") with
                            | Some t => t
                            | None => []
                            end)) ->
            who l = None).
  { intros l Hl. vm_compute in Hl. destruct Hl as [E|[]]. subst l.
    reflexivity. }
  split; [split; assumption|].
  exact (proj1 (proj2 (proj1 transcript_without_chunks
                         (step tea_page ClickGenerate)
                         (JS.lit "tea") (JS.lit "o-key")
                         (Some (JS.lit "no label here")) (at_time 5 true)
                         Hin Hno))).
Defined.

(* ================================================================== *)
(** ** The history: loading, clearing, and what writes it *)

Lemma insert_desc_perm (x : Stored) (l : list Stored) :
  Permutation (insert_desc x l) (x :: l).
Proof.
  induction l as [|y l IH]; cbn [insert_desc]; [reflexivity|].
  destruct (StoredPodcast.createdAt y <=? StoredPodcast.createdAt x)%Z;
    [reflexivity|].
  rewrite IH. apply perm_swap.
Qed.

Lemma sort_desc_perm (l : list Stored) : Permutation (sort_desc l) l.
Proof.
  induction l as [|x l IH]; [reflexivity|].
  cbn [sort_desc fold_right]. fold (sort_desc l).
  rewrite insert_desc_perm. constructor. exact IH.
Qed.

Lemma insert_desc_descending (x : Stored) (l : list Stored) :
  descending (map StoredPodcast.createdAt l) ->
  descending (map StoredPodcast.createdAt (insert_desc x l)).
Proof.
  induction l as [|y l IH]; intro H; cbn [insert_desc]; [cbn; auto|].
  destruct (StoredPodcast.createdAt y <=? StoredPodcast.createdAt x)%Z eqn:E.
  - apply Z.leb_le in E. cbn [map descending]. split; [exact E|exact H].
  - apply Z.leb_gt in E. cbn [map] in H. destruct H as [Hh Ht].
    specialize (IH Ht). cbn [map]. split; [|exact IH].
    destruct l as [|z l]; cbn [insert_desc map].
    + lia.
    + destruct (StoredPodcast.createdAt z <=? StoredPodcast.createdAt x)%Z;
        cbn [map]; [lia|exact Hh].
Qed.

Lemma sort_desc_descending (l : list Stored) :
  descending (map StoredPodcast.createdAt (sort_desc l)).
Proof.
  induction l as [|x l IH]; [exact I|].
  cbn [sort_desc fold_right]. fold (sort_desc l).
  apply insert_desc_descending. exact IH.
Qed.

Lemma sort_desc_sorted (l : list Stored) :
  descending (map StoredPodcast.createdAt l) -> sort_desc l = l.
Proof.
  induction l as [|x l IH]; intro H; [reflexivity|].
  cbn [sort_desc fold_right]. fold (sort_desc l).
  cbn [map] in H. destruct H as [Hh Ht]. rewrite (IH Ht).
  destruct l as [|y l]; [reflexivity|].
  cbn [insert_desc]. cbn [map] in Hh. apply Z.leb_le in Hh. rewrite Hh.
  reflexivity.
Qed.

Lemma parse_from_createdAt (h : list StoredJson) (r : nat) :
  map StoredPodcast.createdAt (parse_from r h)
  = map StoredPodcast.createdAt h.
Proof.
  revert r. induction h as [|p h IH]; intro r; [reflexivity|].
  cbn [parse_from map]. rewrite IH. reflexivity.
Qed.

(** X15: the history shown when the page opens is the stored one put
    in the order of [createdAt], newest first: the same podcasts, none
    lost or added; a stored list that is in that order already is shown
    as it is; and the storage is not written.  With no entry, or with one
    that cannot be parsed, the history shown is empty. *)
Theorem history_loaded_newest_first :
  forall (k1 k2 : JS.str),
    (forall h,
        let s := mount k1 k2 (Json h) in
        Permutation (map to_json (podcastHistory (ui s))) h
        /\ descending (map StoredPodcast.createdAt (podcastHistory (ui s)))
        /\ (descending (map StoredPodcast.createdAt h) ->
            map to_json (podcastHistory (ui s)) = h)
        /\ storage s = Json h)
    /\ podcastHistory (ui (mount k1 k2 Absent)) = []
    /\ podcastHistory (ui (mount k1 k2 Garbage)) = []
    /\ storage (mount k1 k2 Garbage) = Garbage.
Proof.
  intros k1 k2. split; [|repeat split; reflexivity].
  intro h. cbv zeta. unfold mount, loadPodcastHistory, parse.
  cbn [storage ui upd_ui set_heap podcastHistory setPodcastHistory heap].
  split; [|split; [|split; [|reflexivity]]].
  - rewrite <- (to_json_parse_from h 1) at 2.
    apply Permutation_map. apply sort_desc_perm.
  - apply sort_desc_descending.
  - intro H. rewrite sort_desc_sorted.
    + apply to_json_parse_from.
    + rewrite parse_from_createdAt. exact H.
Qed.

Lemma history_loaded_witness :
  descending (map StoredPodcast.createdAt (map saved (rev eleven_saves)))
  /\ map to_json
       (podcastHistory
          (ui (mount [] [] (Json (map saved (rev eleven_saves))))))
     = map saved (rev eleven_saves).
Proof.
  assert (H : descending
                (map StoredPodcast.createdAt (map saved (rev eleven_saves))))
    by (vm_compute; repeat split; discriminate).
  split; [exact H|].
  exact (proj1 (proj2 (proj2 (proj1 (history_loaded_newest_first [] [])
                                (map saved (rev eleven_saves))))) H).
Defined.



(** X17: Clear All, with the history shown and not empty, removes the
    entry from the storage and empties the history shown, and leaves the
    podcast on the page, the run in flight and the [<audio>] element
    alone; a page opened on that storage shows no history; and the next
    save that succeeds stores the new podcast alone. *)
Theorem clear_all_empties_history :
  forall (s : State),
    showHistory (ui s) = true ->
    podcastHistory (ui s) <> [] ->
    let s' := step s ClickClearAll in
    storage s' = Absent
    /\ podcastHistory (ui s') = []
    /\ segments (ui s') = segments (ui s)
    /\ transcript (ui s') = transcript (ui s)
    /\ currentIdx (ui s') = currentIdx (ui s)
    /\ inflight s' = inflight s
    /\ sink s' = sink s
    /\ (forall k1 k2, podcastHistory (ui (mount k1 k2 (storage s'))) = [])
    /\ (forall tp tr segs w,
          setItem_ok w = true ->
          storage (savePodcastToHistory tp tr segs w s')
          = Json [new_podcast tp tr segs w]).
Proof.
  intros s Hshow Hne. cbv zeta.
  assert (H : handle ClickClearAll s = clearHistory s).
  { cbn [handle]. rewrite Hshow.
    destruct (podcastHistory (ui s)); [contradiction|reflexivity]. }
  unfold step. rewrite H.
  destruct (render_frame (ui s) (clearHistory s)) as (E1 & E2 & E3 & _).
  rewrite E1, E2, E3.
  assert (Sk : sink (render (ui s) (clearHistory s)) = sink s).
  { rewrite render_same_deps; [reflexivity|].
    unfold deps_changed. cbn. rewrite !Nat.eqb_refl.
    destruct (playbackSpeed (ui s)); reflexivity. }
  repeat split; try reflexivity; try exact Sk.
  intros tp tr segs w Hw. rewrite save_storage, E3, Hw. reflexivity.
Qed.

Lemma clear_all_witness :
  (showHistory (ui after_one_skip) = true
   /\ podcastHistory (ui after_one_skip) <> [])
  /\ storage (step after_one_skip ClickClearAll) = Absent.
Proof.
  assert (Hs : showHistory (ui after_one_skip) = true)
    by (vm_compute; reflexivity).
  assert (Hp : podcastHistory (ui after_one_skip) <> [])
    by (vm_compute; discriminate).
  split; [split; assumption|].
  exact (proj1 (clear_all_empties_history after_one_skip Hs Hp)).
Defined.

(** X18: the history, stored and shown, is written by Clear All and by
    the reply that ends a run (the successful reply to the request for
    the last chunk, or the transcript when it has no chunk), and by
    nothing else: typing, a click on Generate, the loading of a podcast
    from the history, the playback controls, the events of the [<audio>]
    element, a transcript that has chunks, a reply that fails or is not
    the last, a reply that no run waits for, leave both as they are. *)
Theorem history_written_only_by_run_end_and_clear :
  forall (s : State) (e : Event),
    may_write s e = false ->
    storage (step s e) = storage s
    /\ podcastHistory (ui (step s e)) = podcastHistory (ui s).
Proof.
  intros s e He. unfold step.
  destruct (render_frame (ui s) (handle e s)) as (E1 & _ & E3 & _).
  rewrite E1, E3.
  assert (Same : storage s = storage s
                 /\ podcastHistory (ui s) = podcastHistory (ui s)) by auto.
  destruct e; cbn [handle]; try discriminate He; try exact Same.
  - destruct (loading (ui s)); [exact Same|].
    exact (generatePodcast_history s).
  - unfold may_write in He.
    destruct (inflight s) as [[t k|]|]; try exact Same.
    unfold on_transcript, new_array.
    destruct (splitBySpeaker _) as [|chunk rest]; [discriminate He|].
    exact Same.
  - destruct (inflight s) as [[t k|]|]; exact Same.
  - unfold may_write, ends_run in He.
    destruct (inflight s) as [[|t k c chunk rest segs]|]; try exact Same.
    unfold on_speech. destruct ok; cbn [negb]; [|exact Same].
    destruct rest as [|chunk' rest]; [discriminate He|]. exact Same.
  - destruct (inflight s) as [[|]|]; exact Same.
  - destruct (showHistory (ui s)); [|exact Same].
    destruct (nth_error _ _); exact Same.
  - destruct (_ && _); [|exact Same]. exact (playCurrent_history readyState s).
  - destruct (controls_shown (ui s)); [|exact Same].
    unfold pauseCurrent. destruct (audio s); exact Same.
  - destruct (_ && _); [|exact Same].
    unfold skipNext. destruct (_ <? _); exact Same.
  - destruct (controls_shown (ui s)); [|exact Same].
    unfold changePlaybackSpeed. cbn. destruct (audio s); exact Same.
  - destruct (existsb _ _); exact Same.
  - destruct (audio s); [|exact Same].
    unfold onEnded, skipNext. destruct (_ <? _); exact Same.
  - destruct (audio s); exact Same.
  - destruct (audio s); exact Same.
  - destruct (audio s); exact Same.
Qed.

Lemma history_written_witness :
  may_write (step tea_page ClickGenerate)
    (TranscriptReturns (Some three_turns) (at_time 1700000000000 true)) = false
  /\ storage (step (step tea_page ClickGenerate)
                (TranscriptReturns (Some three_turns)
                   (at_time 1700000000000 true)))
     = storage (step tea_page ClickGenerate).
Proof.
  assert (H : may_write (step tea_page ClickGenerate)
                (TranscriptReturns (Some three_turns)
                   (at_time 1700000000000 true)) = false)
    by (vm_compute; reflexivity).
  split; [exact H|].
  exact (proj1 (history_written_only_by_run_end_and_clear
                  (step tea_page ClickGenerate)
                  (TranscriptReturns (Some three_turns)
                     (at_time 1700000000000 true)) H)).
Defined.

(* ================================================================== *)
(** ** The playback controls *)

Lemma JS_eqb_eq (a b : JS.str) : JS.eqb a b = true -> a = b.
Proof.
  revert b. induction a as [|x a IH]; intros [|y b] E; cbn in E;
    try discriminate; [reflexivity|].
  apply andb_true_iff in E. destruct E as [E1 E2].
  apply N.eqb_eq in E1. subst y. f_equal. apply IH. exact E2.
Qed.

Lemma nth_error_shown (c : Component) (seg : PodcastSegment.t) :
  nth_error (items (segments c)) (currentIdx c) = Some seg ->
  controls_shown c = true.
Proof.
  unfold controls_shown. destruct (items (segments c)); [|reflexivity].
  destruct (currentIdx c); discriminate.
Qed.

Lemma render_mounted (before : Component) (x : State) (a : Audio)
    (seg : PodcastSegment.t) :
  audio x = Some a ->
  nth_error (items (segments (ui x))) (currentIdx (ui x)) = Some seg ->
  render before x
  = if deps_changed before (ui x) then playback_effect x else x.
Proof.
  intros Ha Hn. unfold render.
  destruct (items (segments (ui x))) eqn:Ei.
  - destruct (currentIdx (ui x)); discriminate Hn.
  - rewrite Ha. reflexivity.
Qed.

(** X19: a click on a speed button sets the playback rate of the
    element at once.  When the speed is a new one, the effect runs again:
    the current segment is attached anew, with the new rate, and at an
    index other than 0 [play()] is called, at index 0 [load()]; so the
    segment starts over.  When the speed is the one already set, nothing
    else is sent.  The list and the index do not change. *)
Theorem speed_click_reattaches_segment :
  forall (s : State) (speed : Speed) (seg : PodcastSegment.t),
    audio s <> None ->
    nth_error (items (segments (ui s))) (currentIdx (ui s)) = Some seg ->
    let s' := step s (ClickSpeed speed) in
    playbackSpeed (ui s') = speed
    /\ segments (ui s') = segments (ui s)
    /\ currentIdx (ui s') = currentIdx (ui s)
    /\ sent s (ClickSpeed speed)
       = SetRate speed
         :: (if Speed_eqb (playbackSpeed (ui s)) speed then []
             else [SetSrc (PodcastSegment.url seg); SetRate speed;
                   if currentIdx (ui s) =? 0 then Load else Play]).
Proof.
  intros s speed seg Ha Hn. cbv zeta. unfold sent, step.
  rewrite render_ui. cbn [handle]. rewrite (nth_error_shown _ _ Hn).
  destruct (audio s) as [a|] eqn:Ea; [|contradiction].
  assert (C : changePlaybackSpeed speed s
              = send [SetRate speed] (upd_ui (setPlaybackSpeed speed) s)).
  { unfold changePlaybackSpeed. cbn [audio upd_ui]. rewrite Ea. reflexivity. }
  rewrite C.
  split; [reflexivity|]. split; [reflexivity|]. split; [reflexivity|].
  rewrite (render_mounted (ui s) _ a seg); [|exact Ea|exact Hn].
  cbn [ui send upd_ui]. unfold deps_changed.
  cbn [currentIdx segments playbackSpeed setPlaybackSpeed].
  rewrite !Nat.eqb_refl. cbn [andb].
  destruct (Speed_eqb (playbackSpeed (ui s)) speed); cbn [negb].
  - cbn [sink send]. apply skipn_length_app.
  - unfold playback_effect.
    cbn [audio ui send upd_ui segments currentIdx playbackSpeed
         setPlaybackSpeed].
    rewrite Ea, Hn.
    destruct (currentIdx (ui s) =? 0); cbn [sink send set_audio];
      rewrite <- !app_assoc; apply skipn_length_app.
Qed.

Lemma speed_click_witness :
  (audio (run first_run fresh_page) <> None
   /\ nth_error (items (segments (ui (run first_run fresh_page))))
        (currentIdx (ui (run first_run fresh_page))) = Some first_segment)
  /\ playbackSpeed (ui (step (run first_run fresh_page) (ClickSpeed x1_5)))
     = x1_5.
Proof.
  assert (Ha : audio (run first_run fresh_page) <> None)
    by (vm_compute; discriminate).
  assert (Hn : nth_error (items (segments (ui (run first_run fresh_page))))
                 (currentIdx (ui (run first_run fresh_page)))
               = Some first_segment) by (vm_compute; reflexivity).
  split; [split; assumption|].
  exact (proj1 (speed_click_reattaches_segment (run first_run fresh_page)
                  x1_5 first_segment Ha Hn)).
Defined.

(** X20: a click on the play button, when the button is enabled and the
    index is one of the list, attaches the current segment unless it is
    attached already, calls [load()] at index 0 when the element has
    nothing yet, and calls [play()]; the component does not change.  At
    index 0 the button is disabled until the element can play, and a
    click does nothing; so does a click when the index is no index of
    the list. *)
Theorem play_click :
  forall (s : State) (readyState : N) (a : Audio),
    audio s = Some a ->
    controls_shown (ui s) = true ->
    let s' := step s (ClickPlay readyState) in
    ui s' = ui s
    /\ (forall seg,
          nth_error (items (segments (ui s))) (currentIdx (ui s)) = Some seg ->
          audioReady (ui s) = true \/ currentIdx (ui s) <> 0 ->
          audio s' = Some {| src := PodcastSegment.url seg |}
          /\ sent s (ClickPlay readyState)
             = (if JS.eqb (src a) (PodcastSegment.url seg) then []
                else [SetSrc (PodcastSegment.url seg);
                      SetRate (playbackSpeed (ui s))])
               ++ (if (currentIdx (ui s) =? 0) && (readyState =? 0)%N
                   then [Load] else [])
               ++ [Play])
    /\ (audioReady (ui s) = false -> currentIdx (ui s) = 0 ->
        sent s (ClickPlay readyState) = [] /\ audio s' = audio s)
    /\ (nth_error (items (segments (ui s))) (currentIdx (ui s)) = None ->
        sent s (ClickPlay readyState) = [] /\ audio s' = audio s).
Proof.
  intros s readyState a Ha Hshow. cbv zeta.
  assert (U : ui (handle (ClickPlay readyState) s) = ui s).
  { cbn [handle]. destruct (_ && _); [|reflexivity].
    unfold playCurrent. rewrite Ha.
    destruct (nth_error _ _); [|reflexivity].
    destruct (negb _); destruct (_ && _); reflexivity. }
  assert (R : render (ui s) (handle (ClickPlay readyState) s)
              = handle (ClickPlay readyState) s
              \/ audio (handle (ClickPlay readyState) s) = None).
  { destruct (audio (handle (ClickPlay readyState) s)) eqn:Eh; [|auto].
    left. unfold render. rewrite U.
    unfold controls_shown in Hshow.
    destruct (items (segments (ui s))); [discriminate|].
    rewrite Eh, U, deps_changed_same. reflexivity. }
  assert (Idle : handle (ClickPlay readyState) s = s ->
                 sent s (ClickPlay readyState) = []
                 /\ audio (step s (ClickPlay readyState)) = audio s).
  { intro E. unfold sent, step. rewrite E in *.
    destruct R as [R|R]; [|congruence].
    rewrite R. split; [apply skipn_all|reflexivity]. }
  unfold step at 1. rewrite render_ui.
  split; [exact U|]. split; [|split].
  - intros seg Hn Hen. unfold sent, step.
    assert (H : handle (ClickPlay readyState) s = playCurrent readyState s).
    { cbn [handle]. rewrite Hshow.
      destruct Hen as [Hr|Hi].
      - rewrite Hr. reflexivity.
      - apply Nat.eqb_neq in Hi. rewrite Hi, andb_false_r. reflexivity. }
    rewrite H in *.
    assert (P : audio (playCurrent readyState s)
                = Some {| src := PodcastSegment.url seg |}
                /\ sink (playCurrent readyState s)
                   = sink s
                     ++ (if JS.eqb (src a) (PodcastSegment.url seg) then []
                         else [SetSrc (PodcastSegment.url seg);
                               SetRate (playbackSpeed (ui s))])
                     ++ (if (currentIdx (ui s) =? 0) && (readyState =? 0)%N
                         then [Load] else [])
                     ++ [Play]).
    { unfold playCurrent. rewrite Ha, Hn.
      destruct (JS.eqb (src a) (PodcastSegment.url seg)) eqn:Eq; cbn [negb];
        destruct ((currentIdx (ui s) =? 0) && (readyState =? 0)%N);
        cbn [audio sink send set_audio note_play app];
        rewrite ?Ha, <- ?app_assoc; split; try reflexivity;
        apply JS_eqb_eq in Eq; destruct a as [u]; cbn in Eq; rewrite Eq;
        reflexivity. }
    destruct P as [P1 P2].
    destruct R as [R|R]; [|congruence].
    rewrite R. split; [exact P1|]. rewrite P2. apply skipn_length_app.
  - intros Hr Hi. apply Idle. cbn [handle]. rewrite Hr, Hi.
    cbn. rewrite andb_false_r. reflexivity.
  - intro Hn. apply Idle. cbn [handle]. destruct (_ && _); [|reflexivity].
    unfold playCurrent. rewrite Ha, Hn. reflexivity.
Qed.

Lemma play_click_witness :
  (audio (step (run first_run fresh_page) AudioCanPlay)
   = Some {| src := JS.lit "blob:1" |}
   /\ controls_shown (ui (step (run first_run fresh_page) AudioCanPlay))
      = true)
  /\ ui (step (step (run first_run fresh_page) AudioCanPlay) (ClickPlay 4))
     = ui (step (run first_run fresh_page) AudioCanPlay).
Proof.
  assert (Ha : audio (step (run first_run fresh_page) AudioCanPlay)
               = Some {| src := JS.lit "blob:1" |})
    by (vm_compute; reflexivity).
  assert (Hs : controls_shown (ui (step (run first_run fresh_page) AudioCanPlay))
               = true) by (vm_compute; reflexivity).
  split; [split; assumption|].
  exact (proj1 (play_click (step (run first_run fresh_page) AudioCanPlay) 4
                  {| src := JS.lit "blob:1" |} Ha Hs)).
Defined.



(* ================================================================== *)
(** ** The element holds the current segment *)

Lemma render_heap (before : Component) (x : State) :
  heap (render before x) = heap x.
Proof.
  unfold render.
  set (x1 := match items (segments (ui x)) with
             | [] => set_audio None x
             | _ :: _ => match audio x with
                         | None => set_audio (Some {| src := [] |}) x
                         | Some _ => x
                         end
             end).
  assert (F : heap x1 = heap x).
  { unfold x1. destruct (items (segments (ui x))); [reflexivity|].
    destruct (audio x); reflexivity. }
  destruct (deps_changed before (ui x1)); [|exact F].
  unfold playback_effect. destruct (audio x1); [|exact F].
  destruct (nth_error _ _); [|exact F].
  destruct (currentIdx (ui x1) =? 0); exact F.
Qed.

Lemma parse_from_refs (h : list StoredJson) (r : nat) :
  map (fun p => ref (StoredPodcast.segments p)) (parse_from r h)
  = seq r (length h).
Proof.
  revert r. induction h as [|p h IH]; intro r; [reflexivity|].
  cbn [parse_from map length seq]. rewrite IH. reflexivity.
Qed.

Lemma In_firstn {A : Type} (n : nat) (l : list A) (x : A) :
  In x (firstn n l) -> In x l.
Proof.
  intro H. rewrite <- (firstn_skipn n l). apply in_or_app. left. exact H.
Qed.

(** A state that differs from a coherent one in nothing that counts. *)
Lemma coherent_frame (s x : State) :
  segments (ui x) = segments (ui s) ->
  podcastHistory (ui x) = podcastHistory (ui s) ->
  heap x = heap s ->
  inflight x = inflight s \/ inflight x = None ->
  coherent s -> coherent x.
Proof.
  intros E1 E2 E3 E4 (C1 & C2 & C3 & C4 & C5).
  unfold coherent, apart, history_refs in *. rewrite E1, E2, E3.
  repeat split; try assumption.
  destruct E4 as [E4|E4]; rewrite E4; [exact C5|exact I].
Qed.

(** The history a save writes: the new podcast before entries whose
    arrays were made after its own. *)
Lemma new_history_refs (newP : Stored) (hist : list Stored) (r n bound : nat) :
  ref (StoredPodcast.segments newP) < r ->
  r + n <= bound ->
  map (fun p => ref (StoredPodcast.segments p)) hist = seq r n ->
  let l := firstn 10 (newP :: hist) in
  Forall (fun k => k < bound) (map (fun p => ref (StoredPodcast.segments p)) l)
  /\ NoDup (map (fun p => ref (StoredPodcast.segments p)) l)
  /\ (forall p, In p l ->
       ref (StoredPodcast.segments p) = ref (StoredPodcast.segments newP) ->
       items (StoredPodcast.segments p) = items (StoredPodcast.segments newP)).
Proof.
  intros Hn Hb Hm l.
  assert (E : map (fun p => ref (StoredPodcast.segments p)) l
              = firstn 10 (ref (StoredPodcast.segments newP) :: seq r n)).
  { unfold l. rewrite <- firstn_map. cbn [map]. do 2 f_equal. exact Hm. }
  rewrite E. unfold l.
  split; [|split].
  - apply Forall_forall. intros k Hk. apply In_firstn in Hk.
    destruct Hk as [Hk|Hk]; [subst k; lia|].
    apply in_seq in Hk. lia.
  - apply NoDup_firstn. constructor; [|apply seq_NoDup].
    intro K. apply in_seq in K. lia.
  - intros p Hp Hr. apply In_firstn in Hp.
    destruct Hp as [Hp|Hp]; [subst p; reflexivity|].
    exfalso.
    assert (K : In (ref (StoredPodcast.segments p)) (seq r n)).
    { rewrite <- Hm.
      exact (in_map (fun q : Stored => ref (StoredPodcast.segments q))
               hist p Hp). }
    apply in_seq in K. lia.
Qed.

(** The loop, entered with an array that is no other array of the
    state, keeps the state coherent. *)
Lemma tts_loop_coherent (tp key content : JS.str) (chunks_ : list Chunk)
    (segs : Arr PodcastSegment.t) (w : Ambient) (x : State) :
  coherent x -> apart segs x ->
  coherent (tts_loop tp key content chunks_ segs w x).
Proof.
  intros (C1 & C2 & C3 & C4 & _) (A1 & A2 & A3).
  assert (Old : forall p : Stored,
            In p (podcastHistory (ui x)) ->
            ref (StoredPodcast.segments p) = ref segs ->
            items (StoredPodcast.segments p) = items segs).
  { intros p Hp Hr. exfalso. apply A3. unfold history_refs.
    rewrite <- Hr.
    exact (in_map (fun q : Stored => ref (StoredPodcast.segments q))
             _ p Hp). }
  destruct chunks_ as [|chunk rest]; cbn [tts_loop].
  - unfold finish, savePodcastToHistory, parse.
    change (storage (upd_ui (setSegments segs) x)) with (storage x).
    destruct (storage x) as [|h|] eqn:Es; destruct (setItem_ok w) eqn:Ew;
      unfold coherent; unfold history_refs in *;
      cbn -[firstn].
    + destruct (new_history_refs
                  {| StoredPodcast.id := JS.of_Z (now_id w);
                     StoredPodcast.topic := tp;
                     StoredPodcast.transcript := content;
                     StoredPodcast.segments := segs;
                     StoredPodcast.createdAt := now_createdAt w |} []
                  (heap x) 0 (heap x)) as (N1 & N2 & N3);
        [exact A1|lia|reflexivity|].
      repeat split; try exact I; assumption.
    + repeat split; try exact I; assumption.
    + destruct (new_history_refs
                  {| StoredPodcast.id := JS.of_Z (now_id w);
                     StoredPodcast.topic := tp;
                     StoredPodcast.transcript := content;
                     StoredPodcast.segments := segs;
                     StoredPodcast.createdAt := now_createdAt w |}
                  (parse_from (heap x) h)
                  (heap x) (length h) (heap x + length h)) as (N1 & N2 & N3);
        [exact A1|lia|apply parse_from_refs|].
      repeat split; try exact I; try assumption. lia.
    + repeat split; try exact I; try assumption; [lia|].
      eapply Forall_impl; [|exact C2]. cbn. intros. lia.
    + repeat split; try exact I; assumption.
    + repeat split; try exact I; assumption.
  - unfold coherent, apart, history_refs in *.
    cbn. repeat split; assumption.
Qed.

Lemma NoDup_map_eq {A B : Type} (f : A -> B) (l : list A) (p q : A) :
  NoDup (map f l) -> In p l -> In q l -> f p = f q -> p = q.
Proof.
  induction l as [|x l IH]; cbn [map]; intros N Hp Hq E; [destruct Hp|].
  inversion N as [|? ? Nx Nl]; subst.
  destruct Hp as [Hp|Hp], Hq as [Hq|Hq].
  - congruence.
  - subst x. exfalso. apply Nx. rewrite E. apply in_map. exact Hq.
  - subst x. exfalso. apply Nx. rewrite <- E. apply in_map. exact Hp.
  - apply IH; assumption.
Qed.

Ltac quiet C :=
  eapply coherent_frame; [..|exact C];
  first [reflexivity | left; reflexivity | right; reflexivity].

(** Every handler keeps the state coherent. *)
Lemma handle_coherent (e : Event) (s : State) :
  coherent s -> coherent (handle e s).
Proof.
  intro C. pose proof C as (C1 & C2 & C3 & C4 & C5).
  destruct e; cbn [handle].
  - quiet C.
  - quiet C.
  - quiet C.
  - destruct (loading (ui s)); [exact C|].
    unfold generatePodcast.
    change (apiKey (ui (upd_ui (setError []) s))) with (apiKey (ui s)).
    change (openaiKey (ui (upd_ui (setError []) s))) with (openaiKey (ui s)).
    change (topic (ui (upd_ui (setError []) s))) with (topic (ui s)).
    destruct (negb (JS.truthy (apiKey (ui s)))); [quiet C|].
    destruct (negb (JS.truthy (openaiKey (ui s)))); [quiet C|].
    destruct (negb (JS.truthy (topic (ui s)))); [quiet C|].
    unfold coherent, history_refs in *. cbn.
    repeat split; try exact I; try assumption.
    + lia.
    + eapply Forall_impl; [|exact C2]. cbn. intros. lia.
    + intros p Hp Hr. exfalso.
      rewrite Forall_forall in C2.
      specialize (C2 _ (in_map (fun q : Stored => ref (StoredPodcast.segments q))
                          _ p Hp)).
      cbn in C2. lia.
  - destruct (inflight s) as [[t k|? ? ? ? ? ?]|] eqn:Ei; try exact C.
    unfold on_transcript, new_array.
    apply tts_loop_coherent.
    + unfold coherent, history_refs in *. cbn. rewrite Ei.
      repeat split; try exact I; try assumption.
      * lia.
      * eapply Forall_impl; [|exact C2]. cbn. intros. lia.
    + unfold apart, history_refs in *. cbn.
      repeat split; try lia.
      intro K. rewrite Forall_forall in C2. specialize (C2 _ K).
      cbn in C2. lia.
  - destruct (inflight s) as [[t k|? ? ? ? ? ?]|] eqn:Ei; try exact C.
    quiet C.
  - destruct (inflight s) as [[t k|t k content chunk rest segs]|] eqn:Ei;
      try exact C.
    unfold on_speech. destruct (negb ok); [quiet C|].
    apply tts_loop_coherent; [exact C|].
    exact C5.
  - destruct (inflight s) as [[t k|? ? ? ? ? ?]|] eqn:Ei; try exact C.
    quiet C.
  - quiet C.
  - destruct (showHistory (ui s)); [|exact C].
    destruct (nth_error (podcastHistory (ui s)) i) as [p|] eqn:En; [|exact C].
    apply nth_error_In in En.
    assert (Hr : In (ref (StoredPodcast.segments p)) (history_refs s)).
    { exact (in_map (fun q : Stored => ref (StoredPodcast.segments q)) _ p En). }
    unfold coherent, apart, loadPodcastFromHistory in *.
    unfold history_refs in *. cbn.
    repeat split; try assumption.
    + rewrite Forall_forall in C2. exact (C2 _ Hr).
    + intros q Hq E.
      rewrite (NoDup_map_eq (fun q : Stored => ref (StoredPodcast.segments q))
                 _ q p C3 Hq En E).
      reflexivity.
    + destruct (inflight s) as [[t k|t k content chunk rest segs]|];
        try exact I.
      destruct C5 as (A1 & A2 & A3).
      repeat split; try assumption.
      intro K. apply A3. rewrite K. exact Hr.
  - destruct (showHistory (ui s) && negb (length (podcastHistory (ui s)) =? 0));
      [|exact C].
    unfold coherent, apart, clearHistory in *. unfold history_refs in *. cbn.
    repeat split; try assumption.
    + constructor.
    + constructor.
    + intros p [].
    + destruct (inflight s) as [[t k|t k content chunk rest segs]|];
        try exact I.
      destruct C5 as (A1 & A2 & A3).
      repeat split; try assumption. intros [].
  - destruct (controls_shown (ui s)
              && negb (negb (audioReady (ui s)) && (currentIdx (ui s) =? 0)));
      [|exact C].
    unfold playCurrent. destruct (audio s) as [a|]; [|exact C].
    destruct (nth_error _ _) as [seg|]; [|exact C].
    destruct (negb (JS.eqb (src a) (PodcastSegment.url seg)));
      destruct ((currentIdx (ui s) =? 0) && (readyState =? 0)%N); quiet C.
  - destruct (controls_shown (ui s)); [|exact C].
    unfold pauseCurrent. destruct (audio s); [quiet C|exact C].
  - destruct (controls_shown (ui s)
              && negb (length (items (segments (ui s))) <=? S (currentIdx (ui s))));
      [|exact C].
    unfold skipNext. destruct (_ <? _); [quiet C|exact C].
  - destruct (controls_shown (ui s)); [|exact C].
    unfold changePlaybackSpeed. cbn. destruct (audio s); quiet C.
  - destruct (existsb (Nat.eqb i) (play_calls s)); [quiet C|exact C].
  - destruct (audio s); [|exact C].
    unfold onEnded, skipNext. destruct (_ <? _); [quiet C|exact C].
  - destruct (audio s); [quiet C|exact C].
  - destruct (audio s); [quiet C|exact C].
  - destruct (audio s); [quiet C|exact C].
Qed.

Lemma step_coherent (s : State) (e : Event) :
  coherent s -> coherent (step s e).
Proof.
  intro C. apply (handle_coherent e) in C. unfold step.
  destruct (render_frame (ui s) (handle e s)) as (F1 & F2 & _).
  eapply coherent_frame; [..|exact C].
  - rewrite F1. reflexivity.
  - rewrite F1. reflexivity.
  - apply render_heap.
  - left. exact F2.
Qed.

Lemma mount_coherent (k1 k2 : JS.str) (stored : Entry) :
  coherent (mount k1 k2 stored).
Proof.
  unfold mount, loadPodcastHistory, parse. cbn.
  destruct stored as [|h|]; unfold coherent, history_refs; cbn;
    try (repeat split; try exact I; try lia; try constructor;
         intros p []).
  assert (P : Permutation
                (map (fun p : Stored => ref (StoredPodcast.segments p))
                   (sort_desc (parse_from 1 h)))
                (seq 1 (length h))).
  { rewrite <- parse_from_refs. apply Permutation_map. apply sort_desc_perm. }
  repeat split; try exact I.
  - lia.
  - apply Forall_forall. intros r Hr.
    apply (Permutation_in _ P) in Hr. apply in_seq in Hr. lia.
  - apply (Permutation_NoDup (Permutation_sym P)). apply seq_NoDup.
  - intros p Hp Hr. exfalso.
    assert (K : In (ref (StoredPodcast.segments p)) (seq 1 (length h))).
    { apply (Permutation_in _ P).
      exact (in_map (fun q : Stored => ref (StoredPodcast.segments q)) _ p Hp). }
    apply in_seq in K. lia.
Qed.

Lemma tts_loop_segments (tp key content : JS.str) (chunks_ : list Chunk)
    (segs : Arr PodcastSegment.t) (w : Ambient) (x : State) :
  segments (ui (tts_loop tp key content chunks_ segs w x))
  = match chunks_ with [] => segs | _ :: _ => segments (ui x) end
  /\ audio (tts_loop tp key content chunks_ segs w x) = audio x.
Proof.
  destruct chunks_ as [|chunk rest]; cbn [tts_loop]; [|split; reflexivity].
  unfold finish.
  destruct (save_frame tp content segs w (upd_ui (setSegments segs) x))
    as (F1 & _ & _ & _ & _ & _ & _ & _ & F9).
  split; [exact F1|exact F9].
Qed.

(** A handler that leaves the identity of the installed array leaves its
    elements. *)
Lemma handle_same_ref (e : Event) (s : State) :
  coherent s ->
  ref (segments (ui (handle e s))) = ref (segments (ui s)) ->
  items (segments (ui (handle e s))) = items (segments (ui s)).
Proof.
  intros (C1 & C2 & C3 & C4 & C5).
  destruct e; cbn [handle]; try reflexivity.
  - destruct (loading (ui s)); [reflexivity|].
    unfold generatePodcast.
    change (apiKey (ui (upd_ui (setError []) s))) with (apiKey (ui s)).
    change (openaiKey (ui (upd_ui (setError []) s))) with (openaiKey (ui s)).
    change (topic (ui (upd_ui (setError []) s))) with (topic (ui s)).
    destruct (negb (JS.truthy (apiKey (ui s)))); [reflexivity|].
    destruct (negb (JS.truthy (openaiKey (ui s)))); [reflexivity|].
    destruct (negb (JS.truthy (topic (ui s)))); [reflexivity|].
    cbn. intro E. lia.
  - destruct (inflight s) as [[t k|? ? ? ? ? ?]|] eqn:Ei; try reflexivity.
    unfold on_transcript, new_array.
    match goal with
    | |- context [tts_loop ?a ?b ?c ?d ?e ?f ?g] =>
        destruct (tts_loop_segments a b c d e f g) as (T & _); rewrite T;
        destruct d
    end; cbn; [intro E; lia|reflexivity].
  - destruct (inflight s) as [[t k|? ? ? ? ? ?]|] eqn:Ei; reflexivity.
  - destruct (inflight s) as [[t k|t k content chunk rest segs]|] eqn:Ei;
      try reflexivity.
    unfold on_speech. destruct (negb ok); [reflexivity|].
    match goal with
    | |- context [tts_loop ?a ?b ?c ?d ?e ?f ?g] =>
        destruct (tts_loop_segments a b c d e f g) as (T & _); rewrite T
    end.
    destruct rest; [|reflexivity].
    cbn. intro E. destruct C5 as (_ & A2 & _). contradiction.
  - destruct (inflight s) as [[t k|? ? ? ? ? ?]|] eqn:Ei; reflexivity.
  - destruct (showHistory (ui s)); [|reflexivity].
    destruct (nth_error (podcastHistory (ui s)) i) as [p|] eqn:En;
      [|reflexivity].
    apply nth_error_In in En. cbn. apply C4. exact En.
  - destruct (_ && _); reflexivity.
  - destruct (_ && _); [|reflexivity].
    unfold playCurrent. destruct (audio s) as [a|]; [|reflexivity].
    destruct (nth_error _ _) as [seg|]; [|reflexivity].
    destruct (negb (JS.eqb (src a) (PodcastSegment.url seg)));
      destruct ((currentIdx (ui s) =? 0) && (readyState =? 0)%N); reflexivity.
  - destruct (controls_shown (ui s)); [|reflexivity].
    unfold pauseCurrent. destruct (audio s); reflexivity.
  - destruct (_ && _); [|reflexivity].
    unfold skipNext. destruct (_ <? _); reflexivity.
  - destruct (controls_shown (ui s)); [|reflexivity].
    unfold changePlaybackSpeed. cbn. destruct (audio s); reflexivity.
  - destruct (existsb _ _); reflexivity.
  - destruct (audio s); [|reflexivity].
    unfold onEnded, skipNext. destruct (_ <? _); reflexivity.
  - destruct (audio s); reflexivity.
  - destruct (audio s); reflexivity.
  - destruct (audio s); reflexivity.
Qed.

(** A handler leaves the [<audio>] element as it is, or gives it the
    current segment. *)
Lemma handle_audio (e : Event) (s : State) :
  audio (handle e s) = audio s
  \/ exists seg,
       nth_error (items (segments (ui (handle e s))))
         (currentIdx (ui (handle e s))) = Some seg
       /\ audio (handle e s) = Some {| src := PodcastSegment.url seg |}.
Proof.
  destruct e; cbn [handle]; try (left; reflexivity).
  - left. destruct (loading (ui s)); [reflexivity|].
    unfold generatePodcast.
    change (apiKey (ui (upd_ui (setError []) s))) with (apiKey (ui s)).
    change (openaiKey (ui (upd_ui (setError []) s))) with (openaiKey (ui s)).
    change (topic (ui (upd_ui (setError []) s))) with (topic (ui s)).
    destruct (negb (JS.truthy (apiKey (ui s)))); [reflexivity|].
    destruct (negb (JS.truthy (openaiKey (ui s)))); [reflexivity|].
    destruct (negb (JS.truthy (topic (ui s)))); reflexivity.
  - left. destruct (inflight s) as [[t k|? ? ? ? ? ?]|] eqn:Ei; try reflexivity.
    unfold on_transcript, new_array.
    match goal with
    | |- context [tts_loop ?a ?b ?c ?d ?e ?f ?g] =>
        destruct (tts_loop_segments a b c d e f g) as (_ & T); rewrite T
    end.
    reflexivity.
  - left. destruct (inflight s) as [[t k|? ? ? ? ? ?]|] eqn:Ei; reflexivity.
  - left.
    destruct (inflight s) as [[t k|t k content chunk rest segs]|] eqn:Ei;
      try reflexivity.
    unfold on_speech. destruct (negb ok); [reflexivity|].
    match goal with
    | |- context [tts_loop ?a ?b ?c ?d ?e ?f ?g] =>
        destruct (tts_loop_segments a b c d e f g) as (_ & T); rewrite T
    end.
    reflexivity.
  - left. destruct (inflight s) as [[t k|? ? ? ? ? ?]|] eqn:Ei; reflexivity.
  - left. destruct (showHistory (ui s)); [|reflexivity].
    destruct (nth_error (podcastHistory (ui s)) i); reflexivity.
  - left. destruct (_ && _); reflexivity.
  - destruct (_ && _); [|left; reflexivity].
    unfold playCurrent. destruct (audio s) as [a|] eqn:Ea; [|left; exact Ea].
    destruct (nth_error _ _) as [seg|] eqn:En; [|left; exact Ea].
    destruct (negb (JS.eqb (src a) (PodcastSegment.url seg))) eqn:Eq.
    + right. exists seg. split.
      * destruct ((currentIdx (ui s) =? 0) && (readyState =? 0)%N);
          cbn; exact En.
      * destruct ((currentIdx (ui s) =? 0) && (readyState =? 0)%N);
          reflexivity.
    + left.
      destruct ((currentIdx (ui s) =? 0) && (readyState =? 0)%N);
        cbn; exact Ea.
  - left. destruct (controls_shown (ui s)); [|reflexivity].
    unfold pauseCurrent.
    destruct (audio s) eqn:Ea; first [reflexivity|cbn; exact Ea].
  - left. destruct (_ && _); [|reflexivity].
    unfold skipNext. destruct (_ <? _); reflexivity.
  - left. destruct (controls_shown (ui s)); [|reflexivity].
    unfold changePlaybackSpeed. cbn.
    destruct (audio s) eqn:Ea; first [reflexivity|cbn; exact Ea].
  - left. destruct (existsb _ _); reflexivity.
  - left. destruct (audio s) eqn:Ea; [|exact Ea].
    unfold onEnded, skipNext.
    destruct (_ <? _); first [reflexivity|cbn; exact Ea].
  - left. destruct (audio s) eqn:Ea; first [reflexivity|cbn; exact Ea].
  - left. destruct (audio s) eqn:Ea; first [reflexivity|cbn; exact Ea].
  - left. destruct (audio s) eqn:Ea; first [reflexivity|cbn; exact Ea].
Qed.

Lemma deps_same (before after : Component) :
  deps_changed before after = false ->
  currentIdx before = currentIdx after
  /\ ref (segments before) = ref (segments after).
Proof.
  unfold deps_changed. intro H. apply negb_false_iff in H.
  apply andb_prop in H. destruct H as (H & _).
  apply andb_prop in H. destruct H as (H1 & H2).
  split; apply Nat.eqb_eq; assumption.
Qed.

(** The effect on an element that exists leaves it holding the current
    segment, if there is one. *)
Lemma effect_attached (x : State) (a : Audio) :
  audio x = Some a ->
  items (segments (ui x)) <> [] ->
  attached (playback_effect x).
Proof.
  intros Ea Ne. unfold playback_effect. rewrite Ea.
  destruct (nth_error _ _) as [seg|] eqn:En.
  - unfold attached.
    destruct (currentIdx (ui x) =? 0); cbn; (split; [exact Ne|]);
      intros seg' E'; rewrite En in E'; inversion E'; reflexivity.
  - unfold attached. rewrite Ea. split; [exact Ne|].
    intros seg' E'. rewrite En in E'. discriminate.
Qed.

(** The render after a handler keeps the element attached. *)
Lemma render_attached (s x : State) :
  attached s ->
  (ref (segments (ui x)) = ref (segments (ui s)) ->
   items (segments (ui x)) = items (segments (ui s))) ->
  (audio x = audio s
   \/ exists seg,
        nth_error (items (segments (ui x))) (currentIdx (ui x)) = Some seg
        /\ audio x = Some {| src := PodcastSegment.url seg |}) ->
  attached (render (ui s) x).
Proof.
  intros At K H. unfold render.
  destruct (items (segments (ui x))) as [|seg0 l] eqn:Ex.
  - assert (E : attached (set_audio None x)) by exact Ex.
    destruct (deps_changed _ _); exact E.
  - assert (Ne : items (segments (ui x)) <> []) by (rewrite Ex; discriminate).
    rewrite <- Ex in K, H.
    destruct (audio x) as [a|] eqn:Eax.
    + destruct (deps_changed (ui s) (ui x)) eqn:Ed.
      * apply (effect_attached x a Eax Ne).
      * apply deps_same in Ed. destruct Ed as (Ei & Er).
        symmetry in Er. specialize (K Er).
        unfold attached. rewrite Eax. split; [exact Ne|].
        intros seg En. destruct H as [H|(seg1 & En1 & H)].
        -- unfold attached in At. rewrite <- H in At.
           destruct At as (_ & At). apply At.
           rewrite <- K, Ei. exact En.
        -- rewrite En in En1. inversion En1; subst seg1.
           inversion H. reflexivity.
    + destruct H as [H|(seg1 & _ & H)]; [|discriminate].
      unfold attached in At. rewrite <- H in At.
      destruct (deps_changed (ui s) (ui (set_audio (Some {| src := [] |}) x)))
        eqn:Ed.
      * apply (effect_attached _ {| src := [] |}); [reflexivity|exact Ne].
      * apply deps_same in Ed. destruct Ed as (_ & Er).
        symmetry in Er. specialize (K Er).
        exfalso. apply Ne. rewrite K. exact At.
Qed.

Lemma step_attached (s : State) (e : Event) :
  coherent s -> attached s -> attached (step s e).
Proof.
  intros C At. unfold step. apply render_attached.
  - exact At.
  - apply handle_same_ref. exact C.
  - apply handle_audio.
Qed.

Lemma run_coherent_attached (es : list Event) (s : State) :
  coherent s -> attached s ->
  coherent (run es s) /\ attached (run es s).
Proof.
  revert s. induction es as [|e es IH]; intros s C At; [split; assumption|].
  cbn [run fold_left]. apply IH.
  - apply step_coherent. exact C.
  - apply step_attached; assumption.
Qed.

(** X22: whatever the events since the page was opened, the [<audio>]
    element is in the tree exactly when the list of segments is not
    empty, and when the current index is inside the list the segment
    the element holds is the one at that index. *)
Theorem element_holds_current_segment (es : list Event) (k1 k2 : JS.str)
    (stored : Entry) :
  attached (run es (mount k1 k2 stored)).
Proof.
  apply run_coherent_attached.
  - apply mount_coherent.
  - unfold mount, loadPodcastHistory, parse. cbn.
    destruct stored; reflexivity.
Qed.

